(** * Lab chatbot builder (src/App.tsx): the Q/A import normaliser, the
    metadata validator, the slug and the export payload.

    The pure functions of App.tsx are embedded as Rocq functions over
    - [jsstring]: an ECMAScript string, a list of UTF-16 code units;
    - [value]: the values [JSON.parse] can build (plus [undefined], which a
      property read of a missing key gives);
    - [result]: a computation that returns or throws.
    React state is passed explicitly: the state setters of [App] take the
    previous pair list and give the next one. *)

From Stdlib Require Import Ascii String.
From Stdlib Require Import List NArith ZArith Bool Lia Permutation.
From Stdlib Require Import Floats.SpecFloat.
Import ListNotations.

(* ================================================================== *)
(** ** ECMAScript strings *)

Definition jsstring := list N.

(** An ASCII literal of the source, as code units. *)
Definition lit (s : String.string) : jsstring :=
  map N_of_ascii (String.list_ascii_of_string s).
Arguments lit s%_string.

(** A literal in which an apostrophe stands for the double quote, for JSON
    text. *)
Definition litq (s : String.string) : jsstring :=
  map (fun c => if N.eqb c 39 then 34%N else c) (lit s).
Arguments litq s%_string.

Fixpoint str_eqb (s t : jsstring) : bool :=
  match s, t with
  | [], [] => true
  | c :: s', d :: t' => N.eqb c d && str_eqb s' t'
  | _, _ => false
  end.

Definition isEmpty (s : jsstring) : bool :=
  match s with [] => true | _ => false end.

(** Truthiness of a string ([Boolean(s)], [!s], [s || d]). *)
Definition nonEmpty (s : jsstring) : bool := negb (isEmpty s).

Definition inRange (lo hi c : N) : bool := N.leb lo c && N.leb c hi.

(** ECMAScript [LineTerminator]: LF, CR, LS, PS. *)
Definition isLineTerminator (c : N) : bool :=
  N.eqb c 10 || N.eqb c 13 || N.eqb c 8232 || N.eqb c 8233.

(** ECMAScript [WhiteSpace]: TAB, VT, FF, ZWNBSP and the space separators. *)
Definition isWhiteSpace (c : N) : bool :=
  N.eqb c 9 || N.eqb c 11 || N.eqb c 12 || N.eqb c 32 || N.eqb c 160
  || N.eqb c 5760 || inRange 8192 8202 c || N.eqb c 8239 || N.eqb c 8287
  || N.eqb c 12288 || N.eqb c 65279.

(** The class [\s] of a regular expression, which is also what
    [String.prototype.trim] strips. *)
Definition isSpace (c : N) : bool := isWhiteSpace c || isLineTerminator c.

Fixpoint dropWhile (p : N -> bool) (s : jsstring) : jsstring :=
  match s with
  | [] => []
  | c :: s' => if p c then dropWhile p s' else s
  end.

Definition trimStart (s : jsstring) : jsstring := dropWhile isSpace s.
Definition trimEnd (s : jsstring) : jsstring := rev (dropWhile isSpace (rev s)).

(** [s.trim()] *)
Definition trim (s : jsstring) : jsstring := trimEnd (trimStart s).

(** [s.replace(/C+/g, by)] for a character class [C]: every maximal run of
    code units of the class is replaced by [by].  The scan emits [by] where a
    run starts; [inRun] says that the previous code unit was of the class. *)
Fixpoint replaceRunsFrom (p : N -> bool) (by_ : jsstring) (inRun : bool)
    (s : jsstring) : jsstring :=
  match s with
  | [] => []
  | c :: s' =>
      if p c then
        (if inRun then [] else by_) ++ replaceRunsFrom p by_ true s'
      else c :: replaceRunsFrom p by_ false s'
  end.

Definition replaceRuns (p : N -> bool) (by_ s : jsstring) : jsstring :=
  replaceRunsFrom p by_ false s.

Definition hyphen : N := 45.
Definition isHyphen (c : N) : bool := N.eqb c hyphen.
Definition isLowerAlpha (c : N) : bool := inRange 97 122 c.
Definition isDigit (c : N) : bool := inRange 48 57 c.

(** The class [[a-z0-9\s-]] that [slugify] keeps. *)
Definition slugKeep (c : N) : bool :=
  isLowerAlpha c || isDigit c || isSpace c || isHyphen c.

(** The class [[a-z0-9-]] of a finished slug. *)
Definition slugChar (c : N) : bool :=
  isLowerAlpha c || isDigit c || isHyphen c.

(** [String.prototype.toLowerCase] on Basic Latin: the reference lowering
    used to run [slugify] on ASCII inputs.  The general results below hold for
    any lowering function. *)
Definition asciiLowerUnit (c : N) : N :=
  if inRange 65 90 c then (c + 32)%N else c.
Definition asciiLower (s : jsstring) : jsstring := map asciiLowerUnit s.

Section Slug.

(** [String.prototype.toLowerCase] of the host: Unicode lowering, which the
    source calls and does not define. *)
Variable toLowerCase : jsstring -> jsstring.

(** [slugify] (App.tsx, l. 60-67) *)
Definition slugify (s : jsstring) : jsstring :=
  replaceRuns isHyphen (lit "-")
    (replaceRuns isSpace (lit "-")
      (trim (filter slugKeep (toLowerCase s)))).

End Slug.

(* ================================================================== *)
(** ** Regular expressions

    The patterns of the source that are tested (not replaced) are kept as
    syntax and run by derivatives. *)

Inductive regex : Type :=
| RNone
| REps
| RClass (p : N -> bool)
| RSeq (r1 r2 : regex)
| RAlt (r1 r2 : regex)
| RStar (r : regex).

(** [r+] *)
Definition RPlus (r : regex) : regex := RSeq r (RStar r).

Fixpoint nullable (r : regex) : bool :=
  match r with
  | RNone => false
  | REps => true
  | RClass _ => false
  | RSeq r1 r2 => nullable r1 && nullable r2
  | RAlt r1 r2 => nullable r1 || nullable r2
  | RStar _ => true
  end.

Fixpoint deriv (c : N) (r : regex) : regex :=
  match r with
  | RNone => RNone
  | REps => RNone
  | RClass p => if p c then REps else RNone
  | RSeq r1 r2 =>
      if nullable r1 then RAlt (RSeq (deriv c r1) r2) (deriv c r2)
      else RSeq (deriv c r1) r2
  | RAlt r1 r2 => RAlt (deriv c r1) (deriv c r2)
  | RStar r1 => RSeq (deriv c r1) (RStar r1)
  end.

(** The whole of [s] is a word of [r]. *)
Fixpoint accepts (r : regex) (s : jsstring) : bool :=
  match s with
  | [] => nullable r
  | c :: s' => accepts (deriv c r) s'
  end.

Definition anyUnit : regex := RClass (fun _ => true).

(** [/r/.test(s)] for a pattern with no anchor and no flag: some substring of
    [s] is a word of [r]. *)
Definition regexTest (r : regex) (s : jsstring) : bool :=
  accepts (RSeq (RStar anyUnit) (RSeq r (RStar anyUnit))) s.

(** The wildcard [.]: any code unit but a line terminator. *)
Definition notLineTerminator (c : N) : bool := negb (isLineTerminator c).
Definition RDot : regex := RClass notLineTerminator.
Definition RUnit (c : N) : regex := RClass (N.eqb c).

Definition atSign : N := 64.
Definition fullStop : N := 46.

(** [/.+@.+\..+/] *)
Definition emailPattern : regex :=
  RSeq (RPlus RDot)
    (RSeq (RUnit atSign)
      (RSeq (RPlus RDot)
        (RSeq (RUnit fullStop) (RPlus RDot)))).

(** The words of a pattern, declaratively. *)
Inductive matches : regex -> jsstring -> Prop :=
| MEps : matches REps []
| MClass p c : p c = true -> matches (RClass p) [c]
| MSeq r1 r2 s1 s2 :
    matches r1 s1 -> matches r2 s2 -> matches (RSeq r1 r2) (s1 ++ s2)
| MAltL r1 r2 s : matches r1 s -> matches (RAlt r1 r2) s
| MAltR r1 r2 s : matches r2 s -> matches (RAlt r1 r2) s
| MStarNil r : matches (RStar r) []
| MStarApp r s1 s2 :
    matches r s1 -> matches (RStar r) s2 -> matches (RStar r) (s1 ++ s2).


(* ================================================================== *)
(** ** Numbers

    An ECMAScript number is an IEEE 754 binary64 value.  The program does no
    arithmetic on numbers: it reads them from JSON text, tests their type and
    truthiness, and prints them ([String(x)], [JSON.stringify]). *)

Definition number := spec_float.

Definition prec64 : Z := 53.
Definition emax64 : Z := 1024.

(** The binary64 value nearest to [(-1)^neg * m * 10^e10] (ties to even), as
    [JSON.parse] reads a number literal.  For a negative exponent the quotient
    is taken with 64 bits to spare and a sticky bit for the remainder. *)
Definition numberOfDecimal (neg : bool) (m : N) (e10 : Z) : number :=
  match m with
  | N0 => S754_zero neg
  | Npos p =>
      let sgn (z : Z) := if neg then Z.opp z else z in
      if (0 <=? e10)%Z then
        binary_normalize prec64 emax64 (sgn (Zpos p * 10 ^ e10)%Z) 0 neg
      else
        let d := (10 ^ (- e10))%Z in
        let sh := (Z.log2 d + 65)%Z in
        let n := (Zpos p * 2 ^ sh)%Z in
        let q := (n / d)%Z in
        let sticky := if (n mod d =? 0)%Z then 0%Z else 1%Z in
        binary_normalize prec64 emax64 (sgn (2 * q + sticky)%Z) (- sh - 1) neg
  end.

(** The defaults of the source, [0.2] and [0.95]. *)
Definition num_0_2 : number := Eval vm_compute in numberOfDecimal false 2 (-1).
Definition num_0_95 : number :=
  Eval vm_compute in numberOfDecimal false 95 (-2).

Definition isFiniteNumber (x : number) : bool :=
  match x with
  | S754_zero _ | S754_finite _ _ _ => true
  | S754_infinity _ | S754_nan => false
  end.

(** [Boolean(x)] of a number: false for [0], [-0] and [NaN]. *)
Definition numberTruthy (x : number) : bool :=
  match x with
  | S754_zero _ | S754_nan => false
  | _ => true
  end.

Fixpoint uintUnits (d : Decimal.uint) : jsstring :=
  match d with
  | Decimal.Nil => []
  | Decimal.D0 d' => 48%N :: uintUnits d'
  | Decimal.D1 d' => 49%N :: uintUnits d'
  | Decimal.D2 d' => 50%N :: uintUnits d'
  | Decimal.D3 d' => 51%N :: uintUnits d'
  | Decimal.D4 d' => 52%N :: uintUnits d'
  | Decimal.D5 d' => 53%N :: uintUnits d'
  | Decimal.D6 d' => 54%N :: uintUnits d'
  | Decimal.D7 d' => 55%N :: uintUnits d'
  | Decimal.D8 d' => 56%N :: uintUnits d'
  | Decimal.D9 d' => 57%N :: uintUnits d'
  end.

(** The decimal digits of a natural number. *)
Definition decimalDigits (n : N) : jsstring := uintUnits (N.to_uint n).

Definition samePositive (x : number) (m : N) (e10 : Z) : bool :=
  match x, numberOfDecimal false m e10 with
  | S754_finite _ a ea, S754_finite _ b eb => Pos.eqb a b && Z.eqb ea eb
  | _, _ => false
  end.

(** The position [n] of the decimal point of [num/den > 0]:
    [10^(n-1) <= num/den < 10^n]. *)
Fixpoint pointDown (fuel : nat) (num den : Z) (n : Z) : Z :=
  match fuel with
  | O => n
  | S fuel' =>
      if (num * 10 ^ (1 - n) <? den)%Z then pointDown fuel' num den (n - 1)%Z
      else n
  end.

Definition pointOf (num den : Z) : Z :=
  if (den <=? num)%Z
  then Z.of_nat (length (decimalDigits (Z.to_N (num / den))))
  else pointDown 400 num den 0.

(** The digits [s] (as a number of [k] digits) and the point [n] that
    [Number::toString] prints for the positive value [m * 2^e]: the least [k]
    with a [k]-digit decimal that reads back as the same number, and of the
    two neighbours the nearer one. *)
Fixpoint shortestFrom (fuel : nat) (x : number) (num den : Z) (n : Z) (k : Z)
    : N * Z :=
  let scaleUp := (10 ^ Z.max 0 (k - n))%Z in
  let scaleDown := (10 ^ Z.max 0 (n - k))%Z in
  let a := (num * scaleUp)%Z in
  let b := (den * scaleDown)%Z in
  let lo := Z.to_N (a / b) in
  let r := (a mod b)%Z in
  let hi := (lo + 1)%N in
  let hiOverflows := N.eqb hi (10 ^ Z.to_N k) in
  let hiS := if hiOverflows then (10 ^ (Z.to_N k - 1))%N else hi in
  let hiN := if hiOverflows then (n + 1)%Z else n in
  let okLo := samePositive x lo (n - k) in
  let okHi := samePositive x hiS (hiN - k) in
  let preferLo :=
    (2 * r <? b)%Z || ((2 * r =? b)%Z && N.even lo) in
  match fuel with
  | O => (lo, n)
  | S fuel' =>
      if okLo && (preferLo || negb okHi) then (lo, n)
      else if okHi then (hiS, hiN)
      else shortestFrom fuel' x num den n (k + 1)%Z
  end.

Definition zeros (n : Z) : jsstring := repeat 48%N (Z.to_nat n).

(** [Number::toString(x)] in radix 10. *)
Definition numberToString (x : number) : jsstring :=
  match x with
  | S754_nan => lit "NaN"
  | S754_zero _ => lit "0"
  | S754_infinity false => lit "Infinity"
  | S754_infinity true => lit "-Infinity"
  | S754_finite sg m e =>
      let num := (Zpos m * 2 ^ Z.max 0 e)%Z in
      let den := (2 ^ Z.max 0 (- e))%Z in
      let '(s, n) := shortestFrom 17 (S754_finite false m e) num den
                       (pointOf num den) 1 in
      let ds := decimalDigits s in
      let k := Z.of_nat (length ds) in
      let body :=
        if (k <=? n)%Z && (n <=? 21)%Z then ds ++ zeros (n - k)
        else if (0 <? n)%Z && (n <=? 21)%Z then
          firstn (Z.to_nat n) ds ++ lit "." ++ skipn (Z.to_nat n) ds
        else if (-6 <? n)%Z && (n <=? 0)%Z then
          lit "0." ++ zeros (- n) ++ ds
        else
          let e10 := (n - 1)%Z in
          let expo :=
            (if (e10 <? 0)%Z then lit "-" else lit "+")
              ++ decimalDigits (Z.to_N (Z.abs e10)) in
          match ds with
          | [d] => d :: lit "e" ++ expo
          | d :: rest => d :: lit "." ++ rest ++ lit "e" ++ expo
          | [] => []
          end
      in
      (if sg then lit "-" else []) ++ body
  end.


(* ================================================================== *)
(** ** Values, exceptions and coercions *)

(** The values of parsed JSON, and [undefined]. *)
#[warnings="-register-all"]
Inductive value : Type :=
| VUndefined
| VNull
| VBool (b : bool)
| VNum (x : number)
| VStr (s : jsstring)
| VArr (items : list value)
| VObj (props : list (jsstring * value)).

Inductive exn : Type :=
| SyntaxError
| TypeError
| Error (message : jsstring).

(** A computation that returns a value or throws. *)
Inductive result (A : Type) : Type :=
| Ok (a : A)
| Throw (e : exn).
Arguments Ok {A} a.
Arguments Throw {A} e.

Definition bind {A B : Type} (m : result A) (k : A -> result B) : result B :=
  match m with
  | Ok a => k a
  | Throw e => Throw e
  end.

Notation "x <- m ;; k" := (bind m (fun x => k))
  (at level 61, m at next level, right associativity).

Fixpoint mapM {A B : Type} (f : A -> result B) (l : list A) : result (list B) :=
  match l with
  | [] => Ok []
  | x :: l' => y <- f x ;; ys <- mapM f l' ;; Ok (y :: ys)
  end.

(** [l.filter(Boolean)] on a list of objects-or-null. *)
Fixpoint catOptions {A : Type} (l : list (option A)) : list A :=
  match l with
  | [] => []
  | Some x :: l' => x :: catOptions l'
  | None :: l' => catOptions l'
  end.

Fixpoint lookup (k : jsstring) (props : list (jsstring * value))
    : option value :=
  match props with
  | [] => None
  | (k', v) :: rest => if str_eqb k k' then Some v else lookup k rest
  end.

Definition hasKey (k : jsstring) (props : list (jsstring * value)) : bool :=
  match lookup k props with Some _ => true | None => false end.

(** [v[k]] / [v.k] for the property names the source reads ([q], [tags],
    [bot], [lab], ...): an own property of an object, [undefined] on an array
    or a primitive (none of these names is an index, [length] or inherited).
    The source never reads a property of [null] or [undefined]. *)
Definition getProp (v : value) (k : jsstring) : value :=
  match v with
  | VObj props => match lookup k props with Some x => x | None => VUndefined end
  | _ => VUndefined
  end.

(** [k in v] for the same property names, on a value whose [typeof] is
    ["object"] and which is not [null]. *)
Definition hasProp (k : jsstring) (v : value) : bool :=
  match v with
  | VObj props => hasKey k props
  | _ => false
  end.

(** [Boolean(v)] *)
Definition truthy (v : value) : bool :=
  match v with
  | VUndefined | VNull => false
  | VBool b => b
  | VNum x => numberTruthy x
  | VStr s => nonEmpty s
  | VArr _ | VObj _ => true
  end.

(** [typeof v === "object"] *)
Definition typeofObject (v : value) : bool :=
  match v with
  | VNull | VArr _ | VObj _ => true
  | _ => false
  end.

(** [Array.isArray(v)] *)
Definition isArray (v : value) : bool :=
  match v with VArr _ => true | _ => false end.

Definition arrayItems (v : value) : list value :=
  match v with VArr items => items | _ => [] end.

Definition nullish (v : value) : bool :=
  match v with VUndefined | VNull => true | _ => false end.

(** [v ?? d] *)
Definition coalesce (v d : value) : value := if nullish v then d else v.

(** [v || d] *)
Definition orElse (v d : value) : value := if truthy v then v else d.

(** [String(v)].  An array is joined with commas, [null] and [undefined]
    elements printing as nothing.  A parsed object prints as
    ["[object Object]"] through the inherited [toString], unless it has an own
    property [toString]: that one is not callable and [valueOf] returns the
    object, so the conversion throws a [TypeError]. *)
Fixpoint toStringValue (v : value) : result jsstring :=
  match v with
  | VUndefined => Ok (lit "undefined")
  | VNull => Ok (lit "null")
  | VBool true => Ok (lit "true")
  | VBool false => Ok (lit "false")
  | VNum x => Ok (numberToString x)
  | VStr s => Ok s
  | VArr items =>
      (fix join (l : list value) : result jsstring :=
         match l with
         | [] => Ok []
         | x :: rest =>
             s <- (if nullish x then Ok [] else toStringValue x) ;;
             match rest with
             | [] => Ok s
             | _ => r <- join rest ;; Ok (s ++ lit "," ++ r)
             end
         end) items
  | VObj props =>
      if hasKey (lit "toString") props then Throw TypeError
      else Ok (lit "[object Object]")
  end.

(** [coerceStr] (App.tsx, l. 87-89) *)
Definition coerceStr (x : value) : result jsstring :=
  s <- match x with
       | VStr s => Ok s
       | _ => toStringValue (coalesce x (VStr []))
       end ;;
  Ok (trim s).

(** [s.split(",")] *)
Fixpoint splitOn (sep : N) (acc : jsstring) (s : jsstring) : list jsstring :=
  match s with
  | [] => [rev acc]
  | c :: s' =>
      if N.eqb c sep then rev acc :: splitOn sep [] s'
      else splitOn sep (c :: acc) s'
  end.

Definition comma : N := 44.

(** The [{ q, a, tags? }] records the extractors build, which are also the
    pairs of an [ExportPayload]. *)
Record QA : Type := mkQA {
  qa_q : jsstring;
  qa_a : jsstring;
  qa_tags : option (list jsstring)
}.

(** [if (!tags.length) tags = undefined] *)
Definition tagsOrAbsent (tags : list jsstring) : option (list jsstring) :=
  match tags with [] => None | _ => Some tags end.

Definition qKeys : list jsstring :=
  [lit "q"; lit "question"; lit "prompt"; lit "ask"; lit "query"; lit "Q"].
Definition aKeys : list jsstring :=
  [lit "a"; lit "answer"; lit "response"; lit "text"; lit "A"].

(** [extractQAFromObject] (App.tsx, l. 91-108) *)
Definition extractQAFromObject (obj : value) : result (option QA) :=
  if negb (truthy obj) || negb (typeofObject obj) then Ok None
  else
    match find (fun k => hasProp k obj) qKeys,
          find (fun k => hasProp k obj) aKeys with
    | Some qKey, Some aKey =>
        q <- coerceStr (getProp obj qKey) ;;
        a <- coerceStr (getProp obj aKey) ;;
        if isEmpty q || isEmpty a then Ok None
        else
          tags <- match getProp obj (lit "tags") with
                  | VArr ts =>
                      t <- mapM coerceStr ts ;;
                      Ok (tagsOrAbsent (filter nonEmpty t))
                  | _ => Ok None
                  end ;;
          Ok (Some (mkQA q a tags))
    | _, _ => Ok None
    end.

(** [extractQAFromArray] (App.tsx, l. 110-124) *)
Definition extractQAFromArray (arr : value) : result (option QA) :=
  match arr with
  | VArr (x0 :: x1 :: rest) =>
      q <- coerceStr x0 ;;
      a <- coerceStr x1 ;;
      if isEmpty q || isEmpty a then Ok None
      else
        tags <- match rest with
                | [] => Ok None
                | VArr ts :: _ =>
                    t <- mapM coerceStr ts ;;
                    Ok (tagsOrAbsent (filter nonEmpty t))
                | x2 :: _ =>
                    s <- coerceStr x2 ;;
                    Ok (tagsOrAbsent
                          (filter nonEmpty (map trim (splitOn comma [] s))))
                end ;;
        Ok (Some (mkQA q a tags))
  | _ => Ok None
  end.

(** [item => Array.isArray(item) ? extractQAFromArray(item)
                                 : extractQAFromObject(item)] *)
Definition extractItem (item : value) : result (option QA) :=
  if isArray item then extractQAFromArray item else extractQAFromObject item.

(** [items.map(extractItem).filter(Boolean)] *)
Definition extractAll (items : list value) : result (list QA) :=
  l <- mapM extractItem items ;; Ok (catOptions l).


(* ================================================================== *)
(** ** [JSON.parse] and [JSON.stringify]

    The host's JSON functions, written out so that the import can be run on
    text: the ECMA-404 grammar by recursive descent, and the serialisation of
    the values the export builds. *)

Definition isJsonWs (c : N) : bool :=
  N.eqb c 32 || N.eqb c 9 || N.eqb c 10 || N.eqb c 13.

Definition skipWs (s : jsstring) : jsstring := dropWhile isJsonWs s.

Fixpoint span (p : N -> bool) (s : jsstring) : jsstring * jsstring :=
  match s with
  | [] => ([], [])
  | c :: s' =>
      if p c then let '(a, b) := span p s' in (c :: a, b) else ([], s)
  end.

Definition digitsValue (ds : jsstring) : N :=
  fold_left (fun acc d => (10 * acc + (d - 48))%N) ds 0%N.

Definition hexVal (c : N) : option N :=
  if inRange 48 57 c then Some (c - 48)%N
  else if inRange 97 102 c then Some (c - 87)%N
  else if inRange 65 70 c then Some (c - 55)%N
  else None.

Definition hex4 (h1 h2 h3 h4 : N) : option N :=
  match hexVal h1, hexVal h2, hexVal h3, hexVal h4 with
  | Some a, Some b, Some c, Some d => Some (((a * 16 + b) * 16 + c) * 16 + d)%N
  | _, _, _, _ => None
  end.

(** The code unit of a one-letter escape: quote, backslash, solidus, [b],
    [f], [n], [r], [t]. *)
Definition simpleEscape (c : N) : option N :=
  if N.eqb c 34 then Some 34%N
  else if N.eqb c 92 then Some 92%N
  else if N.eqb c 47 then Some 47%N
  else if N.eqb c 98 then Some 8%N
  else if N.eqb c 102 then Some 12%N
  else if N.eqb c 110 then Some 10%N
  else if N.eqb c 114 then Some 13%N
  else if N.eqb c 116 then Some 9%N
  else None.

(** A string literal after its opening quote: the contents and what follows
    the closing quote. *)
Fixpoint parseStringBody (acc : jsstring) (s : jsstring)
    : option (jsstring * jsstring) :=
  match s with
  | [] => None
  | c :: s' =>
      if N.eqb c 34 then Some (rev acc, s')
      else if N.eqb c 92 then
        match s' with
        | e :: s'' =>
            if N.eqb e 117 then
              match s'' with
              | h1 :: h2 :: h3 :: h4 :: s3 =>
                  match hex4 h1 h2 h3 h4 with
                  | Some u => parseStringBody (u :: acc) s3
                  | None => None
                  end
              | _ => None
              end
            else
              match simpleEscape e with
              | Some u => parseStringBody (u :: acc) s''
              | None => None
              end
        | [] => None
        end
      else if N.ltb c 32 then None
      else parseStringBody (c :: acc) s'
  end.

(** The parts of a number literal: an optional minus sign, the integer part
    ([0], or digits that do not start with [0]), an optional fraction (a full
    stop and digits), an optional exponent ([e] or [E], a sign, digits). *)
Definition takeMinus (s : jsstring) : bool * jsstring :=
  match s with
  | c :: s' => if N.eqb c 45 then (true, s') else (false, s)
  | [] => (false, s)
  end.

Definition parseIntPart (s : jsstring) : option (jsstring * jsstring) :=
  let '(ip, rest) := span isDigit s in
  match ip with
  | [] => None
  | [_] => Some (ip, rest)
  | d :: _ => if N.eqb d 48 then None else Some (ip, rest)
  end.

Definition parseFraction (s : jsstring) : option (jsstring * jsstring) :=
  match s with
  | c :: s' =>
      if N.eqb c fullStop then
        let '(fp, rest) := span isDigit s' in
        if isEmpty fp then None else Some (fp, rest)
      else Some ([], s)
  | [] => Some ([], s)
  end.

Definition parseExponent (s : jsstring) : option (Z * jsstring) :=
  match s with
  | c :: s' =>
      if N.eqb c 101 || N.eqb c 69 then
        let '(eneg, s1) :=
          match s' with
          | g :: s'' =>
              if N.eqb g 45 then (true, s'')
              else if N.eqb g 43 then (false, s'')
              else (false, s')
          | [] => (false, s')
          end in
        let '(ep, rest) := span isDigit s1 in
        if isEmpty ep then None
        else
          let e := Z.of_N (digitsValue ep) in
          Some ((if eneg then - e else e)%Z, rest)
      else Some (0%Z, s)
  | [] => Some (0%Z, s)
  end.

Definition parseNumber (s : jsstring) : option (number * jsstring) :=
  let '(neg, s1) := takeMinus s in
  match parseIntPart s1 with
  | None => None
  | Some (ip, s2) =>
      match parseFraction s2 with
      | None => None
      | Some (fp, s3) =>
          match parseExponent s3 with
          | None => None
          | Some (e, rest) =>
              Some (numberOfDecimal neg (digitsValue (ip ++ fp))
                      (e - Z.of_nat (length fp)), rest)
          end
      end
  end.

Fixpoint stripPrefix (pre s : jsstring) : option jsstring :=
  match pre, s with
  | [], _ => Some s
  | c :: pre', d :: s' => if N.eqb c d then stripPrefix pre' s' else None
  | _ :: _, [] => None
  end.

(** [CreateDataProperty]: a repeated key keeps its place and takes the later
    value. *)
Fixpoint setProp (k : jsstring) (v : value) (props : list (jsstring * value))
    : list (jsstring * value) :=
  match props with
  | [] => [(k, v)]
  | (k', v') :: rest =>
      if str_eqb k k' then (k, v) :: rest else (k', v') :: setProp k v rest
  end.

(** The elements of an array after its first bracket, [pv] parsing one
    value: values separated by commas, up to the closing bracket. *)
Fixpoint parseElements (pv : jsstring -> option (value * jsstring)) (n : nat)
    (acc : list value) (t : jsstring) : option (value * jsstring) :=
  match n with
  | O => None
  | S n' =>
      match pv t with
      | Some (v, t1) =>
          match skipWs t1 with
          | e :: t2 =>
              if N.eqb e comma then parseElements pv n' (v :: acc) t2
              else if N.eqb e 93 then Some (VArr (rev (v :: acc)), t2)
              else None
          | [] => None
          end
      | None => None
      end
  end.

(** A member of an object: a string, a colon and a value. *)
Definition parseMember (pv : jsstring -> option (value * jsstring))
    (t : jsstring) : option (jsstring * value * jsstring) :=
  match skipWs t with
  | q :: t0 =>
      if N.eqb q 34 then
        match parseStringBody [] t0 with
        | Some (k, t1) =>
            match skipWs t1 with
            | col :: t2 =>
                if N.eqb col 58 then
                  match pv t2 with
                  | Some (v, t3) => Some (k, v, t3)
                  | None => None
                  end
                else None
            | [] => None
            end
        | None => None
        end
      else None
  | [] => None
  end.

(** The members of an object after its first brace, up to the closing
    brace. *)
Fixpoint parseMembers (pv : jsstring -> option (value * jsstring)) (n : nat)
    (acc : list (jsstring * value)) (t : jsstring)
    : option (value * jsstring) :=
  match n with
  | O => None
  | S n' =>
      match parseMember pv t with
      | Some (k, v, t1) =>
          match skipWs t1 with
          | e :: t2 =>
              if N.eqb e comma then parseMembers pv n' (setProp k v acc) t2
              else if N.eqb e 125 then Some (VObj (setProp k v acc), t2)
              else None
          | [] => None
          end
      | None => None
      end
  end.

Definition parseKeyword (rest : string) (v : value) (r : jsstring)
    : option (value * jsstring) :=
  match stripPrefix (lit rest) r with
  | Some r' => Some (v, r')
  | None => None
  end.

(** One JSON value at the head of [s], after optional white space; every level
    of nesting and every element uses one unit of [fuel]. *)
Fixpoint parseValue (fuel : nat) (s : jsstring) : option (value * jsstring) :=
  match fuel with
  | O => None
  | S fuel' =>
      match skipWs s with
      | [] => None
      | c :: r =>
          if N.eqb c 34 then
            match parseStringBody [] r with
            | Some (str, r') => Some (VStr str, r')
            | None => None
            end
          else if N.eqb c 91 then
            match skipWs r with
            | d :: r' =>
                if N.eqb d 93 then Some (VArr [], r')
                else parseElements (parseValue fuel') fuel' [] r
            | [] => None
            end
          else if N.eqb c 123 then
            match skipWs r with
            | d :: r' =>
                if N.eqb d 125 then Some (VObj [], r')
                else parseMembers (parseValue fuel') fuel' [] r
            | [] => None
            end
          else if N.eqb c 116 then parseKeyword "rue" (VBool true) r
          else if N.eqb c 102 then parseKeyword "alse" (VBool false) r
          else if N.eqb c 110 then parseKeyword "ull" VNull r
          else
            match parseNumber (c :: r) with
            | Some (x, r') => Some (VNum x, r')
            | None => None
            end
      end
  end.

(** [JSON.parse(text)]: one value, white space around it, nothing else; a
    [SyntaxError] otherwise.  The fuel is the length of the text, which bounds
    the nesting and the number of elements. *)
Definition JSON_parse (text : jsstring) : result value :=
  match parseValue (S (length text)) text with
  | Some (v, rest) =>
      if isEmpty (skipWs rest) then Ok v else Throw SyntaxError
  | None => Throw SyntaxError
  end.



Definition hexDigit (n : N) : N :=
  if N.ltb n 10 then (48 + n)%N else (87 + n)%N.

(** [\uXXXX], in lower-case hexadecimal. *)
Definition unicodeEscape (c : N) : jsstring :=
  [92; 117; hexDigit (c / 4096 mod 16); hexDigit (c / 256 mod 16);
   hexDigit (c / 16 mod 16); hexDigit (c mod 16)]%N.

Definition isHighSurrogate (c : N) : bool := inRange 55296 56319 c.
Definition isLowSurrogate (c : N) : bool := inRange 56320 57343 c.

(** [QuoteJSONString] without the quotes: the short escapes, [\u00XX] for
    the other control characters, and [\uDXXX] for a surrogate that is not
    half of a pair. *)
Fixpoint escapeUnits (s : jsstring) : jsstring :=
  match s with
  | [] => []
  | c :: s' =>
      if N.eqb c 8 then lit "\b" ++ escapeUnits s'
      else if N.eqb c 9 then lit "\t" ++ escapeUnits s'
      else if N.eqb c 10 then lit "\n" ++ escapeUnits s'
      else if N.eqb c 12 then lit "\f" ++ escapeUnits s'
      else if N.eqb c 13 then lit "\r" ++ escapeUnits s'
      else if N.eqb c 34 then [92; 34]%N ++ escapeUnits s'
      else if N.eqb c 92 then [92; 92]%N ++ escapeUnits s'
      else if N.ltb c 32 then unicodeEscape c ++ escapeUnits s'
      else if isHighSurrogate c then
        match s' with
        | d :: s'' =>
            if isLowSurrogate d then c :: d :: escapeUnits s''
            else unicodeEscape c ++ escapeUnits s'
        | [] => unicodeEscape c
        end
      else if isLowSurrogate c then unicodeEscape c ++ escapeUnits s'
      else c :: escapeUnits s'
  end.

Definition quoteJSON (s : jsstring) : jsstring :=
  [34%N] ++ escapeUnits s ++ [34%N].

Fixpoint joinWith (sep : jsstring) (l : list jsstring) : jsstring :=
  match l with
  | [] => []
  | [x] => x
  | x :: l' => x ++ sep ++ joinWith sep l'
  end.

(** [JSON.stringify(v)] without indentation: [None] is [undefined].  A
    property whose value is [undefined] is left out, an [undefined] element
    prints as [null], and so does a number that is not finite. *)
Fixpoint JSON_stringify (v : value) : option jsstring :=
  match v with
  | VUndefined => None
  | VNull => Some (lit "null")
  | VBool true => Some (lit "true")
  | VBool false => Some (lit "false")
  | VNum x => Some (if isFiniteNumber x then numberToString x else lit "null")
  | VStr s => Some (quoteJSON s)
  | VArr items =>
      Some (lit "[" ++
            joinWith (lit ",")
              ((fix each (l : list value) : list jsstring :=
                  match l with
                  | [] => []
                  | x :: l' =>
                      match JSON_stringify x with
                      | Some t => t
                      | None => lit "null"
                      end :: each l'
                  end) items)
            ++ lit "]")
  | VObj props =>
      Some (lit "{" ++
            joinWith (lit ",")
              ((fix each (l : list (jsstring * value)) : list jsstring :=
                  match l with
                  | [] => []
                  | (k, x) :: l' =>
                      match JSON_stringify x with
                      | Some t => (quoteJSON k ++ lit ":" ++ t) :: each l'
                      | None => each l'
                      end
                  end) props)
            ++ lit "}")
  end.

(** What a value looks like after [JSON.stringify] and [JSON.parse]: no
    [undefined] property, [null] for an [undefined] element and for a number
    that is not finite, and [0] for [-0]. *)
Fixpoint jsonView (v : value) : value :=
  match v with
  | VUndefined => VNull
  | VNum x =>
      match x with
      | S754_zero _ => VNum (S754_zero false)
      | S754_finite _ _ _ => VNum x
      | _ => VNull
      end
  | VArr items => VArr (map jsonView items)
  | VObj props =>
      VObj ((fix each (l : list (jsstring * value)) : list (jsstring * value) :=
               match l with
               | [] => []
               | (k, VUndefined) :: l' => each l'
               | (k, x) :: l' => (k, jsonView x) :: each l'
               end) props)
  | _ => v
  end.

(* ================================================================== *)
(** ** The application's records *)

(** [QAPair] *)
Record QAPair : Type := mkQAPair {
  pair_id : jsstring;
  pair_q : jsstring;
  pair_a : jsstring;
  pair_tags : option (list jsstring)
}.

(** [BotMeta] *)
Record BotMeta : Type := mkBotMeta {
  lab : jsstring;
  botName : jsstring;
  ownerEmail : jsstring;
  description : option jsstring;
  baseModel : jsstring;
  embedModel : jsstring;
  temperature : number;
  topP : number
}.

(** The [bot] object of an [ExportPayload]. *)
Record ExportBot : Type := mkExportBot {
  bot_name : jsstring;
  bot_lab : jsstring;
  bot_owner_email : jsstring;
  bot_description : option jsstring;
  bot_slug : jsstring;
  bot_model : jsstring;
  bot_embed_model : jsstring;
  bot_temperature : number;
  bot_top_p : number
}.

(** [ExportPayload] *)
Record ExportPayload : Type := mkExportPayload {
  payload_bot : ExportBot;
  payload_pairs : list QA;
  payload_created_at : jsstring;
  payload_version : jsstring
}.

Definition defaultBaseModel : jsstring := lit "qwen2.5:7b-instruct".
Definition defaultEmbedModel : jsstring := lit "nomic-embed-text".

(** [validateMeta] (App.tsx, l. 74-80) *)
Definition validateMeta (meta : BotMeta) : bool :=
  (0 <? length (trim (lab meta)))
  && (0 <? length (trim (botName meta)))
  && regexTest emailPattern (ownerEmail meta).

(** [s || d] on strings *)
Definition strOr (s d : jsstring) : jsstring := if nonEmpty s then s else d.

(** [tags && tags.length ? tags : undefined] *)
Definition keepTags (tags : option (list jsstring)) : option (list jsstring) :=
  match tags with
  | Some (t :: ts) => Some (t :: ts)
  | _ => None
  end.

(** [({ q, a, tags }) => ({ q: (q || "").trim(), a: (a || "").trim(),
      tags: tags && tags.length ? tags : undefined })] *)
Definition exportPair (p : QAPair) : QA :=
  mkQA (trim (strOr (pair_q p) [])) (trim (strOr (pair_a p) []))
       (keepTags (pair_tags p)).

(** [p => (p.q || "").trim() && (p.a || "").trim()], as a condition *)
Definition pairComplete (p : QAPair) : bool :=
  nonEmpty (trim (strOr (pair_q p) []))
  && nonEmpty (trim (strOr (pair_a p) [])).

(** [isValid] (App.tsx, l. 414-418) *)
Definition isValid (meta : BotMeta) (pairs : list QAPair) : bool :=
  let hasMeta := validateMeta meta in
  let hasPairs := existsb pairComplete pairs in
  hasMeta && hasPairs.

Section Payload.

Variable toLowerCase : jsstring -> jsstring.

(** [slug] (App.tsx, l. 383-387) *)
Definition slug (meta : BotMeta) : jsstring :=
  let labSlug := slugify toLowerCase (strOr (lab meta) (lit "lab")) in
  let botSlug := slugify toLowerCase (strOr (botName meta) (lit "bot")) in
  labSlug ++ lit "-" ++ botSlug.

(** [exportPayload] (App.tsx, l. 389-412); [now] is
    [new Date().toISOString()].  The fields of a [BotMeta] have their
    declared types, so the optional chaining and the [typeof] tests of the
    source take their first branch. *)
Definition exportPayload (now : jsstring) (meta : BotMeta)
    (pairs : list QAPair) : ExportPayload :=
  let safePairs := pairs in
  mkExportPayload
    (mkExportBot
       (strOr (trim (botName meta)) (lit "Untitled Bot"))
       (strOr (trim (lab meta)) [])
       (strOr (trim (ownerEmail meta)) [])
       (match description meta with
        | Some d => if nonEmpty (trim d) then Some (trim d) else None
        | None => None
        end)
       (slug meta)
       (strOr (baseModel meta) defaultBaseModel)
       (strOr (embedModel meta) defaultEmbedModel)
       (temperature meta)
       (topP meta))
    (map exportPair safePairs)
    now
    (lit "2025-09-16").

End Payload.

Definition optionValue {A : Type} (f : A -> value) (o : option A) : value :=
  match o with Some x => f x | None => VUndefined end.

Definition tagsValue (tags : list jsstring) : value := VArr (map VStr tags).

(** The payload as the object literal of the source builds it, key by key. *)
Definition pairValue (p : QA) : value :=
  VObj [(lit "q", VStr (qa_q p));
        (lit "a", VStr (qa_a p));
        (lit "tags", optionValue tagsValue (qa_tags p))].

Definition botValue (b : ExportBot) : value :=
  VObj [(lit "name", VStr (bot_name b));
        (lit "lab", VStr (bot_lab b));
        (lit "owner_email", VStr (bot_owner_email b));
        (lit "description", optionValue VStr (bot_description b));
        (lit "slug", VStr (bot_slug b));
        (lit "model", VStr (bot_model b));
        (lit "embed_model", VStr (bot_embed_model b));
        (lit "temperature", VNum (bot_temperature b));
        (lit "top_p", VNum (bot_top_p b))].

Definition payloadValue (p : ExportPayload) : value :=
  VObj [(lit "bot", botValue (payload_bot p));
        (lit "pairs", VArr (map pairValue (payload_pairs p)));
        (lit "created_at", VStr (payload_created_at p));
        (lit "version", VStr (payload_version p))].

(* ================================================================== *)
(** ** The import normaliser *)

(** What [parseAnyQAPairs] returns: [{ metaPatch?, pairs }].  The patch of the
    source sets every field of [BotMeta]. *)
Record Imported : Type := mkImported {
  metaPatch : option BotMeta;
  pairs : list QA
}.

Definition msgNoPairsInExport : jsstring :=
  lit "No valid Q/A items found in ExportPayload.pairs".
Definition msgNoRowsInArray : jsstring := lit "No valid Q/A rows in array".
Definition msgNoPairsUnder (wrapKey : jsstring) : jsstring :=
  lit "No valid Q/A under '" ++ wrapKey ++ lit "'".
Definition msgUnsupported : jsstring :=
  lit "Unsupported JSON format: could not find Q/A pairs".

Definition wrapKeys : list jsstring :=
  [lit "pairs"; lit "data"; lit "faqs"; lit "items"; lit "records"].

(** [typeof v === "number" ? v : d] *)
Definition numberOr (v : value) (d : number) : number :=
  match v with VNum x => x | _ => d end.

(** The condition of the full-export branch (l. 143). *)
Definition isExportShape (data : value) : bool :=
  truthy data && typeofObject data
  && hasProp (lit "bot") data && hasProp (lit "pairs") data
  && isArray (getProp data (lit "pairs")).

(** The [metaPatch] object literal (l. 145-154), its fields evaluated in
    order. *)
Definition metaPatchOf (bot : value) : result BotMeta :=
  c_lab <- coerceStr (orElse (getProp bot (lit "lab")) (VStr [])) ;;
  c_name <- coerceStr (orElse (getProp bot (lit "name")) (VStr [])) ;;
  c_email <- coerceStr (orElse (getProp bot (lit "owner_email")) (VStr [])) ;;
  c_desc <- coerceStr (orElse (getProp bot (lit "description")) (VStr [])) ;;
  c_model <- coerceStr (orElse (getProp bot (lit "model"))
                          (VStr defaultBaseModel)) ;;
  c_embed <- coerceStr (orElse (getProp bot (lit "embed_model"))
                          (VStr defaultEmbedModel)) ;;
  Ok (mkBotMeta c_lab c_name c_email (Some c_desc) c_model c_embed
        (numberOr (getProp bot (lit "temperature")) num_0_2)
        (numberOr (getProp bot (lit "top_p")) num_0_95)).

(** The body of the [try] block (l. 140-184) once the text is parsed:
    [Ok (Some r)] when it returns [r], [Ok None] when it reaches its end, a
    throw when it throws. *)
Definition tryShapes (data : value) : result (option Imported) :=
  if isExportShape data then
    let bot := coalesce (getProp data (lit "bot")) (VObj []) in
    patch <- metaPatchOf bot ;;
    found <- extractAll (arrayItems (getProp data (lit "pairs"))) ;;
    match found with
    | [] => Throw (Error msgNoPairsInExport)
    | _ => Ok (Some (mkImported (Some patch) found))
    end
  else if isArray data then
    found <- extractAll (arrayItems data) ;;
    match found with
    | [] => Throw (Error msgNoRowsInArray)
    | _ => Ok (Some (mkImported None found))
    end
  else if truthy data && typeofObject data then
    match find (fun k => isArray (getProp data k)) wrapKeys with
    | Some wrapKey =>
        found <- extractAll (arrayItems (getProp data wrapKey)) ;;
        match found with
        | [] => Throw (Error (msgNoPairsUnder wrapKey))
        | _ => Ok (Some (mkImported None found))
        end
    | None => Ok None
    end
  else Ok None.

(** The [try] block: [JSON.parse] and the three shapes. *)
Definition tryWholeText (jsonText : jsstring) : result (option Imported) :=
  data <- JSON_parse jsonText ;; tryShapes data.

(** [s.split(/\r?\n/)] *)
Fixpoint splitLinesFrom (acc : jsstring) (s : jsstring) : list jsstring :=
  match s with
  | [] => [rev acc]
  | c :: s' =>
      if N.eqb c 10 then rev acc :: splitLinesFrom [] s'
      else
        match s' with
        | d :: s'' =>
            if N.eqb c 13 && N.eqb d 10 then rev acc :: splitLinesFrom [] s''
            else splitLinesFrom (c :: acc) s'
        | [] => splitLinesFrom (c :: acc) s'
        end
  end.

Definition splitLines (s : jsstring) : list jsstring := splitLinesFrom [] s.

(** [jsonText.split(/\r?\n/).map(l => l.trim()).filter(Boolean)] *)
Definition jsonlLines (jsonText : jsstring) : list jsstring :=
  filter nonEmpty (map trim (splitLines jsonText)).

(** One turn of the loop over the lines (l. 193-203): the pair of the line is
    pushed, and a line that throws is ignored. *)
Definition jsonlStep (fromJsonl : list QA) (line : jsstring) : list QA :=
  match (obj <- JSON_parse line ;; extractItem obj) with
  | Ok (Some qa) => fromJsonl ++ [qa]
  | Ok None => fromJsonl
  | Throw _ => fromJsonl
  end.

(** [parseAnyQAPairs] (App.tsx, l. 134-209).  Whatever the [try] block
    throws, its own errors included, is caught by the bare [catch]. *)
Definition parseAnyQAPairs (jsonText : jsstring) : result Imported :=
  match tryWholeText jsonText with
  | Ok (Some r) => Ok r
  | Ok None | Throw _ =>
      let lines := jsonlLines jsonText in
      if 1 <? length lines then
        let fromJsonl := fold_left jsonlStep lines [] in
        match fromJsonl with
        | [] => Throw (Error msgUnsupported)
        | _ => Ok (mkImported None fromJsonl)
        end
      else Throw (Error msgUnsupported)
  end.


(* ================================================================== *)
(** ** Editing the working set

    The state setters of [App], as functions from the previous pair list to
    the next. *)

(** [Partial<QAPair>] *)
Record QAPairPatch : Type := mkQAPairPatch {
  patch_id : option jsstring;
  patch_q : option jsstring;
  patch_a : option jsstring;
  patch_tags : option (option (list jsstring))
}.

Definition orKeep {A : Type} (o : option A) (old : A) : A :=
  match o with Some x => x | None => old end.

(** [{ ...p, ...patch }] *)
Definition applyPatch (p : QAPair) (patch : QAPairPatch) : QAPair :=
  mkQAPair (orKeep (patch_id patch) (pair_id p))
           (orKeep (patch_q patch) (pair_q p))
           (orKeep (patch_a patch) (pair_a p))
           (orKeep (patch_tags patch) (pair_tags p)).

(** [updatePair] (l. 421-423) *)
Definition updatePair (id : jsstring) (patch : QAPairPatch)
    (prev : list QAPair) : list QAPair :=
  map (fun p => if str_eqb (pair_id p) id then applyPatch p patch else p) prev.

(** [addPair] (l. 424-426); [newId] is the [uid()] drawn. *)
Definition addPair (newId : jsstring) (prev : list QAPair) : list QAPair :=
  prev ++ [mkQAPair newId [] [] (Some [])].

(** [removePair] (l. 427-429) *)
Definition removePair (id : jsstring) (prev : list QAPair) : list QAPair :=
  if length prev <=? 1 then prev
  else filter (fun p => negb (str_eqb (pair_id p) id)) prev.

(** [prev.findIndex(p => p.id === id)], [None] for [-1] *)
Fixpoint findIndex (id : jsstring) (l : list QAPair) : option nat :=
  match l with
  | [] => None
  | p :: l' =>
      if str_eqb (pair_id p) id then Some 0
      else match findIndex id l' with Some i => Some (S i) | None => None end
  end.

(** [clone.splice(idx, 1)]: the list without its element at [idx]. *)
Definition removeAt {A : Type} (idx : nat) (l : list A) : list A :=
  firstn idx l ++ skipn (S idx) l.

(** [clone.splice(target, 0, item)] *)
Definition insertAt {A : Type} (target : nat) (item : A) (l : list A)
    : list A :=
  firstn target l ++ item :: skipn target l.

(** [movePair] (l. 430-441); [dir] is [-1] or [1]. *)
Definition movePair (id : jsstring) (dir : Z) (prev : list QAPair)
    : list QAPair :=
  match findIndex id prev with
  | None => prev
  | Some idx =>
      let target := (Z.of_nat idx + dir)%Z in
      if (target <? 0)%Z || (Z.of_nat (length prev) <=? target)%Z then prev
      else
        match nth_error prev idx with
        | Some item => insertAt (Z.to_nat target) item (removeAt idx prev)
        | None => prev
        end
  end.

(* ================================================================== *)
(** ** Properties stated by the claims, as predicates *)

Definition startsWith (c : N) (s : jsstring) : bool :=
  match s with
  | d :: _ => N.eqb d c
  | [] => false
  end.

Definition endsWith (c : N) (s : jsstring) : bool := startsWith c (rev s).

Fixpoint noDoubleHyphen (s : jsstring) : bool :=
  match s with
  | c :: s' =>
      negb (isHyphen c && startsWith hyphen s') && noDoubleHyphen s'
  | [] => true
  end.

(** A slug as the specification describes it. *)
Definition slugWellFormed (s : jsstring) : Prop :=
  Forall (fun c => slugChar c = true) s
  /\ startsWith hyphen s = false
  /\ endsWith hyphen s = false
  /\ noDoubleHyphen s = true.

(** What [slugify] holds before its two replacements: the lowered text
    without the characters outside [[a-z0-9\s-]], trimmed. *)
Definition slugCore (toLowerCase : jsstring -> jsstring) (s : jsstring)
    : jsstring :=
  trim (filter slugKeep (toLowerCase s)).


(** A text that holds, somewhere, [x @ y . z] with [x], [y] and [z] not empty
    and made of code units of the class [ok]. *)
Definition emailShape (ok : N -> bool) (s : jsstring) : Prop :=
  exists pre x y z post,
    s = pre ++ x ++ [atSign] ++ y ++ [fullStop] ++ z ++ post
    /\ x <> [] /\ y <> [] /\ z <> []
    /\ forallb ok x = true /\ forallb ok y = true /\ forallb ok z = true.

(** The pattern [C+@C+\.C+] for a class [C]; [emailPattern] is the one for
    the wildcard. *)
Definition emailRegex (ok : N -> bool) : regex :=
  RSeq (RPlus (RClass ok))
    (RSeq (RUnit atSign)
      (RSeq (RPlus (RClass ok))
        (RSeq (RUnit fullStop) (RPlus (RClass ok))))).

(** The class [\S]. *)
Definition notSpace (c : N) : bool := negb (isSpace c).

(** The good metadata of the self-tests (l. 306), and the same with an owner
    e-mail made of spaces around the two separators. *)
Definition metaGood : BotMeta :=
  mkBotMeta (lit "IALS") (lit "Privacy-LLM") (lit "prof@umass.edu") (Some [])
    defaultBaseModel defaultEmbedModel num_0_2 num_0_95.

Definition metaBlankEmail : BotMeta :=
  mkBotMeta (lit "IALS") (lit "Privacy-LLM") (lit " @ . ") (Some [])
    defaultBaseModel defaultEmbedModel num_0_2 num_0_95.

(** A pair whose question and answer are both something after trimming. *)
Definition completePair (p : QAPair) : Prop :=
  trim (pair_q p) <> [] /\ trim (pair_a p) <> [].

(** The identifiers of a working set are unique (section 3 of the
    specification: [id] is a unique identifier). *)
Definition uniqueIds (l : list QAPair) : Prop := NoDup (map pair_id l).

(** Sample data: blank metadata, and a working set of two pairs. *)
Definition metaBlank : BotMeta :=
  mkBotMeta (lit "  ") (lit " ") [] (Some (lit " ")) defaultBaseModel
    defaultEmbedModel num_0_2 num_0_95.

Definition pairRag : QAPair :=
  mkQAPair (lit "1") (lit "What is RAG?")
    (lit "Retrieval-Augmented Generation.") (Some []).
Definition pairBlank : QAPair :=
  mkQAPair (lit "2") (lit " ") (lit " ") (Some []).
Definition somePairs : list QAPair := [pairRag; pairBlank].

(** [k] is the first key of the priority list [keys] that the object has. *)
Definition firstPresent (keys : list jsstring)
    (props : list (jsstring * value)) (k : jsstring) : Prop :=
  exists before after,
    keys = before ++ k :: after
    /\ hasKey k props = true
    /\ forall k', In k' before -> hasKey k' props = false.

(** No key of the list is in the object. *)
Definition nonePresent (keys : list jsstring)
    (props : list (jsstring * value)) : Prop :=
  forall k, In k keys -> hasKey k props = false.

(** The elements coerce, one by one, to the strings [strs]. *)
Definition coerceEach (vs : list value) (strs : list jsstring) : Prop :=
  Forall2 (fun v s => coerceStr v = Ok s) vs strs.

(** Sample records of the specification's section 8. *)
Definition recordQ1 : value :=
  VObj [(lit "question", VStr (lit "Q1")); (lit "answer", VStr (lit "A1"));
        (lit "tags", VArr [])].
Definition recordPadded : value :=
  VObj [(lit "q", VStr (lit " x ")); (lit "a", VStr (lit " y "))].


(** The line-delimited strategy in the specification's words: each line is
    parsed on its own and given to the pair extractor, and a line that does
    not parse or gives no pair is dropped. *)
Definition linePair (line : jsstring) : option QA :=
  match JSON_parse line with
  | Ok obj =>
      match extractItem obj with
      | Ok (Some qa) => Some qa
      | _ => None
      end
  | Throw _ => None
  end.

(** It succeeds when there is more than one line and at least one pair. *)
Definition jsonlStrategy (text : jsstring) : result Imported :=
  let lines := jsonlLines text in
  let found := catOptions (map linePair lines) in
  if (1 <? length lines) && (0 <? length found)
  then Ok (mkImported None found)
  else Throw (Error msgUnsupported).

Definition newline : jsstring := [10%N].


(** Texts in the full-export shape with no valid pair: an empty [pairs], and
    a record without question that is laid out over three lines. *)
Definition exportNoPairs : jsstring := litq "{'bot':{},'pairs':[]}".

Definition exportNestedPair : jsstring :=
  litq "{'bot':{},'pairs':[{'x':" ++ newline
  ++ litq "{'q':'a','a':'b'}" ++ newline
  ++ litq "}]}".




(** A number after [JSON.stringify], [JSON.parse] and the [typeof] test of the
    patch: itself when finite ([-0] reads back as [0]), the default when not. *)
Definition numberRoundTrip (x dflt : number) : number :=
  match x with
  | S754_zero _ => S754_zero false
  | S754_finite _ _ _ => x
  | _ => dflt
  end.

(** The patch that importing an export of [meta] gives. *)
Definition recoveredMeta (meta : BotMeta) : BotMeta :=
  mkBotMeta
    (trim (lab meta))
    (trim (botName meta))
    (trim (ownerEmail meta))
    (Some match description meta with Some d => trim d | None => [] end)
    (if isEmpty (baseModel meta) then defaultBaseModel
     else trim (baseModel meta))
    (if isEmpty (embedModel meta) then defaultEmbedModel
     else trim (embedModel meta))
    (numberRoundTrip (temperature meta) num_0_2)
    (numberRoundTrip (topP meta) num_0_95).

(** The pair that importing an export of [p] gives: none when the question
    or the answer is blank. *)
Definition recoveredPair (p : QAPair) : option QA :=
  if isEmpty (trim (pair_q p)) || isEmpty (trim (pair_a p)) then None
  else
    Some (mkQA (trim (pair_q p)) (trim (pair_a p))
            match pair_tags p with
            | Some ts =>
                match filter nonEmpty (map trim ts) with
                | [] => None
                | kept => Some kept
                end
            | None => None
            end).

(** [text] is a JSON serialisation of [v]: [JSON.parse] reads it back as [v]
    without its [undefined] properties. *)
Definition serialises (text : jsstring) (v : value) : Prop :=
  JSON_parse text = Ok (jsonView v).

(** A pair as the editor and the import leave it: question and answer trimmed
    and not empty, tags trimmed and not empty. *)
Definition cleanPair (p : QAPair) : Prop :=
  pair_q p <> [] /\ trim (pair_q p) = pair_q p
  /\ pair_a p <> [] /\ trim (pair_a p) = pair_a p
  /\ forall ts, pair_tags p = Some ts ->
       Forall (fun t => t <> [] /\ trim t = t) ts.

(** The pair without its identifier, an empty tag list counting as none. *)
Definition pairContent (p : QAPair) : QA :=
  mkQA (pair_q p) (pair_a p) (keepTags (pair_tags p)).

(** Valid metadata with an empty base model, and a working set to export. *)
Definition metaNoModel : BotMeta :=
  mkBotMeta (lit " IALS ") (lit "Privacy-LLM") (lit "prof@umass.edu") None
    [] (lit " nomic-embed-text") num_0_2 (S754_infinity false).

Definition pairTagged : QAPair :=
  mkQAPair (lit "3") (lit " Who? ") (lit "Me")
    (Some [lit "policy"; lit " "; lit " edu "]).

Definition workingSet : list QAPair := [pairRag; pairBlank; pairTagged].


Definition sampleNow : jsstring := lit "2025-09-16T00:00:00.000Z".

(** The text that [JSON.stringify] gives for the export of the sample
    working set. *)
Definition exportedJson : jsstring :=
  match
    JSON_stringify
      (payloadValue (exportPayload asciiLower sampleNow metaNoModel workingSet))
  with
  | Some text => text
  | None => []
  end.

(** Valid, trimmed metadata whose base model is the empty string, and the
    text of its export with one clean pair. *)
Definition metaEmptyModel : BotMeta :=
  mkBotMeta (lit "IALS") (lit "Privacy-LLM") (lit "prof@umass.edu") (Some [])
    [] (lit "nomic-embed-text") num_0_2 num_0_95.

Definition exportedEmptyModel : jsstring :=
  match
    JSON_stringify
      (payloadValue
         (exportPayload asciiLower sampleNow metaEmptyModel [pairRag]))
  with
  | Some text => text
  | None => []
  end.

(** The bad metadata of the self-tests (l. 305). *)
Definition metaBad : BotMeta :=
  mkBotMeta [] [] (lit "x") (Some []) (lit "x") (lit "y") num_0_2
    (numberOfDecimal false 9 (-1)).

(** ["IALS — Houmansadr Lab"], with its em dash (U+2014). *)
Definition labWithDash : jsstring :=
  lit "IALS " ++ [8212%N] ++ lit " Houmansadr Lab".

(** Sample records and texts of the specification's section 8. *)
Definition tupleQ2 : value :=
  VArr [VStr (lit "Q2"); VStr (lit "A2"); VStr (lit "policy,edu")].
Definition questionOnly : value := VObj [(lit "question", VStr (lit "Q"))].
Definition tupleOfOne : value := VArr [VStr (lit "Q")].
Definition wrappedTwice : jsstring :=
  litq "{'items':[['c','d']],'data':[['a','b']]}".

(* ================================================================== *)
(** ** The tags field of the editor, the sanitiser and the import handler *)

(** [(pair.tags || []).join(",")] (l. 653): the text the tags field shows. *)
Definition tagsFieldValue (tags : option (list jsstring)) : jsstring :=
  joinWith [comma] match tags with Some ts => ts | None => [] end.

(** [e.target.value.split(",").map(s => s.trim()).filter(Boolean)] (l. 654):
    the tags read from the text of the field. *)
Definition parseTagsField (text : jsstring) : list jsstring :=
  filter nonEmpty (map trim (splitOn comma [] text)).

(** The [onChange] of the tags field (l. 654):
    [updatePair(pair.id, { tags: ... })]. *)
Definition editTags (id text : jsstring) (prev : list QAPair) : list QAPair :=
  updatePair id
    (mkQAPairPatch None None None (Some (Some (parseTagsField text)))) prev.

Definition isClosing (c : N) : bool := N.eqb c 93 || N.eqb c 125.

(** [\s*([\]}])] at the head of [s]: the closing bracket or brace that follows
    the white space, and what follows it. *)
Fixpoint closingAfterSpaces (s : jsstring) : option (N * jsstring) :=
  match s with
  | [] => None
  | c :: s' =>
      if isClosing c then Some (c, s')
      else if isSpace c then closingAfterSpaces s'
      else None
  end.

(** [importText.replace(/,\s*([\]}])/g, "$1")] (l. 477).  The scan drops a
    comma that white space and a closing bracket or brace follow, and then
    the white space up to that bracket; [dropping] says that the scan is in
    such white space. *)
Fixpoint stripScan (dropping : bool) (s : jsstring) : jsstring :=
  match s with
  | [] => []
  | c :: s' =>
      if dropping && isSpace c then stripScan true s'
      else if N.eqb c comma
              && match closingAfterSpaces s' with
                 | Some _ => true
                 | None => false
                 end
      then stripScan true s'
      else c :: stripScan false s'
  end.

Definition stripTrailingCommas (s : jsstring) : jsstring := stripScan false s.

(** ["idle" | "success" | "error"] *)
Inductive SubmitState : Type :=
| Idle
| Succeeded
| Failed.

(** The state of [App] that the import handler reads and sets. *)
Record AppState : Type := mkAppState {
  st_meta : BotMeta;
  st_pairs : list QAPair;
  st_importOpen : bool;
  st_importText : jsstring;
  st_submitState : SubmitState;
  st_submitMessage : jsstring
}.

(** [p => ({ id: uid(), q: p.q, a: p.a, tags: p.tags ?? [] })] *)
Definition importedPair (id : jsstring) (p : QA) : QAPair :=
  mkQAPair id (qa_q p) (qa_a p)
    (Some match qa_tags p with Some ts => ts | None => [] end).

(** [incoming.map(...)] (l. 495); [uids k] is the identifier that the
    [k]-th call of [uid()] draws. *)
Fixpoint withIds (uids : nat -> jsstring) (k : nat) (incoming : list QA)
    : list QAPair :=
  match incoming with
  | [] => []
  | p :: rest => importedPair (uids k) p :: withIds uids (S k) rest
  end.

(** The object given to [setMeta] (l. 482-492).  Every field of a patch but
    [description] has a type without [undefined], so that its [??] keeps the
    patch. *)
Definition mergePatch (prev patch : BotMeta) : BotMeta :=
  mkBotMeta (lab patch) (botName patch) (ownerEmail patch)
    match description patch with
    | Some d => Some d
    | None => description prev
    end
    (baseModel patch) (embedModel patch) (temperature patch) (topP patch).

Section ImportHandler.

(** [e.message || String(e)] for an error that the host throws
    ([SyntaxError], [TypeError]): its text is the host's. *)
Variable hostMessage : exn -> jsstring.

(** [e?.message || String(e)]: an [Error] with an empty message prints as
    ["Error"]. *)
Definition errorText (e : exn) : jsstring :=
  match e with
  | Error message => strOr message (lit "Error")
  | _ => hostMessage e
  end.

(** [handleImportJSON] (l. 474-501) *)
Definition handleImportJSON (uids : nat -> jsstring) (st : AppState)
    : AppState :=
  let sanitized := stripTrailingCommas (st_importText st) in
  match parseAnyQAPairs sanitized with
  | Ok r =>
      mkAppState
        match metaPatch r with
        | Some patch => mergePatch (st_meta st) patch
        | None => st_meta st
        end
        (withIds uids 0 (pairs r))
        false
        (st_importText st)
        (st_submitState st)
        (st_submitMessage st)
  | Throw e =>
      mkAppState (st_meta st) (st_pairs st) (st_importOpen st)
        (st_importText st) Failed
        (lit "Could not import JSON: " ++ errorText e)
  end.

End ImportHandler.

(** [String(v)] does not throw: no object with an own [toString] property is
    reached, [null] and [undefined] elements of arrays not being converted. *)
Fixpoint stringifiable (v : value) : bool :=
  match v with
  | VArr items =>
      (fix each (l : list value) : bool :=
         match l with
         | [] => true
         | x :: l' => (nullish x || stringifiable x) && each l'
         end) items
  | VObj props => negb (hasKey (lit "toString") props)
  | _ => true
  end.

(** A text is trimmed and not empty. *)
Definition cleanText (s : jsstring) : Prop := s <> [] /\ trim s = s.

(** A pair as the extractors build it: question and answer trimmed and not
    empty; tags, when there are some, a list that is not empty of trimmed
    texts that are not empty. *)
Definition wellFormedQA (p : QA) : Prop :=
  cleanText (qa_q p) /\ cleanText (qa_a p)
  /\ forall ts, qa_tags p = Some ts -> ts <> [] /\ Forall cleanText ts.

(** [k] is the first key of the list whose value in the object is an array. *)
Definition firstArrayKey (keys : list jsstring) (data : value) (k : jsstring)
    : Prop :=
  exists before after,
    keys = before ++ k :: after
    /\ isArray (getProp data k) = true
    /\ forall k', In k' before -> isArray (getProp data k') = false.

Definition noComma (s : jsstring) : Prop :=
  Forall (fun c => N.eqb c comma = false) s.

(** What the sanitiser may remove: commas and white space. *)
Definition commaOrSpace (c : N) : bool := N.eqb c comma || isSpace c.

(** A patch as the full-export branch builds it: every text trimmed, and a
    description always there. *)
Definition trimmedPatch (patch : BotMeta) : Prop :=
  trim (lab patch) = lab patch
  /\ trim (botName patch) = botName patch
  /\ trim (ownerEmail patch) = ownerEmail patch
  /\ (exists d, description patch = Some d /\ trim d = d)
  /\ trim (baseModel patch) = baseModel patch
  /\ trim (embedModel patch) = embedModel patch.

(** Sample texts: an array of records one of which has no answer, and an
    object with two wrapper keys. *)
Definition rawArrayText : jsstring :=
  litq "[{'q':' Q1 ','a':'A1'},{'q':'Q2'},['Q3','A3',[' t ','']]]".

Definition sampleState : AppState :=
  mkAppState metaGood somePairs true exportedJson Idle [].
Definition sampleUids (k : nat) : jsstring := lit "id" ++ [N.of_nat (48 + k)].
Definition noHostMessage (e : exn) : jsstring := [].

(** No pair of the list has the identifier. *)
Definition absentId (id : jsstring) (l : list QAPair) : Prop :=
  Forall (fun p => pair_id p <> id) l.

(** A pair as the payload carries it: question and answer trimmed, and never
    an empty list of tags. *)
Definition payloadPairShape (p : QA) : Prop :=
  trim (qa_q p) = qa_q p /\ trim (qa_a p) = qa_a p /\ qa_tags p <> Some [].

(** ** The console self-tests *)

(** [console.assert(cond, msg)]: a false condition writes the message. *)
Definition consoleAssert (cond : bool) (msg : jsstring)
    (console : list jsstring) : list jsstring :=
  if cond then console else console ++ [msg].

(** [tags && tags[0] === t] *)
Definition firstTagIs (t : jsstring) (tags : option (list jsstring)) : bool :=
  match tags with
  | Some (t0 :: _) => str_eqb t0 t
  | _ => false
  end.

Definition isAbsent {A : Type} (o : option A) : bool :=
  match o with None => true | Some _ => false end.

(** [runSelfTests] (App.tsx, l. 288-319): what it writes to the console.
    Reading a property of a missing element of [mapped] would throw, and the
    [catch] would write the warning. *)
Definition runSelfTests (toLowerCase : jsstring -> jsstring) : list jsstring :=
  let console := [] in
  let console :=
    consoleAssert
      (str_eqb (slugify toLowerCase (lit "Hello World!")) (lit "hello-world"))
      (lit "slugify basic failed") console in
  let console :=
    consoleAssert
      (str_eqb (slugify toLowerCase labWithDash) (lit "ials-houmansadr-lab"))
      (lit "slugify em-dash/diacritics failed") console in
  let pairsIn :=
    [mkQA (lit " Q1 ") (lit " A1 ") (Some []);
     mkQA (lit "Q2") (lit "A2") (Some [lit "policy"])] in
  let mapped :=
    map (fun p => mkQA (trim (qa_q p)) (trim (qa_a p)) (keepTags (qa_tags p)))
      pairsIn in
  match mapped with
  | m0 :: m1 :: _ =>
      let console :=
        consoleAssert
          (str_eqb (qa_q m0) (lit "Q1") && str_eqb (qa_a m0) (lit "A1")
           && isAbsent (qa_tags m0))
          (lit "pair trim/tags mapping failed") console in
      let console :=
        consoleAssert (firstTagIs (lit "policy") (qa_tags m1))
          (lit "pair tags carry-over failed") console in
      let console :=
        consoleAssert (regexTest emailPattern (lit "name@umass.edu"))
          (lit "email regex basic failed") console in
      let console :=
        consoleAssert (negb (validateMeta metaBad))
          (lit "validateMeta should fail for bad meta") console in
      let console :=
        consoleAssert (validateMeta metaGood)
          (lit "validateMeta should pass for good meta") console in
      consoleAssert
        (existsb (fun p => nonEmpty (trim (pair_q p))
                           && nonEmpty (trim (pair_a p))) somePairs)
        (lit "pairs validity should detect at least one completed pair")
        console
  | _ => console ++ [lit "Self-tests encountered an issue:"]
  end.

(** ** The submit handler *)

(** What [fetch] does with the request, as far as [handleSubmit] looks at
    it: it rejects, or it resolves with a response, of which [ok], [status]
    and [await res.text().catch(() => "")] are read. *)
Inductive FetchOutcome : Type :=
| FetchRejected (e : exn)
| FetchResponded (ok : bool) (status : number) (text : jsstring).

Definition msgIncomplete : jsstring :=
  lit "Please complete Lab, Bot name, Owner email, and at least one Q/A pair.".

Definition emDash : N := 8212.

Definition msgSubmitted : jsstring :=
  lit "Request submitted successfully " ++ [emDash]
  ++ lit " please allow 1 business day for your customized chatbot to be deployed!".

(** [setSubmitState(s); setSubmitMessage(m)] *)
Definition setBanner (st : AppState) (s : SubmitState) (m : jsstring)
    : AppState :=
  mkAppState (st_meta st) (st_pairs st) (st_importOpen st) (st_importText st)
    s m.

(** [new Error(`HTTP ${res.status}${text ? ` — ${text.slice(0, 200)}` : ""}`)]
    (l. 460) *)
Definition httpError (status : number) (text : jsstring) : exn :=
  Error (lit "HTTP " ++ numberToString status
         ++ (if nonEmpty text then lit " " ++ [emDash] ++ lit " "
                                   ++ firstn 200 text
             else [])).

Section SubmitHandler.

Variable toLowerCase : jsstring -> jsstring.
Variable hostMessage : exn -> jsstring.

(** [new Date().toISOString()] when the payload was built. *)
Variable now : jsstring.

(** The network: the outcome of the [POST] of a body to [SUBMIT_URL]. *)
Variable respond : option jsstring -> FetchOutcome.

(** [JSON.stringify(exportPayload)] *)
Definition submitBody (st : AppState) : option jsstring :=
  JSON_stringify
    (payloadValue (exportPayload toLowerCase now (st_meta st) (st_pairs st))).

(** The request and what follows it in the [try] block (l. 452-463). *)
Definition submitRequest (st : AppState) : result unit :=
  match respond (submitBody st) with
  | FetchRejected e => Throw e
  | FetchResponded ok status text =>
      if negb ok then Throw (httpError status text) else Ok tt
  end.

(** [handleSubmit] (l. 443-472): the body of the request sent, if one is
    sent, and the state it leaves. *)
Definition handleSubmit (st : AppState) : option (option jsstring) * AppState :=
  if negb (isValid (st_meta st) (st_pairs st)) then
    (None, setBanner st Failed msgIncomplete)
  else
    let st := setBanner st Idle [] in
    (Some (submitBody st),
     match submitRequest st with
     | Ok _ => setBanner st Succeeded msgSubmitted
     | Throw e =>
         setBanner st Failed
           (lit "Submission failed. " ++ errorText hostMessage e)
     end).

End SubmitHandler.

(** A network that answers every request with the same outcome. *)
Definition alwaysResponds (outcome : FetchOutcome)
    (body : option jsstring) : FetchOutcome := outcome.

(** A text with a trailing comma inside a string. *)
Definition commaInString : jsstring :=
  litq "[{'q':'Pick one of [a,b, ]','a':'b'}]".

(** Two pairs with the same identifier. *)
Definition sharedIdPairs : list QAPair :=
  [mkQAPair (lit "1") (lit "Q1") (lit "A1") (Some []);
   mkQAPair (lit "1") (lit "Q2") (lit "A2") (Some [])].

(** A record whose question is empty and whose answer has an own property
    [toString], and its text. *)
Definition recordThrowing : value :=
  VObj [(lit "q", VStr []); (lit "a", VObj [(lit "toString", VNull)])].
Definition recordThrowingText : jsstring :=
  litq "{'q':'','a':{'toString':null}}".

(** The tuple of an empty question and an answer with an own property
    [toString]. *)
Definition tupleThrowing : value :=
  VArr [VStr []; VObj [(lit "toString", VNull)]].
(* ================================================================== *)
(** * Proofs *)

(** ** The host functions and the self-tests, run on samples *)

Example numberToString_samples :
  map numberToString
    [num_0_2; num_0_95; numberOfDecimal false 1 21;
     numberOfDecimal true 15 (-1);
     numberOfDecimal false 1 (-7); numberOfDecimal false 5 (-324);
     numberOfDecimal false 1 400; numberOfDecimal true 0 0]
  = [lit "0.2"; lit "0.95"; lit "1e+21"; lit "-1.5"; lit "1e-7"; lit "5e-324";
     lit "Infinity"; lit "0"].
Proof. vm_compute. reflexivity. Qed.

Example JSON_parse_samples :
  JSON_parse (litq " {'a': [1, 'x\u0041', true, null], 'a': {}} ")
  = Ok (VObj [(lit "a", VObj [])])
  /\ JSON_parse (litq "[1.50, -0, 2e2]")
     = Ok (VArr [VNum (numberOfDecimal false 15 (-1)); VNum (S754_zero true);
                 VNum (numberOfDecimal false 200 0)])
  /\ JSON_parse (litq "[1,]") = Throw SyntaxError
  /\ JSON_parse (litq "{'a':1,}") = Throw SyntaxError
  /\ JSON_parse (litq "01") = Throw SyntaxError
  /\ JSON_parse (litq "{} {}") = Throw SyntaxError
  /\ JSON_parse [] = Throw SyntaxError.
Proof. repeat split; vm_compute; reflexivity. Qed.

Example coerceStr_samples :
  coerceStr (VStr (lit "  a b  ")) = Ok (lit "a b")
  /\ coerceStr VNull = Ok []
  /\ coerceStr VUndefined = Ok []
  /\ coerceStr (VNum (numberOfDecimal false 42 0)) = Ok (lit "42")
  /\ coerceStr (VBool false) = Ok (lit "false")
  /\ coerceStr (VArr [VNum num_0_2; VNull; VArr [VStr (lit "x")]])
     = Ok (lit "0.2,,x")
  /\ coerceStr (VObj [(lit "k", VNull)]) = Ok (lit "[object Object]")
  /\ coerceStr (VObj [(lit "toString", VNull)]) = Throw TypeError.
Proof. repeat split; vm_compute; reflexivity. Qed.

(** The assertions of [runSelfTests] (l. 288-319), with the lowering of Basic
    Latin. *)
Example runSelfTests_pass :
  slugify asciiLower (lit "Hello World!") = lit "hello-world"
  /\ slugify asciiLower labWithDash = lit "ials-houmansadr-lab"
  /\ regexTest emailPattern (lit "name@umass.edu") = true
  /\ validateMeta metaBad = false
  /\ validateMeta metaGood = true
  /\ existsb pairComplete somePairs = true.
Proof. repeat split; vm_compute; reflexivity. Qed.

(** ** Strings *)

Lemma str_eqb_eq (s t : jsstring) : str_eqb s t = true <-> s = t.
Proof.
  revert t; induction s as [|c s IH]; intros [|d t]; simpl;
    try (split; [discriminate | discriminate]); try tauto.
  rewrite andb_true_iff, N.eqb_eq, IH. split.
  - intros [-> ->]; reflexivity.
  - intros E; injection E; auto.
Qed.

Lemma str_eqb_refl (s : jsstring) : str_eqb s s = true.
Proof. apply str_eqb_eq; reflexivity. Qed.

Lemma str_eqb_neq (s t : jsstring) : str_eqb s t = false <-> s <> t.
Proof.
  split.
  - intros E H. apply str_eqb_eq in H. congruence.
  - intros H. destruct (str_eqb s t) eqn:E; auto.
    apply str_eqb_eq in E. contradiction.
Qed.

Lemma dropWhile_suffix (p : N -> bool) (s : jsstring) :
  exists pre, s = pre ++ dropWhile p s /\ forallb p pre = true.
Proof.
  induction s as [|c s [pre [E F]]]; simpl.
  - exists []; auto.
  - destruct (p c) eqn:Pc.
    + exists (c :: pre); simpl. rewrite Pc, F.
      split; [congruence | reflexivity].
    + exists []; auto.
Qed.

Lemma dropWhile_head (p : N -> bool) (s : jsstring) (c : N) (r : jsstring) :
  dropWhile p s = c :: r -> p c = false.
Proof.
  induction s as [|d s IH]; simpl; [discriminate|].
  destruct (p d) eqn:Pd; auto.
  intros E; injection E as -> _; assumption.
Qed.

Lemma Forall_dropWhile (P : N -> Prop) (p : N -> bool) (s : jsstring) :
  Forall P s -> Forall P (dropWhile p s).
Proof.
  induction 1 as [|c s Hc Hs IH]; simpl; [constructor|].
  destruct (p c); auto.
Qed.

Lemma Forall_trim (P : N -> Prop) (s : jsstring) :
  Forall P s -> Forall P (trim s).
Proof.
  intros H. unfold trim, trimEnd, trimStart.
  apply Forall_rev, Forall_dropWhile, Forall_rev, Forall_dropWhile, H.
Qed.

(** The trimmed text is the middle of the text. *)
Lemma trim_middle (s : jsstring) :
  exists pre post, s = pre ++ trim s ++ post
    /\ forallb isSpace pre = true /\ forallb isSpace post = true.
Proof.
  unfold trim, trimEnd, trimStart.
  destruct (dropWhile_suffix isSpace s) as [pre [E1 F1]].
  destruct (dropWhile_suffix isSpace (rev (dropWhile isSpace s)))
    as [w [E2 F2]].
  exists pre, (rev w). repeat split; auto.
  - rewrite <- rev_app_distr, <- E2, rev_involutive. exact E1.
  - rewrite forallb_forall in *. intros x Hx. apply F2, in_rev, Hx.
Qed.

Lemma trim_last_not_space (s : jsstring) (c : N) :
  hd_error (rev (trim s)) = Some c -> isSpace c = false.
Proof.
  unfold trim, trimEnd. rewrite rev_involutive.
  destruct (dropWhile isSpace (rev (trimStart s))) as [|d r] eqn:E; simpl;
    [discriminate|].
  intros H; injection H as <-. exact (dropWhile_head _ _ _ _ E).
Qed.

Lemma trim_head_not_space (s : jsstring) (c : N) :
  hd_error (trim s) = Some c -> isSpace c = false.
Proof.
  unfold trim, trimEnd. set (y := trimStart s).
  destruct (dropWhile_suffix isSpace (rev y)) as [w [E F]].
  assert (Ey : y = rev (dropWhile isSpace (rev y)) ++ rev w).
  { rewrite <- rev_app_distr, <- E, rev_involutive. reflexivity. }
  destruct (rev (dropWhile isSpace (rev y))) as [|d r] eqn:Er; simpl;
    [discriminate|].
  intros H; injection H as ->.
  unfold y, trimStart in Ey. simpl in Ey. eapply dropWhile_head, Ey.
Qed.

(** ** [replaceRuns] and [slugify] *)

Lemma Forall_replaceRunsFrom (P Q : N -> Prop) (p : N -> bool)
    (by_ : jsstring) :
  Forall Q by_ ->
  (forall c, P c -> p c = false -> Q c) ->
  forall s b, Forall P s -> Forall Q (replaceRunsFrom p by_ b s).
Proof.
  intros Hby HPQ s. induction s as [|c s IH]; intros b Hs; simpl.
  - constructor.
  - inversion Hs as [|? ? Hc Hs']; subst.
    destruct (p c) eqn:Pc.
    + apply Forall_app. split; [destruct b; [constructor | exact Hby] | auto].
    + constructor; auto.
Qed.

Lemma replaceRunsFrom_no_double (s : jsstring) :
  forall b,
    noDoubleHyphen (replaceRunsFrom isHyphen (lit "-") b s) = true
    /\ (b = true ->
        startsWith hyphen (replaceRunsFrom isHyphen (lit "-") b s) = false).
Proof.
  induction s as [|c s IH]; intros b; simpl.
  - split; reflexivity.
  - destruct (isHyphen c) eqn:Hc.
    + destruct (IH true) as [ND NS]. specialize (NS eq_refl).
      destruct b; simpl.
      * split; [exact ND | intros _; exact NS].
      * rewrite NS, ND. split; [reflexivity | discriminate].
    + destruct (IH false) as [ND _]. simpl. rewrite Hc, ND. simpl.
      split; [reflexivity|]. intros _. exact Hc.
Qed.

Lemma replaceRunsFrom_nil_iff (p : N -> bool) (by_ : jsstring) (s : jsstring) :
  forallb p s = true -> replaceRunsFrom p by_ true s = [].
Proof.
  induction s as [|c s IH]; simpl; [reflexivity|].
  rewrite andb_true_iff. intros [-> H]. simpl. auto.
Qed.

Lemma hd_rev_app (A : Type) (l r : list A) :
  r <> [] -> hd_error (rev (l ++ r)) = hd_error (rev r).
Proof.
  intros Hr. rewrite rev_app_distr.
  destruct (rev r) as [|x r'] eqn:E; [|reflexivity].
  apply (f_equal (@rev A)) in E. rewrite rev_involutive in E. contradiction.
Qed.

Lemma hd_rev_cons (A : Type) (x : A) (r : list A) :
  r <> [] -> hd_error (rev (x :: r)) = hd_error (rev r).
Proof. intros Hr. apply (hd_rev_app A [x] r Hr). Qed.

Lemma hd_rev_some_nonnil (A : Type) (l : list A) (x : A) :
  hd_error (rev l) = Some x -> l <> [].
Proof. intros H ->. discriminate H. Qed.

(** A text that ends outside the class keeps its last code unit. *)
Lemma replaceRunsFrom_last_kept (p : N -> bool) (by_ : jsstring) (c : N) :
  p c = false ->
  forall s b, hd_error (rev s) = Some c ->
    hd_error (rev (replaceRunsFrom p by_ b s)) = Some c.
Proof.
  intros Pc s. induction s as [|d s IH]; intros b H; [discriminate H|].
  destruct s as [|e s'].
  - simpl in H. injection H as ->. simpl. rewrite Pc. reflexivity.
  - rewrite hd_rev_cons in H by discriminate.
    assert (N1 : forall b', replaceRunsFrom p by_ b' (e :: s') <> []).
    { intros b'. eapply hd_rev_some_nonnil. apply IH, H. }
    remember (e :: s') as t. cbn [replaceRunsFrom]. destruct (p d).
    + rewrite hd_rev_app by apply N1. apply IH, H.
    + rewrite hd_rev_cons by apply N1. apply IH, H.
Qed.

(** Collapsing runs of hyphens keeps the last code unit, unless the scan
    started inside a run and met hyphens only. *)
Lemma collapse_hyphens_last (s : jsstring) :
  forall b c, hd_error (rev s) = Some c ->
    b = false \/ forallb isHyphen s = false ->
    hd_error (rev (replaceRunsFrom isHyphen (lit "-") b s)) = Some c.
Proof.
  induction s as [|d s IH]; intros b c H Hb; [discriminate H|].
  destruct s as [|e s'].
  - simpl in H. injection H as ->. simpl. destruct (isHyphen c) eqn:Hc.
    + destruct Hb as [-> | F]; [|simpl in F; rewrite Hc in F; discriminate F].
      simpl. apply N.eqb_eq in Hc. rewrite Hc. reflexivity.
    + reflexivity.
  - rewrite hd_rev_cons in H by discriminate.
    remember (e :: s') as t. cbn [replaceRunsFrom].
    destruct (isHyphen d) eqn:Hd.
    + destruct (forallb isHyphen t) eqn:F.
      * destruct Hb as [-> | F']; [|simpl in F'; rewrite Hd in F';
          simpl in F; rewrite F in F'; discriminate F'].
        rewrite (replaceRunsFrom_nil_iff _ _ _ F), app_nil_r.
        assert (Hc : isHyphen c = true).
        { rewrite forallb_forall in F. apply F.
          apply in_rev. destruct (rev t); [discriminate H|].
          injection H as ->. left; reflexivity. }
        apply N.eqb_eq in Hc. rewrite Hc. reflexivity.
      * assert (E : hd_error (rev (replaceRunsFrom isHyphen (lit "-") true t))
                    = Some c) by (apply IH; auto).
        rewrite hd_rev_app by (eapply hd_rev_some_nonnil, E). exact E.
    + assert (E : hd_error (rev (replaceRunsFrom isHyphen (lit "-") false t))
                  = Some c) by (apply IH; auto).
      rewrite hd_rev_cons by (eapply hd_rev_some_nonnil, E). exact E.
Qed.

Lemma slugKeep_not_space (c : N) :
  slugKeep c = true -> isSpace c = false -> slugChar c = true.
Proof.
  unfold slugKeep, slugChar. intros H S. rewrite S, orb_false_r in H. exact H.
Qed.

Lemma slugify_charset (lower : jsstring -> jsstring) (s : jsstring) :
  Forall (fun c => slugChar c = true) (slugify lower s).
Proof.
  unfold slugify, replaceRuns.
  apply Forall_replaceRunsFrom with (P := fun c => slugChar c = true).
  - repeat constructor.
  - auto.
  - apply Forall_replaceRunsFrom with (P := fun c => slugKeep c = true).
    + repeat constructor.
    + apply slugKeep_not_space.
    + apply Forall_trim, Forall_forall. intros c Hc.
      apply filter_In in Hc. tauto.
Qed.

Lemma slugify_head (lower : jsstring -> jsstring) (s : jsstring) :
  startsWith hyphen (slugify lower s) = startsWith hyphen (slugCore lower s).
Proof.
  unfold slugify, slugCore, replaceRuns.
  pose proof (trim_head_not_space (filter slugKeep (lower s))) as H.
  destruct (trim (filter slugKeep (lower s))) as [|c t]; [reflexivity|].
  specialize (H c eq_refl). cbn [replaceRunsFrom]. rewrite H.
  cbn [replaceRunsFrom]. destruct (isHyphen c) eqn:Hc; simpl.
  - symmetry. exact Hc.
  - reflexivity.
Qed.

Lemma slugify_last (lower : jsstring -> jsstring) (s : jsstring) :
  endsWith hyphen (slugify lower s) = endsWith hyphen (slugCore lower s).
Proof.
  unfold endsWith, slugify, slugCore, replaceRuns.
  pose proof (trim_last_not_space (filter slugKeep (lower s))) as H.
  set (t := trim (filter slugKeep (lower s))) in *.
  destruct (hd_error (rev t)) as [c|] eqn:E.
  - specialize (H c eq_refl).
    pose proof (replaceRunsFrom_last_kept isSpace (lit "-") c H t false E)
      as E1.
    pose proof (collapse_hyphens_last _ false c E1 (or_introl eq_refl)) as E2.
    destruct (rev t) as [|x r]; [discriminate E|]. injection E as ->.
    destruct (rev (replaceRunsFrom isHyphen (lit "-") false
                (replaceRunsFrom isSpace (lit "-") false t))) as [|y r'];
      [discriminate E2|]. injection E2 as ->. reflexivity.
  - destruct t as [|x t'].
    + reflexivity.
    + exfalso. simpl in E. destruct (rev t'); discriminate E.
Qed.

(** ** Regular expressions: the derivative matcher computes [matches] *)

Lemma matches_seq_inv (r1 r2 : regex) (s : jsstring) :
  matches (RSeq r1 r2) s ->
  exists s1 s2, s = s1 ++ s2 /\ matches r1 s1 /\ matches r2 s2.
Proof. intros H. inversion H; subst. eauto. Qed.

Lemma matches_alt_inv (r1 r2 : regex) (s : jsstring) :
  matches (RAlt r1 r2) s -> matches r1 s \/ matches r2 s.
Proof. intros H. inversion H; subst; auto. Qed.

Lemma matches_class_inv (p : N -> bool) (s : jsstring) :
  matches (RClass p) s -> exists c, s = [c] /\ p c = true.
Proof. intros H. inversion H; subst. eauto. Qed.

Lemma matches_eps_inv (s : jsstring) : matches REps s -> s = [].
Proof. intros H. inversion H; subst. reflexivity. Qed.

Lemma matches_none_inv (s : jsstring) : ~ matches RNone s.
Proof. intros H. inversion H. Qed.

Lemma nullable_matches (r : regex) : nullable r = true <-> matches r [].
Proof.
  induction r as [| |p|r1 IH1 r2 IH2|r1 IH1 r2 IH2|r IH]; simpl.
  - split; [discriminate | intros H; elim (matches_none_inv _ H)].
  - split; [constructor | reflexivity].
  - split; [discriminate|].
    intros H. apply matches_class_inv in H. destruct H as [c [E _]].
    discriminate E.
  - rewrite andb_true_iff, IH1, IH2. split.
    + intros [H1 H2]. apply (MSeq r1 r2 [] [] H1 H2).
    + intros H. apply matches_seq_inv in H.
      destruct H as [s1 [s2 [E [H1 H2]]]].
      symmetry in E. apply app_eq_nil in E. destruct E; subst. auto.
  - rewrite orb_true_iff, IH1, IH2. split.
    + intros [H|H]; [apply MAltL | apply MAltR]; exact H.
    + apply matches_alt_inv.
  - split; [constructor | reflexivity].
Qed.

(** A word of [r*] that is not empty starts with a word of [r] that is not
    empty. *)
Lemma matches_star_cons (r : regex) (c : N) (s : jsstring) :
  matches (RStar r) (c :: s) ->
  exists s1 s2, s = s1 ++ s2 /\ matches r (c :: s1) /\ matches (RStar r) s2.
Proof.
  intros H. remember (RStar r) as rs eqn:Er. remember (c :: s) as w eqn:Ew.
  revert c s Ew.
  induction H as [| | | | | |r' s1 s2 H1 _ H2 IH2]; intros x w Ew;
    try discriminate Er; try discriminate Ew.
  injection Er as Er'; subst r'.
  destruct s1 as [|d s1].
  - simpl in Ew. apply IH2; auto.
  - simpl in Ew. injection Ew as E1 E2; subst.
    exists s1, s2. auto.
Qed.

Lemma deriv_matches (r : regex) :
  forall c s, matches (deriv c r) s <-> matches r (c :: s).
Proof.
  induction r as [| |p|r1 IH1 r2 IH2|r1 IH1 r2 IH2|r IH]; intros c s; simpl.
  - split; intros H; elim (matches_none_inv _ H).
  - split; intros H; [elim (matches_none_inv _ H)|].
    apply matches_eps_inv in H. discriminate H.
  - destruct (p c) eqn:Pc.
    + split; intros H.
      * apply matches_eps_inv in H. subst. constructor. exact Pc.
      * apply matches_class_inv in H. destruct H as [d [E _]].
        injection E as E1 E2; subst. constructor.
    + split; intros H; [elim (matches_none_inv _ H)|].
      apply matches_class_inv in H. destruct H as [d [E Pd]].
      injection E as E1 E2; subst. congruence.
  - assert (Fwd : matches (RSeq (deriv c r1) r2) s ->
                  matches (RSeq r1 r2) (c :: s)).
    { intros H. apply matches_seq_inv in H.
      destruct H as [s1 [s2 [-> [H1 H2]]]].
      apply IH1 in H1. apply (MSeq r1 r2 (c :: s1) s2 H1 H2). }
    assert (Bwd : matches (RSeq r1 r2) (c :: s) ->
                  matches (RSeq (deriv c r1) r2) s
                  \/ (matches r1 [] /\ matches (deriv c r2) s)).
    { intros H. apply matches_seq_inv in H.
      destruct H as [s1 [s2 [E [H1 H2]]]].
      destruct s1 as [|d s1]; simpl in E.
      - subst s2. right. split; [exact H1 | apply IH2; exact H2].
      - injection E as E1 E2; subst. left.
        constructor; [apply IH1; exact H1 | exact H2]. }
    destruct (nullable r1) eqn:N1.
    + split.
      * intros H. apply matches_alt_inv in H. destruct H as [H|H]; [auto|].
        apply nullable_matches in N1. apply (MSeq r1 r2 [] (c :: s) N1).
        apply IH2. assumption.
      * intros H.
        destruct (Bwd H) as [H'|[_ H']]; [apply MAltL | apply MAltR]; exact H'.
    + split; [exact Fwd|].
      intros H. destruct (Bwd H) as [H'|[H' _]]; [exact H'|].
      apply nullable_matches in H'. congruence.
  - split; intros H; apply matches_alt_inv in H; destruct H as [H|H].
    + apply MAltL, IH1; assumption.
    + apply MAltR, IH2; assumption.
    + apply MAltL, IH1; assumption.
    + apply MAltR, IH2; assumption.
  - split.
    + intros H. apply matches_seq_inv in H.
      destruct H as [s1 [s2 [-> [H1 H2]]]].
      apply IH in H1. apply (MStarApp r (c :: s1) s2 H1 H2).
    + intros H. apply matches_star_cons in H.
      destruct H as [s1 [s2 [-> [H1 H2]]]].
      constructor; [apply IH; exact H1 | exact H2].
Qed.

Lemma accepts_matches (s : jsstring) :
  forall r, accepts r s = true <-> matches r s.
Proof.
  induction s as [|c s IH]; intros r; simpl.
  - apply nullable_matches.
  - rewrite IH. apply deriv_matches.
Qed.

Lemma matches_any_star (s : jsstring) : matches (RStar anyUnit) s.
Proof.
  induction s as [|c s IH]; [constructor|].
  apply (MStarApp anyUnit [c] s); [constructor; reflexivity | exact IH].
Qed.

(** [test] finds a word of the pattern somewhere in the text. *)
Lemma regexTest_spec (r : regex) (s : jsstring) :
  regexTest r s = true <->
  exists pre m post, s = pre ++ m ++ post /\ matches r m.
Proof.
  unfold regexTest. rewrite accepts_matches. split.
  - intros H. apply matches_seq_inv in H.
    destruct H as [pre [rest [-> [_ H2]]]].
    apply matches_seq_inv in H2. destruct H2 as [m [post [-> [Hm _]]]].
    exists pre, m, post. auto.
  - intros [pre [m [post [-> Hm]]]].
    constructor; [apply matches_any_star|].
    constructor; [exact Hm | apply matches_any_star].
Qed.

Lemma matches_class_star (p : N -> bool) (s : jsstring) :
  matches (RStar (RClass p)) s <-> forallb p s = true.
Proof.
  split.
  - revert s. induction s as [|c s IH]; [reflexivity|].
    intros H. apply matches_star_cons in H.
    destruct H as [s1 [s2 [-> [H1 H2]]]].
    apply matches_class_inv in H1. destruct H1 as [d [E Pd]].
    injection E as E1 E2; subst. simpl. rewrite Pd. apply IH. exact H2.
  - induction s as [|c s IH]; simpl; [constructor|].
    rewrite andb_true_iff. intros [Pc H].
    apply (MStarApp (RClass p) [c] s); [constructor; exact Pc | apply IH, H].
Qed.

Lemma matches_class_plus (p : N -> bool) (s : jsstring) :
  matches (RPlus (RClass p)) s <-> s <> [] /\ forallb p s = true.
Proof.
  unfold RPlus. split.
  - intros H. apply matches_seq_inv in H.
    destruct H as [s1 [s2 [-> [H1 H2]]]].
    apply matches_class_inv in H1. destruct H1 as [c [-> Pc]].
    apply matches_class_star in H2. simpl.
    split; [discriminate|]. rewrite H2, Pc. reflexivity.
  - intros [Hn H]. destruct s as [|c s]; [contradiction|].
    simpl in H. apply andb_true_iff in H. destruct H as [Pc H].
    apply (MSeq (RClass p) (RStar (RClass p)) [c] s).
    + constructor; exact Pc.
    + apply matches_class_star, H.
Qed.

Lemma matches_unit (c : N) (s : jsstring) :
  matches (RUnit c) s <-> s = [c].
Proof.
  unfold RUnit. split.
  - intros H. apply matches_class_inv in H. destruct H as [d [-> E]].
    apply N.eqb_eq in E. subst. reflexivity.
  - intros ->. constructor. apply N.eqb_refl.
Qed.

(** ** [validateMeta] *)

Lemma emailRegex_matches (ok : N -> bool) (m : jsstring) :
  matches (emailRegex ok) m <->
  exists x y z,
    m = x ++ [atSign] ++ y ++ [fullStop] ++ z
    /\ x <> [] /\ y <> [] /\ z <> []
    /\ forallb ok x = true /\ forallb ok y = true /\ forallb ok z = true.
Proof.
  unfold emailRegex. split.
  - intros H.
    apply matches_seq_inv in H. destruct H as [x [r1 [-> [Hx H]]]].
    apply matches_seq_inv in H. destruct H as [a [r2 [-> [Ha H]]]].
    apply matches_seq_inv in H. destruct H as [y [r3 [-> [Hy H]]]].
    apply matches_seq_inv in H. destruct H as [d [z [-> [Hd Hz]]]].
    apply matches_unit in Ha, Hd. subst a d.
    apply matches_class_plus in Hx, Hy, Hz.
    exists x, y, z. tauto.
  - intros [x [y [z [-> [Nx [Ny [Nz [Fx [Fy Fz]]]]]]]]].
    constructor; [apply matches_class_plus; auto|].
    constructor; [apply matches_unit; reflexivity|].
    constructor; [apply matches_class_plus; auto|].
    constructor; [apply matches_unit; reflexivity|].
    apply matches_class_plus; auto.
Qed.

Lemma emailRegex_test (ok : N -> bool) (s : jsstring) :
  regexTest (emailRegex ok) s = true <-> emailShape ok s.
Proof.
  rewrite regexTest_spec. unfold emailShape. split.
  - intros [pre [m [post [-> Hm]]]].
    apply emailRegex_matches in Hm.
    destruct Hm as [x [y [z [-> H]]]].
    exists pre, x, y, z, post. split; [|exact H].
    repeat rewrite <- app_assoc. reflexivity.
  - intros [pre [x [y [z [post [-> H]]]]]].
    exists pre, (x ++ [atSign] ++ y ++ [fullStop] ++ z), post. split.
    + repeat rewrite <- app_assoc. reflexivity.
    + apply emailRegex_matches. exists x, y, z. split; [reflexivity | exact H].
Qed.

Lemma length_pos_iff (s : jsstring) : (0 <? length s) = true <-> s <> [].
Proof.
  destruct s; simpl; split; try discriminate; try reflexivity.
  intros H; contradiction H; reflexivity.
Qed.

Lemma validateMeta_true_iff (meta : BotMeta) :
  validateMeta meta = true <->
  trim (lab meta) <> [] /\ trim (botName meta) <> []
  /\ emailShape notLineTerminator (ownerEmail meta).
Proof.
  unfold validateMeta.
  rewrite !andb_true_iff, !length_pos_iff.
  change emailPattern with (emailRegex notLineTerminator).
  rewrite emailRegex_test. tauto.
Qed.

(** A text that holds the shape in characters that are not spaces holds it in
    characters that are not line terminators. *)
Lemma emailShape_not_space (s : jsstring) :
  emailShape notSpace s -> emailShape notLineTerminator s.
Proof.
  assert (W : forall x, forallb notSpace x = true ->
                        forallb notLineTerminator x = true).
  { intros x H. rewrite forallb_forall in *. intros c Hc.
    specialize (H c Hc). unfold notSpace, isSpace in H.
    apply negb_true_iff, orb_false_iff in H. unfold notLineTerminator.
    apply negb_true_iff. tauto. }
  intros [pre [x [y [z [post [E [Nx [Ny [Nz [Fx [Fy Fz]]]]]]]]]]].
  exists pre, x, y, z, post. repeat split; auto.
Qed.

(** C3 (amended).  [validateMeta] accepts a metadata record exactly when
    [lab] and [botName] are not empty after trimming and [ownerEmail] holds,
    somewhere, one or more characters other than line terminators, an [@],
    one or more such characters, a full stop and one or more such characters:
    the wildcard of the pattern admits spaces, and the pattern is not
    anchored.  A text of the [<non-space>@<non-space>.<non-space>] shape is
    accepted. *)
Theorem validateMeta_accepts_iff (meta : BotMeta) :
  (validateMeta meta = true <->
   trim (lab meta) <> [] /\ trim (botName meta) <> []
   /\ emailShape notLineTerminator (ownerEmail meta))
  /\ (trim (lab meta) <> [] -> trim (botName meta) <> [] ->
      emailShape notSpace (ownerEmail meta) -> validateMeta meta = true)
  /\ validateMeta metaGood = true.
Proof.
  split; [apply validateMeta_true_iff|]. split; [|vm_compute; reflexivity].
  intros Hl Hb He. apply validateMeta_true_iff.
  split; [exact Hl|]. split; [exact Hb|]. apply emailShape_not_space, He.
Qed.

Lemma validateMeta_accepts_iff_witness :
  emailShape notSpace (ownerEmail metaGood) /\ validateMeta metaGood = true.
Proof.
  assert (E : emailShape notSpace (ownerEmail metaGood)).
  { exists [], (lit "prof"), (lit "umass"), (lit "edu"), [].
    split; [reflexivity|]. repeat split; try discriminate; reflexivity. }
  split; [exact E|].
  destruct (validateMeta_accepts_iff metaGood) as [_ [H _]].
  apply H; [vm_compute; discriminate | vm_compute; discriminate | exact E].
Defined.

(** C3 as stated fails: an owner e-mail of spaces around [@] and [.] passes
    [validateMeta], and holds no [<non-space>@<non-space>.<non-space>]
    anywhere. *)
Lemma validateMeta_blank_email_counterexample :
  validateMeta metaBlankEmail = true
  /\ trim (lab metaBlankEmail) <> [] /\ trim (botName metaBlankEmail) <> []
  /\ ~ emailShape notSpace (ownerEmail metaBlankEmail).
Proof.
  split; [vm_compute; reflexivity|].
  split; [vm_compute; discriminate|].
  split; [vm_compute; discriminate|].
  intros H. apply emailRegex_test in H. vm_compute in H. discriminate H.
Qed.

(** ** [slugify] *)

Lemma startsWith_none (c : N) (s : jsstring) :
  Forall (fun d => N.eqb d c = false) s -> startsWith c s = false.
Proof. intros H. destruct H as [|d s Hd _]; [reflexivity | exact Hd]. Qed.

(** Without a hyphen in the lowered input there is none at the edges. *)
Lemma slugCore_no_hyphen (lower : jsstring -> jsstring) (s : jsstring) :
  Forall (fun c => isHyphen c = false) (lower s) ->
  startsWith hyphen (slugCore lower s) = false
  /\ endsWith hyphen (slugCore lower s) = false.
Proof.
  intros H.
  assert (F : Forall (fun c => isHyphen c = false) (slugCore lower s)).
  { unfold slugCore. apply Forall_trim. rewrite Forall_forall in *.
    intros c Hc. apply filter_In in Hc. apply H. tauto. }
  split; [|unfold endsWith]; apply startsWith_none.
  - exact F.
  - apply Forall_rev, F.
Qed.

(** C4 (amended).  For every lowering function and every input, [slugify]
    gives a text over [[a-z0-9-]] with no two adjacent hyphens; it begins
    (ends) with a hyphen exactly when the lowered input, without the
    characters outside [[a-z0-9\s-]] and trimmed, begins (ends) with one, so
    never when the lowered input has no hyphen; and ["Hello World!"] gives
    ["hello-world"] once it is lowered to ["hello world!"]. *)
Theorem slugify_shape (toLowerCase : jsstring -> jsstring) (s : jsstring) :
  Forall (fun c => slugChar c = true) (slugify toLowerCase s)
  /\ noDoubleHyphen (slugify toLowerCase s) = true
  /\ startsWith hyphen (slugify toLowerCase s)
     = startsWith hyphen (slugCore toLowerCase s)
  /\ endsWith hyphen (slugify toLowerCase s)
     = endsWith hyphen (slugCore toLowerCase s)
  /\ (Forall (fun c => isHyphen c = false) (toLowerCase s) ->
      startsWith hyphen (slugify toLowerCase s) = false
      /\ endsWith hyphen (slugify toLowerCase s) = false)
  /\ (toLowerCase (lit "Hello World!") = lit "hello world!" ->
      slugify toLowerCase (lit "Hello World!") = lit "hello-world").
Proof.
  split; [apply slugify_charset|].
  split; [apply replaceRunsFrom_no_double|].
  split; [apply slugify_head|].
  split; [apply slugify_last|].
  split.
  - intros H. rewrite slugify_head, slugify_last.
    apply slugCore_no_hyphen, H.
  - intros E. unfold slugify. rewrite E. reflexivity.
Qed.

Lemma slugify_shape_witness :
  asciiLower (lit "Hello World!") = lit "hello world!"
  /\ slugify asciiLower (lit "Hello World!") = lit "hello-world"
  /\ startsWith hyphen (slugify asciiLower (lit "Hello World!")) = false.
Proof.
  split; [reflexivity|].
  destruct (slugify_shape asciiLower (lit "Hello World!"))
    as [_ [_ [_ [_ [H1 H2]]]]].
  split; [apply H2; reflexivity|].
  apply H1. repeat constructor.
Defined.

(** C4 as stated fails: hyphens at the edges of the input stay. *)
Lemma slugify_edge_hyphen_counterexample :
  slugify asciiLower (lit "-a-") = lit "-a-"
  /\ ~ slugWellFormed (slugify asciiLower (lit "-a-")).
Proof.
  split; [reflexivity|].
  intros [_ [H _]]. vm_compute in H. discriminate H.
Qed.

(** ** The submission gate and the payload *)

Lemma strOr_nil (s : jsstring) : strOr s [] = s.
Proof. destruct s; reflexivity. Qed.

Lemma nonEmpty_true_iff (s : jsstring) : nonEmpty s = true <-> s <> [].
Proof.
  destruct s; simpl; split; try discriminate; try reflexivity.
  intros H; contradiction H; reflexivity.
Qed.

Lemma isEmpty_false (s : jsstring) : s <> [] -> isEmpty s = false.
Proof. destruct s; [intros H; contradiction H; reflexivity | reflexivity]. Qed.

Lemma pairComplete_iff (p : QAPair) :
  pairComplete p = true <-> completePair p.
Proof.
  unfold pairComplete, completePair.
  rewrite !strOr_nil, andb_true_iff, !nonEmpty_true_iff. tauto.
Qed.

(** C6.  [isValid] holds exactly when [validateMeta] passes and some pair has
    a question and an answer that are not empty after trimming; and the
    payload lists every pair of the working set, trimmed and in order,
    whether it is complete or not. *)
Theorem isValid_gate_and_payload_pairs (toLowerCase : jsstring -> jsstring)
    (now : jsstring) (meta : BotMeta) (l : list QAPair) :
  (isValid meta l = true <->
   validateMeta meta = true /\ exists p, In p l /\ completePair p)
  /\ map (fun x => (qa_q x, qa_a x))
         (payload_pairs (exportPayload toLowerCase now meta l))
     = map (fun p => (trim (pair_q p), trim (pair_a p))) l
  /\ length (payload_pairs (exportPayload toLowerCase now meta l)) = length l.
Proof.
  split; [|split].
  - unfold isValid. rewrite andb_true_iff, existsb_exists.
    split; intros [Hm [p [Hp Hc]]]; (split; [exact Hm|]); exists p;
      (split; [exact Hp|]); apply pairComplete_iff; exact Hc.
  - simpl. rewrite map_map. apply map_ext. intros p. simpl.
    rewrite !strOr_nil. reflexivity.
  - simpl. apply length_map.
Qed.

(** C10.  When [botName] is empty or white space only, the payload's
    [bot.name] is ["Untitled Bot"]; [bot.lab] and [bot.owner_email] are the
    trimmed fields, so the empty string when those are blank; and a
    description that is empty after trimming is left out. *)
Theorem exportPayload_blank_name (toLowerCase : jsstring -> jsstring)
    (now : jsstring) (meta : BotMeta) (l : list QAPair) :
  trim (botName meta) = [] ->
  let b := payload_bot (exportPayload toLowerCase now meta l) in
  bot_name b = lit "Untitled Bot"
  /\ bot_lab b = trim (lab meta)
  /\ bot_owner_email b = trim (ownerEmail meta)
  /\ (trim (lab meta) = [] -> bot_lab b = [])
  /\ (trim (ownerEmail meta) = [] -> bot_owner_email b = [])
  /\ (forall d, description meta = Some d -> trim d = [] ->
      bot_description b = None)
  /\ (description meta = None -> bot_description b = None).
Proof.
  intros Hn. simpl. rewrite Hn, !strOr_nil. repeat split.
  - intros H; exact H.
  - intros H; exact H.
  - intros d -> Hd. rewrite Hd. reflexivity.
  - intros ->. reflexivity.
Qed.

Lemma exportPayload_blank_name_witness :
  trim (botName metaBlank) = []
  /\ bot_name (payload_bot (exportPayload asciiLower [] metaBlank somePairs))
     = lit "Untitled Bot".
Proof.
  split; [reflexivity|].
  apply (exportPayload_blank_name asciiLower [] metaBlank somePairs).
  reflexivity.
Defined.

(** ** Editing the working set *)

Lemma filter_other_ids (id : jsstring) (l : list QAPair) :
  ~ In id (map pair_id l) ->
  filter (fun p => negb (str_eqb (pair_id p) id)) l = l.
Proof.
  induction l as [|p l IH]; simpl; [reflexivity|].
  intros H. destruct (str_eqb (pair_id p) id) eqn:E; simpl.
  - apply str_eqb_eq in E. exfalso. apply H. left. exact E.
  - rewrite IH; [reflexivity|]. intros Hin. apply H. right. exact Hin.
Qed.

(** With unique identifiers, the filter of [removePair] takes out one pair. *)
Lemma filter_unique_id (id : jsstring) (l1 l2 : list QAPair) (p : QAPair) :
  uniqueIds (l1 ++ p :: l2) -> pair_id p = id ->
  filter (fun x => negb (str_eqb (pair_id x) id)) (l1 ++ p :: l2) = l1 ++ l2.
Proof.
  unfold uniqueIds. intros U E. rewrite map_app in U. simpl in U.
  pose proof (NoDup_remove_2 _ _ _ U) as Hnot.
  rewrite E in Hnot. rewrite in_app_iff in Hnot.
  rewrite filter_app. simpl. rewrite E, str_eqb_refl. simpl.
  rewrite !filter_other_ids; tauto.
Qed.

Lemma removePair_small (id : jsstring) (prev : list QAPair) :
  length prev <= 1 -> removePair id prev = prev.
Proof.
  intros H. unfold removePair.
  destruct (Nat.leb_spec (length prev) 1); [reflexivity | lia].
Qed.

Lemma removePair_large (id : jsstring) (prev : list QAPair) :
  1 < length prev ->
  removePair id prev = filter (fun p => negb (str_eqb (pair_id p) id)) prev.
Proof.
  intros H. unfold removePair.
  destruct (Nat.leb_spec (length prev) 1); [lia | reflexivity].
Qed.

Lemma findIndex_lt (id : jsstring) (l : list QAPair) (i : nat) :
  findIndex id l = Some i -> i < length l.
Proof.
  revert i. induction l as [|p l IH]; simpl; intros i; [discriminate|].
  destruct (str_eqb (pair_id p) id).
  - intros E; injection E as <-. lia.
  - destruct (findIndex id l) as [j|]; [|discriminate].
    intros E; injection E as <-. specialize (IH j eq_refl). lia.
Qed.

Lemma length_removeAt (A : Type) (idx : nat) (l : list A) :
  idx < length l -> S (length (removeAt idx l)) = length l.
Proof.
  intros H. unfold removeAt.
  rewrite length_app, length_firstn, length_skipn. lia.
Qed.

Lemma length_insertAt (A : Type) (t : nat) (x : A) (l : list A) :
  length (insertAt t x l) = S (length l).
Proof.
  unfold insertAt. rewrite length_app. simpl.
  rewrite Nat.add_succ_r, <- length_app, firstn_skipn. reflexivity.
Qed.

Lemma movePair_length (id : jsstring) (dir : Z) (prev : list QAPair) :
  length (movePair id dir prev) = length prev.
Proof.
  unfold movePair. destruct (findIndex id prev) as [idx|] eqn:F; [|reflexivity].
  destruct ((Z.of_nat idx + dir <? 0)%Z
            || (Z.of_nat (length prev) <=? Z.of_nat idx + dir)%Z);
    [reflexivity|].
  destruct (nth_error prev idx); [|reflexivity].
  rewrite length_insertAt. apply length_removeAt, (findIndex_lt id), F.
Qed.

Lemma nonempty_length (A : Type) (l : list A) : l <> [] <-> 0 < length l.
Proof. destruct l; simpl; split; try lia; try congruence. Qed.

(** C9.  [removePair] leaves a list of at most one pair as it is.  On a
    longer list it keeps the pairs with another identifier, in their order,
    and takes out every pair with the given one: exactly one pair when the
    identifiers of the working set are unique, all of them otherwise.
    [addPair], [updatePair] and [movePair] always give a working set that is
    not empty from one that is not empty; [removePair] does so exactly when
    the set has one pair or some pair has another identifier, hence whenever
    the identifiers are unique. *)
Theorem pair_edits_keep_working_set (prev : list QAPair) (id : jsstring) :
  (length prev <= 1 -> removePair id prev = prev)
  /\ (1 < length prev ->
      removePair id prev
      = filter (fun p => negb (str_eqb (pair_id p) id)) prev
      /\ (forall p, In p (removePair id prev) <-> In p prev /\ pair_id p <> id)
      /\ (~ In id (map pair_id prev) -> removePair id prev = prev)
      /\ (uniqueIds prev ->
          forall l1 p l2, prev = l1 ++ p :: l2 -> pair_id p = id ->
            removePair id prev = l1 ++ l2))
  /\ (prev <> [] ->
      (removePair id prev <> [] <->
       length prev = 1 \/ exists p, In p prev /\ pair_id p <> id)
      /\ (uniqueIds prev -> removePair id prev <> [])
      /\ (forall newId, addPair newId prev <> [])
      /\ (forall patch, updatePair id patch prev <> [])
      /\ (forall dir, movePair id dir prev <> [])).
Proof.
  assert (Mem : forall p,
            In p (filter (fun x => negb (str_eqb (pair_id x) id)) prev)
            <-> In p prev /\ pair_id p <> id).
  { intros p. rewrite filter_In, negb_true_iff, str_eqb_neq. tauto. }
  split; [|split].
  - apply removePair_small.
  - intros H. rewrite (removePair_large id prev H).
    split; [reflexivity|]. split; [exact Mem|]. split.
    + apply filter_other_ids.
    + intros U l1 p l2 E Ep. subst prev. apply filter_unique_id; assumption.
  - intros Hne. split; [|split; [|split; [|split]]].
    + destruct (Nat.leb_spec (length prev) 1) as [Hs|Hl].
      * rewrite removePair_small by exact Hs. split; [|intros _; exact Hne].
        intros _. left. apply nonempty_length in Hne. lia.
      * rewrite (removePair_large id prev Hl). split.
        -- intros Hf. right.
           destruct (filter (fun x => negb (str_eqb (pair_id x) id)) prev)
             as [|p rest] eqn:E; [contradiction Hf; reflexivity|].
           exists p. apply Mem. left. reflexivity.
        -- intros [H1|[p Hp]]; [lia|]. apply Mem in Hp.
           intros E. rewrite E in Hp. exact Hp.
    + intros U. destruct (Nat.leb_spec (length prev) 1) as [Hs|Hl].
      * rewrite removePair_small by exact Hs. exact Hne.
      * rewrite (removePair_large id prev Hl).
        destruct (in_dec (list_eq_dec N.eq_dec) id (map pair_id prev))
          as [Hin|Hout].
        -- apply in_map_iff in Hin. destruct Hin as [p [E Hp]].
           apply in_split in Hp. destruct Hp as [l1 [l2 ->]].
           rewrite (filter_unique_id id l1 l2 p U E).
           rewrite length_app in Hl. simpl in Hl.
           apply nonempty_length. rewrite length_app. lia.
        -- rewrite filter_other_ids by exact Hout. exact Hne.
    + intros newId. unfold addPair. intros E.
      apply app_eq_nil in E. destruct E as [_ E]. discriminate E.
    + intros patch. apply nonempty_length. unfold updatePair.
      rewrite length_map. apply nonempty_length, Hne.
    + intros dir. apply nonempty_length. rewrite movePair_length.
      apply nonempty_length, Hne.
Qed.

Lemma pair_edits_keep_working_set_witness :
  uniqueIds somePairs
  /\ removePair (lit "2") somePairs = [pairRag]
  /\ removePair (lit "1") somePairs <> [].
Proof.
  assert (U : uniqueIds somePairs).
  { unfold uniqueIds. simpl. repeat constructor; simpl.
    - intros [H|[]]. discriminate H.
    - intros []. }
  split; [exact U|]. split.
  - destruct (pair_edits_keep_working_set somePairs (lit "2")) as [_ [H _]].
    destruct (H ltac:(simpl; lia)) as [_ [_ [_ H2]]].
    apply (H2 U [pairRag] pairBlank []); reflexivity.
  - destruct (pair_edits_keep_working_set somePairs (lit "1")) as [_ [_ H]].
    destruct (H ltac:(discriminate)) as [_ [H1 _]]. exact (H1 U).
Defined.

(** C9 as stated fails: of two pairs that share their identifier,
    [removePair] removes both, and the working set is empty. *)
Lemma removePair_shared_id_counterexample :
  length sharedIdPairs = 2
  /\ removePair (lit "1") sharedIdPairs = []
  /\ ~ uniqueIds sharedIdPairs.
Proof.
  split; [reflexivity|]. split; [reflexivity|].
  unfold uniqueIds. intros U. inversion U as [|x l Hx _]; subst.
  apply Hx. left. reflexivity.
Qed.

(** ** The pair extractor *)

Lemma find_none_iff (f : jsstring -> bool) (keys : list jsstring) :
  find f keys = None <-> forall k, In k keys -> f k = false.
Proof.
  induction keys as [|k keys IH]; simpl.
  - split; [intros _ k [] | reflexivity].
  - destruct (f k) eqn:Fk.
    + split; [discriminate|]. intros H. specialize (H k (or_introl eq_refl)).
      congruence.
    + rewrite IH. split.
      * intros H k' [<-|Hin]; auto.
      * intros H k' Hin. apply H. right. exact Hin.
Qed.

Lemma find_first (f : jsstring -> bool) (keys : list jsstring) (k : jsstring) :
  (exists before after,
     keys = before ++ k :: after /\ f k = true
     /\ forall k', In k' before -> f k' = false) ->
  find f keys = Some k.
Proof.
  intros [before [after [-> [Fk Hb]]]].
  induction before as [|b before IH]; simpl.
  - rewrite Fk. reflexivity.
  - rewrite (Hb b (or_introl eq_refl)). apply IH.
    intros k' Hin. apply Hb. right. exact Hin.
Qed.

Lemma mapM_Forall2 (A B : Type) (f : A -> result B) (l : list A)
    (l' : list B) :
  Forall2 (fun x y => f x = Ok y) l l' -> mapM f l = Ok l'.
Proof.
  induction 1 as [|x y l l' Hxy _ IH]; simpl; [reflexivity|].
  rewrite Hxy. simpl. rewrite IH. reflexivity.
Qed.

Lemma extractQAFromObject_absent (props : list (jsstring * value)) :
  nonePresent qKeys props \/ nonePresent aKeys props ->
  extractQAFromObject (VObj props) = Ok None.
Proof.
  intros H. unfold extractQAFromObject. cbn [truthy typeofObject negb orb].
  destruct H as [H|H].
  - apply (find_none_iff (fun k => hasProp k (VObj props))) in H.
    rewrite H. reflexivity.
  - apply (find_none_iff (fun k => hasProp k (VObj props))) in H.
    rewrite H. destruct (find _ qKeys); reflexivity.
Qed.

(** ** The import normaliser: falling through to the lines *)

Lemma jsonl_loop (lines : list jsstring) :
  forall acc,
    fold_left jsonlStep lines acc = acc ++ catOptions (map linePair lines).
Proof.
  induction lines as [|line lines IH]; intros acc; simpl.
  - rewrite app_nil_r. reflexivity.
  - rewrite IH. unfold jsonlStep, linePair.
    destruct (JSON_parse line) as [obj|e]; simpl.
    + destruct (extractItem obj) as [[qa|]|e]; simpl;
        [rewrite <- app_assoc|..]; reflexivity.
    + reflexivity.
Qed.

(** Whenever the [try] block does not return, the result is that of the
    lines. *)
Lemma parseAnyQAPairs_falls_through (text : jsstring) :
  (forall r, tryWholeText text <> Ok (Some r)) ->
  parseAnyQAPairs text = jsonlStrategy text.
Proof.
  intros H. unfold parseAnyQAPairs, jsonlStrategy.
  destruct (tryWholeText text) as [[r|]|e]; [elim (H r); reflexivity|..];
    rewrite jsonl_loop; simpl;
    destruct (1 <? length (jsonlLines text)); simpl; try reflexivity;
    destruct (catOptions (map linePair (jsonlLines text))); reflexivity.
Qed.


Lemma dropWhile_id (p : N -> bool) (s : jsstring) :
  (forall c, hd_error s = Some c -> p c = false) -> dropWhile p s = s.
Proof.
  destruct s as [|c s]; simpl; [reflexivity|].
  intros H. rewrite (H c eq_refl). reflexivity.
Qed.

Lemma trim_idempotent (s : jsstring) : trim (trim s) = trim s.
Proof.
  pose proof (trim_head_not_space s) as Hh.
  pose proof (trim_last_not_space s) as Hl.
  set (t := trim s) in *. unfold trim at 1, trimStart, trimEnd.
  rewrite (dropWhile_id isSpace t Hh).
  rewrite (dropWhile_id isSpace (rev t) Hl).
  apply rev_involutive.
Qed.




(** ** The errors of the [try] block never leave [parseAnyQAPairs] *)

Lemma parseAnyQAPairs_throws_unsupported_only (text : jsstring) (e : exn) :
  parseAnyQAPairs text = Throw e -> e = Error msgUnsupported.
Proof.
  unfold parseAnyQAPairs.
  destruct (tryWholeText text) as [[r|]|e']; [discriminate|..];
    (destruct (1 <? length (jsonlLines text));
     [destruct (fold_left jsonlStep (jsonlLines text) []); [|discriminate]|]);
    intros E; injection E as <-; reflexivity.
Qed.

(** A text in the full-export shape, all of whose [pairs] are rejected, is
    handed to the line-delimited strategy: the error of the export branch is
    thrown and caught. *)
Lemma export_without_pairs_falls_through (text : jsstring) (data : value) :
  JSON_parse text = Ok data ->
  isExportShape data = true ->
  extractAll (arrayItems (getProp data (lit "pairs"))) = Ok [] ->
  parseAnyQAPairs text = jsonlStrategy text
  /\ parseAnyQAPairs text <> Throw (Error msgNoPairsInExport).
Proof.
  intros P S X.
  assert (E : parseAnyQAPairs text = jsonlStrategy text).
  { apply parseAnyQAPairs_falls_through. intros r. unfold tryWholeText.
    rewrite P. simpl. unfold tryShapes. rewrite S.
    destruct (metaPatchOf _); simpl; [|discriminate].
    rewrite X. simpl. discriminate. }
  split; [exact E|]. intros T.
  apply parseAnyQAPairs_throws_unsupported_only in T.
  vm_compute in T. discriminate T.
Qed.

(** C1 (the code departs from the claim).  On [{"bot":{},"pairs":[]}] the
    export branch throws its "no valid items" error inside the [try] block,
    the bare [catch] swallows it, and the call fails with the "unsupported
    format" error instead; on a text in the same shape whose only record is
    rejected, and which is laid out so that one of its lines is a valid
    pair, the call succeeds with that pair. *)
Theorem export_error_is_swallowed :
  tryWholeText exportNoPairs = Throw (Error msgNoPairsInExport)
  /\ parseAnyQAPairs exportNoPairs = Throw (Error msgUnsupported)
  /\ msgUnsupported <> msgNoPairsInExport
  /\ tryWholeText exportNestedPair = Throw (Error msgNoPairsInExport)
  /\ parseAnyQAPairs exportNestedPair
     = Ok (mkImported None [mkQA (lit "a") (lit "b") None]).
Proof.
  repeat split; try (vm_compute; reflexivity).
  vm_compute. discriminate.
Qed.

(** ** The metadata patch of a full export *)

Lemma coerceStr_str (s : jsstring) : coerceStr (VStr s) = Ok (trim s).
Proof. reflexivity. Qed.






(** ** Importing an export *)

Lemma coerceStr_orElse_str (s dflt : jsstring) :
  coerceStr (orElse (VStr s) (VStr dflt))
  = Ok (if isEmpty s then trim dflt else trim s).
Proof. destruct s; reflexivity. Qed.

Lemma mapM_coerceStr_strs (ts : list jsstring) :
  mapM coerceStr (map VStr ts) = Ok (map trim ts).
Proof.
  induction ts as [|t ts IH]; simpl; [reflexivity|].
  rewrite IH. reflexivity.
Qed.

Lemma jsonView_strs (ts : list jsstring) :
  map jsonView (map VStr ts) = map VStr ts.
Proof. induction ts as [|t ts IH]; simpl; [|rewrite IH]; reflexivity. Qed.

Lemma numberOr_jsonView (x dflt : number) :
  numberOr (jsonView (VNum x)) dflt = numberRoundTrip x dflt.
Proof. destruct x; reflexivity. Qed.

(** The patch read from the [bot] object of a payload. *)
Lemma metaPatchOf_botValue (b : ExportBot) :
  metaPatchOf (jsonView (botValue b))
  = Ok (mkBotMeta
          (trim (bot_lab b)) (trim (bot_name b)) (trim (bot_owner_email b))
          (Some match bot_description b with Some d => trim d | None => [] end)
          (if isEmpty (bot_model b) then defaultBaseModel
           else trim (bot_model b))
          (if isEmpty (bot_embed_model b) then defaultEmbedModel
           else trim (bot_embed_model b))
          (numberRoundTrip (bot_temperature b) num_0_2)
          (numberRoundTrip (bot_top_p b) num_0_95)).
Proof.
  destruct b as [name lab_ email desc slug_ model embed temp top].
  unfold metaPatchOf.
  set (bot := jsonView (botValue
         (mkExportBot name lab_ email desc slug_ model embed temp top))).
  assert (Glab : getProp bot (lit "lab") = VStr lab_)
    by (destruct desc; reflexivity).
  assert (Gname : getProp bot (lit "name") = VStr name)
    by (destruct desc; reflexivity).
  assert (Gemail : getProp bot (lit "owner_email") = VStr email)
    by (destruct desc; reflexivity).
  assert (Gdesc : getProp bot (lit "description")
                  = match desc with Some d => VStr d | None => VUndefined end)
    by (destruct desc; reflexivity).
  assert (Gmodel : getProp bot (lit "model") = VStr model)
    by (destruct desc; reflexivity).
  assert (Gembed : getProp bot (lit "embed_model") = VStr embed)
    by (destruct desc; reflexivity).
  assert (Gtemp : getProp bot (lit "temperature") = jsonView (VNum temp))
    by (destruct desc; reflexivity).
  assert (Gtop : getProp bot (lit "top_p") = jsonView (VNum top))
    by (destruct desc; reflexivity).
  rewrite Glab, Gname, Gemail, Gdesc, Gmodel, Gembed, Gtemp, Gtop.
  cbn [bot_lab bot_name bot_owner_email bot_description bot_model
       bot_embed_model bot_temperature bot_top_p].
  rewrite !coerceStr_orElse_str. cbn [bind].
  assert (D : coerceStr (orElse match desc with
                                | Some d => VStr d
                                | None => VUndefined
                                end (VStr []))
              = Ok match desc with Some d => trim d | None => [] end).
  { destruct desc as [[|c d]|]; reflexivity. }
  rewrite D. cbn [bind].
  rewrite !numberOr_jsonView.
  replace (if isEmpty lab_ then trim [] else trim lab_) with (trim lab_)
    by (destruct lab_; reflexivity).
  replace (if isEmpty name then trim [] else trim name) with (trim name)
    by (destruct name; reflexivity).
  replace (if isEmpty email then trim [] else trim email) with (trim email)
    by (destruct email; reflexivity).
  reflexivity.
Qed.

(** The pair read from a pair object of a payload. *)
Lemma extractItem_pairValue (x : QA) :
  extractItem (jsonView (pairValue x))
  = Ok (if isEmpty (trim (qa_q x)) || isEmpty (trim (qa_a x)) then None
        else Some (mkQA (trim (qa_q x)) (trim (qa_a x))
                     match qa_tags x with
                     | Some ts => tagsOrAbsent (filter nonEmpty (map trim ts))
                     | None => None
                     end)).
Proof.
  destruct x as [q a [ts|]]; cbn [qa_q qa_a qa_tags].
  - change (jsonView (pairValue (mkQA q a (Some ts))))
      with (VObj [(lit "q", VStr q); (lit "a", VStr a);
                  (lit "tags", VArr (map jsonView (map VStr ts)))]).
    rewrite jsonView_strs.
    unfold extractItem, extractQAFromObject.
    cbn [isArray truthy typeofObject negb orb].
    change (find (fun k => hasProp k _) qKeys) with (Some (lit "q")).
    change (find (fun k => hasProp k _) aKeys) with (Some (lit "a")).
    cbv beta iota.
    change (getProp _ (lit "q")) with (VStr q).
    change (getProp _ (lit "a")) with (VStr a).
    change (getProp _ (lit "tags")) with (VArr (map VStr ts)).
    rewrite !coerceStr_str. cbn [bind].
    destruct (isEmpty (trim q) || isEmpty (trim a)); [reflexivity|].
    rewrite mapM_coerceStr_strs. reflexivity.
  - change (jsonView (pairValue (mkQA q a None)))
      with (VObj [(lit "q", VStr q); (lit "a", VStr a)]).
    unfold extractItem, extractQAFromObject.
    cbn [isArray truthy typeofObject negb orb].
    change (find (fun k => hasProp k _) qKeys) with (Some (lit "q")).
    change (find (fun k => hasProp k _) aKeys) with (Some (lit "a")).
    cbv beta iota.
    change (getProp _ (lit "q")) with (VStr q).
    change (getProp _ (lit "a")) with (VStr a).
    change (getProp _ (lit "tags")) with VUndefined.
    rewrite !coerceStr_str. cbn [bind].
    destruct (isEmpty (trim q) || isEmpty (trim a)); reflexivity.
Qed.

Lemma extractItem_exportPair (p : QAPair) :
  extractItem (jsonView (pairValue (exportPair p))) = Ok (recoveredPair p).
Proof.
  rewrite extractItem_pairValue. unfold exportPair, recoveredPair.
  cbn [qa_q qa_a qa_tags]. rewrite !strOr_nil, !trim_idempotent.
  destruct (isEmpty (trim (pair_q p)) || isEmpty (trim (pair_a p)));
    [reflexivity|].
  destruct (pair_tags p) as [[|t ts]|]; try reflexivity.
  cbn [keepTags]. unfold tagsOrAbsent.
  destruct (filter nonEmpty (map trim (t :: ts))); reflexivity.
Qed.

Lemma extractAll_exported (l : list QAPair) :
  extractAll (map jsonView (map pairValue (map exportPair l)))
  = Ok (catOptions (map recoveredPair l)).
Proof.
  unfold extractAll.
  assert (M : mapM extractItem (map jsonView (map pairValue (map exportPair l)))
              = Ok (map recoveredPair l)).
  { induction l as [|p l IH]; [reflexivity|].
    cbn [map mapM]. rewrite extractItem_exportPair, IH. reflexivity. }
  rewrite M. reflexivity.
Qed.

Lemma recovered_not_empty (l : list QAPair) :
  (exists p, In p l /\ completePair p) ->
  catOptions (map recoveredPair l) <> [].
Proof.
  intros [p [Hin [Hq Ha]]]. induction l as [|x l IH]; [contradiction Hin|].
  cbn [map catOptions]. destruct Hin as [->|Hin].
  - unfold recoveredPair.
    rewrite (isEmpty_false _ Hq), (isEmpty_false _ Ha). discriminate.
  - destruct (recoveredPair x); [discriminate | apply IH, Hin].
Qed.

Lemma recoveredMeta_of_export (toLowerCase : jsstring -> jsstring)
    (now : jsstring) (meta : BotMeta) (l : list QAPair) :
  trim (botName meta) <> [] ->
  metaPatchOf (jsonView (botValue
     (payload_bot (exportPayload toLowerCase now meta l))))
  = Ok (recoveredMeta meta).
Proof.
  intros Hn. rewrite metaPatchOf_botValue. unfold recoveredMeta.
  cbn [exportPayload payload_bot bot_lab bot_name bot_owner_email
       bot_description bot_model bot_embed_model bot_temperature bot_top_p].
  rewrite !strOr_nil, !trim_idempotent.
  assert (En : trim (strOr (trim (botName meta)) (lit "Untitled Bot"))
               = trim (botName meta)).
  { unfold strOr. apply nonEmpty_true_iff in Hn. rewrite Hn.
    apply trim_idempotent. }
  assert (Ed : match
                 match description meta with
                 | Some d => if nonEmpty (trim d) then Some (trim d) else None
                 | None => None
                 end
               with
               | Some d => trim d
               | None => []
               end
               = match description meta with Some d => trim d | None => [] end).
  { destruct (description meta) as [d|]; [|reflexivity].
    destruct (trim d) as [|c t] eqn:E; [reflexivity|].
    cbn [nonEmpty isEmpty negb]. rewrite <- E. apply trim_idempotent. }
  assert (Em : forall m dflt, trim dflt = dflt -> nonEmpty dflt = true ->
               (if isEmpty (strOr m dflt) then dflt else trim (strOr m dflt))
               = (if isEmpty m then dflt else trim m)).
  { intros m dflt T Hd. destruct m as [|c m]; cbn [strOr nonEmpty isEmpty negb].
    - destruct dflt; [discriminate Hd | exact T].
    - reflexivity. }
  rewrite En, Ed.
  rewrite (Em (baseModel meta) defaultBaseModel eq_refl eq_refl).
  rewrite (Em (embedModel meta) defaultEmbedModel eq_refl eq_refl).
  reflexivity.
Qed.

Lemma recovered_clean (l : list QAPair) :
  Forall cleanPair l -> catOptions (map recoveredPair l) = map pairContent l.
Proof.
  intros Hc. induction Hc as [|p l' Hp _ IH]; [reflexivity|].
  assert (R : recoveredPair p = Some (pairContent p)).
  { destruct Hp as [Nq [Tq [Na [Ta Ht]]]].
    unfold recoveredPair. rewrite Tq, Ta.
    rewrite (isEmpty_false _ Nq), (isEmpty_false _ Na). cbn [orb].
    unfold pairContent. do 2 f_equal.
    destruct (pair_tags p) as [ts|]; [|reflexivity].
    specialize (Ht ts eq_refl).
    assert (F : filter nonEmpty (map trim ts) = ts).
    { induction Ht as [|t ts' [Nt Tt] _ IHt]; [reflexivity|].
      cbn [map filter]. rewrite Tt.
      apply nonEmpty_true_iff in Nt. rewrite Nt, IHt. reflexivity. }
    rewrite F. destruct ts; reflexivity. }
  cbn [map]. rewrite R. cbn [catOptions]. rewrite IH. reflexivity.
Qed.

(** C2 (amended).  For metadata that passes [validateMeta] and a working set
    with at least one complete pair, [parseAnyQAPairs] on a JSON
    serialisation of the export payload returns through the full-export
    branch.  The patch holds [lab], [botName], [ownerEmail] and [description]
    trimmed (the description empty when there was none), [baseModel] and
    [embedModel] trimmed, or their defaults when the metadata had them empty,
    and [temperature] and [topP] when they are finite, or their defaults
    when they are not.  The pairs are those of the working set whose question
    and answer are not blank, in order, trimmed, with their tags trimmed, the
    empty tags dropped, and no tags when none is left; the blank pairs are
    dropped.  On a working set of clean pairs these are the original pairs
    without their identifiers. *)
Theorem export_import_round_trip (toLowerCase : jsstring -> jsstring)
    (now : jsstring) (meta : BotMeta) (l : list QAPair) (text : jsstring) :
  validateMeta meta = true ->
  (exists p, In p l /\ completePair p) ->
  serialises text (payloadValue (exportPayload toLowerCase now meta l)) ->
  parseAnyQAPairs text
  = Ok (mkImported (Some (recoveredMeta meta))
          (catOptions (map recoveredPair l)))
  /\ tryWholeText text
     = Ok (Some (mkImported (Some (recoveredMeta meta))
                   (catOptions (map recoveredPair l))))
  /\ (Forall cleanPair l ->
      catOptions (map recoveredPair l) = map pairContent l).
Proof.
  intros V C S.
  apply validateMeta_true_iff in V. destruct V as [_ [Hn _]].
  assert (T : tryWholeText text
              = Ok (Some (mkImported (Some (recoveredMeta meta))
                            (catOptions (map recoveredPair l))))).
  { unfold tryWholeText. unfold serialises in S. rewrite S. cbn [bind].
    unfold tryShapes.
    change (isExportShape _) with true. cbv iota.
    change (coalesce (getProp _ (lit "bot")) (VObj []))
      with (jsonView (botValue
              (payload_bot (exportPayload toLowerCase now meta l)))).
    rewrite (recoveredMeta_of_export toLowerCase now meta l Hn). cbn [bind].
    change (arrayItems (getProp _ (lit "pairs")))
      with (map jsonView (map pairValue (map exportPair l))).
    rewrite extractAll_exported. cbn [bind].
    pose proof (recovered_not_empty l C) as Hne.
    destruct (catOptions (map recoveredPair l)); [contradiction Hne|];
      reflexivity. }
  split; [|split; [exact T|]].
  - unfold parseAnyQAPairs. rewrite T. reflexivity.
  - apply recovered_clean.
Qed.

Lemma export_import_round_trip_witness :
  validateMeta metaNoModel = true
  /\ serialises exportedJson
       (payloadValue (exportPayload asciiLower sampleNow metaNoModel workingSet))
  /\ parseAnyQAPairs exportedJson
     = Ok (mkImported (Some (recoveredMeta metaNoModel))
             (catOptions (map recoveredPair workingSet))).
Proof.
  assert (V : validateMeta metaNoModel = true) by (vm_compute; reflexivity).
  assert (S : serialises exportedJson
                (payloadValue
                   (exportPayload asciiLower sampleNow metaNoModel workingSet)))
    by (vm_compute; reflexivity).
  assert (C : exists p, In p workingSet /\ completePair p).
  { exists pairRag. split; [left; reflexivity|].
    split; vm_compute; discriminate. }
  split; [exact V|]. split; [exact S|].
  apply (export_import_round_trip asciiLower sampleNow metaNoModel workingSet
           exportedJson V C S).
Defined.

(** C2 as stated fails: metadata that passes [validateMeta] with an empty
    base model, exported with one clean pair and imported, comes back with
    the default base model, which is not the trimmed field. *)
Lemma round_trip_empty_model_counterexample :
  validateMeta metaEmptyModel = true
  /\ Forall cleanPair [pairRag]
  /\ serialises exportedEmptyModel
       (payloadValue
          (exportPayload asciiLower sampleNow metaEmptyModel [pairRag]))
  /\ exists patch found,
       parseAnyQAPairs exportedEmptyModel = Ok (mkImported (Some patch) found)
       /\ baseModel patch = lit "qwen2.5:7b-instruct"
       /\ trim (baseModel metaEmptyModel) = []
       /\ baseModel patch <> trim (baseModel metaEmptyModel).
Proof.
  split; [vm_compute; reflexivity|].
  split.
  { constructor; [|constructor]. unfold cleanPair.
    cbn [pairRag pair_q pair_a pair_tags].
    split; [discriminate|]. split; [vm_compute; reflexivity|].
    split; [discriminate|]. split; [vm_compute; reflexivity|].
    intros ts E. injection E as <-. constructor. }
  split; [vm_compute; reflexivity|].
  eexists. eexists. split; [vm_compute; reflexivity|].
  split; [reflexivity|]. split; [reflexivity|]. discriminate.
Qed.

(** ** Further properties of the extractor and of the normaliser *)

(** Whatever the text, the only error that leaves [parseAnyQAPairs] is the
    unsupported-format one: the errors of the three shapes are caught. *)
Theorem only_unsupported_is_reported (text : jsstring) (e : exn) :
  parseAnyQAPairs text = Throw e -> e = Error msgUnsupported.
Proof. apply parseAnyQAPairs_throws_unsupported_only. Qed.

Lemma only_unsupported_is_reported_witness :
  parseAnyQAPairs exportNoPairs = Throw (Error msgUnsupported)
  /\ Error msgUnsupported = Error msgUnsupported.
Proof.
  assert (H : parseAnyQAPairs exportNoPairs = Throw (Error msgUnsupported))
    by (vm_compute; reflexivity).
  split; [exact H|].
  apply (only_unsupported_is_reported exportNoPairs _ H).
Defined.

(** ** The identifiers of the working set stay unique *)

Lemma NoDup_ids_filter (f : QAPair -> bool) (l : list QAPair) :
  uniqueIds l -> uniqueIds (filter f l).
Proof.
  unfold uniqueIds. induction l as [|p l IH]; simpl; [auto|].
  intros U. inversion U as [|? ? Hnot U']; subst.
  destruct (f p); simpl; [|auto].
  constructor; [|auto]. intros Hin. apply Hnot.
  apply in_map_iff in Hin. destruct Hin as [x [E Hx]].
  apply filter_In in Hx. apply in_map_iff. exists x. tauto.
Qed.

Lemma findIndex_nth (id : jsstring) (l : list QAPair) (i : nat) :
  findIndex id l = Some i -> exists p, nth_error l i = Some p /\ pair_id p = id.
Proof.
  revert i. induction l as [|x l IH]; simpl; intros i; [discriminate|].
  destruct (str_eqb (pair_id x) id) eqn:E.
  - intros H; injection H as <-. exists x. apply str_eqb_eq in E. auto.
  - destruct (findIndex id l) as [j|]; [|discriminate].
    intros H; injection H as <-. apply (IH j eq_refl).
Qed.

Lemma removeAt_insertAt_perm (A : Type) (l : list A) (idx t : nat) (x : A) :
  nth_error l idx = Some x ->
  Permutation (insertAt t x (removeAt idx l)) l.
Proof.
  intros H. unfold insertAt.
  apply Permutation_trans with (x :: removeAt idx l).
  - symmetry. rewrite <- (firstn_skipn t (removeAt idx l)) at 1.
    apply Permutation_middle.
  - unfold removeAt. apply nth_error_split in H.
    destruct H as [l1 [l2 [-> Hlen]]].
    rewrite <- Hlen.
    rewrite firstn_app, firstn_all, Nat.sub_diag, app_nil_r.
    change (S (length l1)) with (1 + length l1).
    rewrite <- skipn_skipn, skipn_app, skipn_all, Nat.sub_diag.
    simpl. apply Permutation_middle.
Qed.

Lemma movePair_perm (id : jsstring) (dir : Z) (prev : list QAPair) :
  Permutation (movePair id dir prev) prev.
Proof.
  unfold movePair. destruct (findIndex id prev) as [idx|]; [|reflexivity].
  destruct ((Z.of_nat idx + dir <? 0)%Z
            || (Z.of_nat (length prev) <=? Z.of_nat idx + dir)%Z);
    [reflexivity|].
  destruct (nth_error prev idx) as [item|] eqn:E; [|reflexivity].
  apply removeAt_insertAt_perm, E.
Qed.

(** The edits keep the identifiers unique: removing and moving always,
    updating with a patch that leaves the identifier alone, and adding with
    an identifier that is not in use. *)
Theorem edits_keep_ids_unique (prev : list QAPair) (id : jsstring) :
  uniqueIds prev ->
  uniqueIds (removePair id prev)
  /\ (forall dir, uniqueIds (movePair id dir prev))
  /\ (forall patch, patch_id patch = None ->
        uniqueIds (updatePair id patch prev))
  /\ (forall newId, ~ In newId (map pair_id prev) ->
        uniqueIds (addPair newId prev)).
Proof.
  intros U. split; [|split; [|split]].
  - unfold removePair. destruct (length prev <=? 1); [exact U|].
    apply NoDup_ids_filter, U.
  - intros dir. unfold uniqueIds.
    apply Permutation_NoDup with (map pair_id prev); [|exact U].
    apply Permutation_map. symmetry. apply movePair_perm.
  - intros patch Hp. unfold uniqueIds, updatePair. rewrite map_map.
    replace (map _ prev) with (map pair_id prev); [exact U|].
    apply map_ext. intros p. destruct (str_eqb (pair_id p) id); [|reflexivity].
    unfold applyPatch. simpl. rewrite Hp. reflexivity.
  - intros newId Hn. unfold uniqueIds, addPair. rewrite map_app. simpl.
    apply NoDup_app; [exact U | repeat constructor; intros [] |].
    intros x Hx [<-|[]]. contradiction.
Qed.

Lemma edits_keep_ids_unique_witness :
  uniqueIds somePairs /\ uniqueIds (movePair (lit "2") (-1) somePairs).
Proof.
  assert (U : uniqueIds somePairs).
  { unfold uniqueIds. simpl. repeat constructor; simpl.
    - intros [H|[]]. discriminate H.
    - intros []. }
  split; [exact U|].
  destruct (edits_keep_ids_unique somePairs (lit "2") U) as [_ [H _]].
  apply H.
Defined.

Lemma export_without_pairs_falls_through_witness :
  JSON_parse exportNoPairs
  = Ok (VObj [(lit "bot", VObj []); (lit "pairs", VArr [])])
  /\ parseAnyQAPairs exportNoPairs = jsonlStrategy exportNoPairs.
Proof.
  assert (P : JSON_parse exportNoPairs
              = Ok (VObj [(lit "bot", VObj []); (lit "pairs", VArr [])]))
    by (vm_compute; reflexivity).
  split; [exact P|].
  apply (export_without_pairs_falls_through exportNoPairs _ P);
    reflexivity.
Defined.

(* ================================================================== *)
(** * Further properties of the code *)

(** ** The tags field: reading back what it shows *)

Lemma splitOn_whole (sep : N) (t : jsstring) :
  Forall (fun c => N.eqb c sep = false) t ->
  forall acc, splitOn sep acc t = [rev acc ++ t].
Proof.
  induction 1 as [|c t Hc _ IH]; intros acc; simpl.
  - rewrite app_nil_r. reflexivity.
  - rewrite Hc, IH. simpl. rewrite <- app_assoc. reflexivity.
Qed.

Lemma splitOn_first (sep : N) (t rest : jsstring) :
  Forall (fun c => N.eqb c sep = false) t ->
  forall acc,
    splitOn sep acc (t ++ sep :: rest)
    = (rev acc ++ t) :: splitOn sep [] rest.
Proof.
  induction 1 as [|c t Hc _ IH]; intros acc; simpl.
  - rewrite N.eqb_refl, app_nil_r. reflexivity.
  - rewrite Hc, IH. simpl. rewrite <- app_assoc. reflexivity.
Qed.

Lemma splitOn_parts_no_sep (sep : N) (s : jsstring) :
  forall acc,
    Forall (fun c => N.eqb c sep = false) acc ->
    Forall (Forall (fun c => N.eqb c sep = false)) (splitOn sep acc s).
Proof.
  induction s as [|c s IH]; intros acc Hacc; simpl.
  - constructor; [apply Forall_rev, Hacc | constructor].
  - destruct (N.eqb c sep) eqn:E.
    + constructor; [apply Forall_rev, Hacc | apply IH; constructor].
    + apply IH. constructor; assumption.
Qed.

Lemma split_join (ts : list jsstring) :
  Forall noComma ts -> ts <> [] ->
  splitOn comma [] (joinWith [comma] ts) = ts.
Proof.
  induction 1 as [|t ts Ht Hts IH]; intros Hne; [contradiction Hne; reflexivity|].
  destruct ts as [|u ts'].
  - simpl. apply (splitOn_whole comma t Ht []).
  - change (joinWith [comma] (t :: u :: ts'))
      with (t ++ comma :: joinWith [comma] (u :: ts')).
    rewrite (splitOn_first comma t _ Ht []). simpl rev. simpl app at 1.
    rewrite IH by discriminate. reflexivity.
Qed.

Lemma filter_trim_clean (ts : list jsstring) :
  Forall cleanText ts -> filter nonEmpty (map trim ts) = ts.
Proof.
  induction 1 as [|t ts [Nt Tt] _ IH]; [reflexivity|].
  cbn [map filter]. rewrite Tt.
  apply nonEmpty_true_iff in Nt. rewrite Nt, IH. reflexivity.
Qed.

Lemma filter_trim_gives_clean (l : list jsstring) :
  Forall cleanText (filter nonEmpty (map trim l)).
Proof.
  apply Forall_forall. intros t Ht. apply filter_In in Ht.
  destruct Ht as [Hin Hne]. apply nonEmpty_true_iff in Hne.
  split; [exact Hne|]. apply in_map_iff in Hin.
  destruct Hin as [x [<- _]]. apply trim_idempotent.
Qed.

(** The tags read from the field are trimmed, not empty and without comma;
    tags of that kind are read back from the text that the field shows for
    them, so that reading, showing and reading again changes nothing; and
    the field of a pair without tags reads as no tag. *)
Theorem tags_field_round_trip (text : jsstring) (ts : list jsstring) :
  Forall (fun t => cleanText t /\ noComma t) (parseTagsField text)
  /\ (Forall (fun t => cleanText t /\ noComma t) ts ->
      parseTagsField (tagsFieldValue (Some ts)) = ts)
  /\ parseTagsField (tagsFieldValue (Some (parseTagsField text)))
     = parseTagsField text
  /\ parseTagsField (tagsFieldValue None) = []
  /\ parseTagsField (tagsFieldValue (Some [])) = [].
Proof.
  assert (Out : Forall (fun t => cleanText t /\ noComma t)
                  (parseTagsField text)).
  { unfold parseTagsField. apply Forall_forall. intros t Ht. split.
    - pose proof (filter_trim_gives_clean (splitOn comma [] text)) as C.
      rewrite Forall_forall in C. apply C, Ht.
    - apply filter_In in Ht. destruct Ht as [Hin _].
      apply in_map_iff in Hin. destruct Hin as [x [<- Hx]].
      apply Forall_trim.
      pose proof (splitOn_parts_no_sep comma text [] (Forall_nil _)) as P.
      rewrite Forall_forall in P. apply P, Hx. }
  assert (Back : forall l, Forall (fun t => cleanText t /\ noComma t) l ->
                           parseTagsField (tagsFieldValue (Some l)) = l).
  { intros l Hl. unfold parseTagsField, tagsFieldValue.
    destruct l as [|t l']; [reflexivity|].
    rewrite split_join;
      [|eapply Forall_impl; [|exact Hl]; intros a [_ Ha]; exact Ha
       |discriminate].
    apply filter_trim_clean. eapply Forall_impl; [|exact Hl].
    intros a [Ha _]; exact Ha. }
  split; [exact Out|]. split; [apply Back|].
  split; [apply Back, Out|]. split; reflexivity.
Qed.

Lemma tags_field_round_trip_witness :
  parseTagsField (lit " syllabus, ,office-hours ,")
  = [lit "syllabus"; lit "office-hours"]
  /\ parseTagsField
       (tagsFieldValue (Some [lit "syllabus"; lit "office-hours"]))
     = [lit "syllabus"; lit "office-hours"].
Proof.
  split; [reflexivity|].
  destruct (tags_field_round_trip [] [lit "syllabus"; lit "office-hours"])
    as [_ [H _]].
  apply H. repeat constructor; try discriminate.
Defined.

(** ** The sanitiser of the import text *)

Lemma stripScan_dropping (s : jsstring) (d : N) (rest : jsstring) :
  closingAfterSpaces s = Some (d, rest) ->
  stripScan true s = d :: stripScan false rest.
Proof.
  induction s as [|c s IH]; simpl; [discriminate|].
  destruct (isClosing c) eqn:Cc.
  - intros E. injection E as <- <-.
    assert (Sc : isSpace c = false).
    { unfold isClosing in Cc. apply orb_true_iff in Cc.
      destruct Cc as [E|E]; apply N.eqb_eq in E; subst; reflexivity. }
    assert (Nc : N.eqb c comma = false).
    { unfold isClosing in Cc. apply orb_true_iff in Cc.
      destruct Cc as [E|E]; apply N.eqb_eq in E; subst; reflexivity. }
    rewrite Sc, Nc. reflexivity.
  - destruct (isSpace c) eqn:Sc; [|discriminate].
    intros E. simpl. apply IH, E.
Qed.

(** The replacement, match by match: a comma that white space and a closing
    bracket follow is replaced, with that white space, by nothing, and the
    scan goes on after the bracket; any other code unit is kept. *)
Lemma stripTrailingCommas_step (c : N) (s : jsstring) :
  stripTrailingCommas (c :: s)
  = if N.eqb c comma then
      match closingAfterSpaces s with
      | Some (d, rest) => d :: stripTrailingCommas rest
      | None => c :: stripTrailingCommas s
      end
    else c :: stripTrailingCommas s.
Proof.
  unfold stripTrailingCommas. cbn [stripScan andb].
  destruct (N.eqb c comma); [|reflexivity].
  destruct (closingAfterSpaces s) as [[d rest]|] eqn:E; [|reflexivity].
  cbn [andb]. apply stripScan_dropping, E.
Qed.

Lemma closingAfterSpaces_shape (s : jsstring) (d : N) (rest : jsstring) :
  closingAfterSpaces s = Some (d, rest) ->
  exists sp, s = sp ++ d :: rest /\ forallb isSpace sp = true
             /\ isClosing d = true.
Proof.
  revert d rest. induction s as [|c s IH]; simpl; intros d rest;
    [discriminate|].
  destruct (isClosing c) eqn:Cc.
  - intros E. injection E as <- <-. exists []. auto.
  - destruct (isSpace c) eqn:Sc; [|discriminate].
    intros E. destruct (IH d rest E) as [sp [-> [F Cd]]].
    exists (c :: sp). simpl. rewrite Sc, F. auto.
Qed.

Lemma filter_spaces_nil (sp : jsstring) :
  forallb isSpace sp = true ->
  filter (fun c => negb (commaOrSpace c)) sp = [].
Proof.
  induction sp as [|c sp IH]; simpl; [reflexivity|].
  rewrite andb_true_iff. intros [Sc F]. unfold commaOrSpace at 1.
  rewrite Sc, orb_true_r. simpl. apply IH, F.
Qed.

Lemma stripTrailingCommas_strong (n : nat) :
  forall s, length s <= n ->
    filter (fun c => negb (commaOrSpace c)) (stripTrailingCommas s)
    = filter (fun c => negb (commaOrSpace c)) s
    /\ length (stripTrailingCommas s) <= length s.
Proof.
  induction n as [|n IH]; intros s Hn.
  - destruct s; [split; [reflexivity | simpl; lia] | simpl in Hn; lia].
  - destruct s as [|c s]; [split; [reflexivity | simpl; lia]|].
    simpl in Hn. rewrite stripTrailingCommas_step.
    assert (Keep : filter (fun x => negb (commaOrSpace x))
                     (c :: stripTrailingCommas s)
                   = filter (fun x => negb (commaOrSpace x)) (c :: s)
                   /\ length (c :: stripTrailingCommas s) <= length (c :: s)).
    { destruct (IH s ltac:(lia)) as [F L]. simpl. rewrite F.
      split; [reflexivity | lia]. }
    destruct (N.eqb c comma) eqn:Ec; [|exact Keep].
    destruct (closingAfterSpaces s) as [[d rest]|] eqn:E; [|exact Keep].
    apply closingAfterSpaces_shape in E. destruct E as [sp [-> [Fsp Cd]]].
    rewrite length_app in Hn. simpl in Hn.
    destruct (IH rest ltac:(lia)) as [F L]. split.
    + assert (Fc : filter (fun x => negb (commaOrSpace x)) [c] = []).
      { simpl. unfold commaOrSpace. rewrite Ec. reflexivity. }
      change (d :: stripTrailingCommas rest)
        with ([d] ++ stripTrailingCommas rest).
      change (c :: sp ++ d :: rest) with ([c] ++ sp ++ [d] ++ rest).
      rewrite !filter_app, F, Fc, (filter_spaces_nil sp Fsp). reflexivity.
    + simpl. rewrite length_app. simpl. lia.
Qed.

Lemma stripTrailingCommas_fixed (s : jsstring) :
  (forall pre post, s = pre ++ comma :: post -> closingAfterSpaces post = None) ->
  stripTrailingCommas s = s.
Proof.
  induction s as [|c s IH]; intros H; [reflexivity|].
  rewrite stripTrailingCommas_step.
  assert (Es : stripTrailingCommas s = s).
  { apply IH. intros pre post E. apply (H (c :: pre) post).
    rewrite E. reflexivity. }
  destruct (N.eqb_spec c comma) as [->|Hc]; [|rewrite Es; reflexivity].
  rewrite (H [] s eq_refl), Es. reflexivity.
Qed.

(** The sanitiser removes commas and white space only, and never adds
    anything: the other code units of the text stay, in their order.  A text
    in which no comma is followed by white space and a closing bracket or
    brace is left as it is. *)
Theorem stripTrailingCommas_effect (s : jsstring) :
  filter (fun c => negb (commaOrSpace c)) (stripTrailingCommas s)
  = filter (fun c => negb (commaOrSpace c)) s
  /\ length (stripTrailingCommas s) <= length s
  /\ ((forall pre post,
         s = pre ++ comma :: post -> closingAfterSpaces post = None) ->
      stripTrailingCommas s = s)
  /\ (noComma s -> stripTrailingCommas s = s).
Proof.
  destruct (stripTrailingCommas_strong (length s) s (le_n _)) as [F L].
  split; [exact F|]. split; [exact L|].
  split; [apply stripTrailingCommas_fixed|].
  intros Hn. apply stripTrailingCommas_fixed. intros pre post E.
  exfalso. unfold noComma in Hn. rewrite E in Hn.
  apply Forall_app in Hn. destruct Hn as [_ Hn].
  inversion Hn as [|? ? Hc _]; subst. rewrite N.eqb_refl in Hc.
  discriminate Hc.
Qed.

Lemma stripTrailingCommas_effect_witness :
  stripTrailingCommas (litq "[['q','a'] , ] ") = litq "[['q','a'] ] "
  /\ stripTrailingCommas (lit "{}") = lit "{}".
Proof.
  split; [reflexivity|].
  destruct (stripTrailingCommas_effect (lit "{}")) as [_ [_ [_ H]]].
  apply H. repeat constructor.
Defined.

(** ** [coerceStr]: when it throws, and what it returns *)

Lemma value_nested_ind (P : value -> Prop) :
  P VUndefined -> P VNull -> (forall b, P (VBool b)) ->
  (forall x, P (VNum x)) -> (forall s, P (VStr s)) ->
  (forall items, Forall P items -> P (VArr items)) ->
  (forall props, P (VObj props)) ->
  forall v, P v.
Proof.
  intros Hu Hn Hb Hx Hs Ha Ho. fix IH 1.
  intros [ | | b | x | s | items | props];
    [exact Hu | exact Hn | apply Hb | apply Hx | apply Hs | | apply Ho].
  apply Ha. revert items. fix IHl 1. intros [|x l].
  - constructor.
  - constructor; [apply IH | apply IHl].
Qed.

Lemma toStringValue_spec (v : value) :
  (stringifiable v = true -> exists s, toStringValue v = Ok s)
  /\ (stringifiable v = false -> toStringValue v = Throw TypeError).
Proof.
  induction v as [ | | b | x | s | items IH | props] using value_nested_ind;
    try (split; [intros _; eexists; reflexivity | discriminate]).
  - split; [intros _; destruct b; eexists; reflexivity | discriminate].
  - cbn [stringifiable toStringValue].
    induction IH as [|x rest Hx _ IHrest]; [split; [eauto | discriminate]|].
    destruct Hx as [Hok Hno]. destruct IHrest as [Rok Rno].
    assert (Hd : (if nullish x then Ok [] else toStringValue x)
                 = (if nullish x then Ok [] else toStringValue x)) by auto.
    split.
    + intros E. apply andb_true_iff in E. destruct E as [Ex Er].
      assert (Fx : exists s, (if nullish x then Ok [] else toStringValue x)
                             = Ok s).
      { destruct (nullish x); [eauto | apply Hok, Ex]. }
      destruct Fx as [s Fx]. rewrite Fx. cbn [bind].
      destruct rest as [|y rest']; [eauto|].
      destruct (Rok Er) as [r Fr]. rewrite Fr. cbn [bind]. eauto.
    + intros E. apply andb_false_iff in E.
      destruct (nullish x) eqn:Nx.
      * cbn [orb] in E. destruct E as [E|E]; [discriminate E|].
        cbn [bind]. destruct rest as [|y rest']; [discriminate E|].
        rewrite (Rno E). reflexivity.
      * cbn [orb] in E. destruct (stringifiable x) eqn:Sx.
        -- destruct E as [E|E]; [discriminate E|].
           destruct (Hok eq_refl) as [s Fx]. rewrite Fx. cbn [bind].
           destruct rest as [|y rest']; [discriminate E|].
           rewrite (Rno E). reflexivity.
        -- rewrite (Hno eq_refl). reflexivity.
  - cbn [stringifiable toStringValue].
    destruct (hasKey (lit "toString") props); split;
      try discriminate; intros _; eauto.
Qed.

Lemma coerceStr_trimmed (x : value) (s : jsstring) :
  coerceStr x = Ok s -> trim s = s.
Proof.
  unfold coerceStr.
  destruct (match x with
            | VStr s0 => Ok s0
            | _ => toStringValue (coalesce x (VStr []))
            end) as [s0|e]; simpl; [|discriminate].
  intros E. injection E as <-. apply trim_idempotent.
Qed.

Lemma coerceStr_stringifiable (x : value) :
  stringifiable x = true -> exists s, coerceStr x = Ok s /\ trim s = s.
Proof.
  intros S.
  assert (E : exists s, coerceStr x = Ok s).
  { unfold coerceStr. destruct x; try (eexists; reflexivity).
    - destruct b; eexists; reflexivity.
    - destruct (proj1 (toStringValue_spec (VArr items)) S) as [s Es].
      unfold coalesce. cbn [nullish]. rewrite Es. eexists. reflexivity.
    - destruct (proj1 (toStringValue_spec (VObj props)) S) as [s Es].
      unfold coalesce. cbn [nullish]. rewrite Es. eexists. reflexivity. }
  destruct E as [s E]. exists s. split; [exact E|].
  apply (coerceStr_trimmed x), E.
Qed.

Lemma coerceStr_not_stringifiable (x : value) :
  stringifiable x = false -> coerceStr x = Throw TypeError.
Proof.
  intros S. unfold coerceStr. destruct x; try discriminate S.
  - unfold coalesce. cbn [nullish].
    rewrite (proj2 (toStringValue_spec (VArr items)) S). reflexivity.
  - unfold coalesce. cbn [nullish].
    rewrite (proj2 (toStringValue_spec (VObj props)) S). reflexivity.
Qed.

(** [coerceStr] throws, a [TypeError], exactly on a value whose conversion to
    a string reaches an object with an own [toString] property; on every
    other value it returns a trimmed text, the empty one for [null] and
    [undefined], and no primitive value makes it throw. *)
Theorem coerceStr_returns_or_throws (x : value) :
  (stringifiable x = true -> exists s, coerceStr x = Ok s /\ trim s = s)
  /\ (stringifiable x = false -> coerceStr x = Throw TypeError)
  /\ (forall e, coerceStr x = Throw e ->
        e = TypeError /\ stringifiable x = false)
  /\ (nullish x = true -> coerceStr x = Ok [])
  /\ (typeofObject x = false -> stringifiable x = true).
Proof.
  pose proof (coerceStr_stringifiable x) as Ok_.
  pose proof (coerceStr_not_stringifiable x) as No.
  split; [exact Ok_|]. split; [exact No|]. split; [|split].
  - intros e E. destruct (stringifiable x) eqn:S.
    + destruct (Ok_ eq_refl) as [s [Es _]]. congruence.
    + rewrite (No eq_refl) in E. injection E as <-. auto.
  - destruct x; try discriminate; reflexivity.
  - destruct x; try discriminate; reflexivity.
Qed.

Lemma coerceStr_returns_or_throws_witness :
  (exists s, coerceStr (VArr [VNull; VObj [(lit "k", VNull)]]) = Ok s
             /\ trim s = s)
  /\ coerceStr (VArr [VObj [(lit "toString", VNull)]]) = Throw TypeError.
Proof.
  split.
  - apply (coerceStr_returns_or_throws (VArr [VNull; VObj [(lit "k", VNull)]])).
    reflexivity.
  - apply (coerceStr_returns_or_throws (VArr [VObj [(lit "toString", VNull)]])).
    reflexivity.
Defined.

(** ** What the extractors and the normaliser return *)

Lemma bind_ok (A B : Type) (m : result A) (k : A -> result B) (b : B) :
  bind m k = Ok b -> exists a, m = Ok a /\ k a = Ok b.
Proof. destruct m as [a|e]; simpl; [eauto | discriminate]. Qed.

Lemma mapM_ok (A B : Type) (f : A -> result B) (l : list A) (l' : list B) :
  mapM f l = Ok l' -> Forall2 (fun x y => f x = Ok y) l l'.
Proof.
  revert l'. induction l as [|x l IH]; simpl; intros l' E.
  - injection E as <-. constructor.
  - apply bind_ok in E. destruct E as [y [Ey E]].
    apply bind_ok in E. destruct E as [ys [Eys E]].
    injection E as <-. constructor; auto.
Qed.

Lemma mapM_coerceStr_trimmed (vs : list value) (l : list jsstring) :
  mapM coerceStr vs = Ok l -> Forall (fun s => trim s = s) l.
Proof.
  intros E. apply mapM_ok in E.
  induction E as [|x y vs l Hxy _ IH]; constructor; [|exact IH].
  apply (coerceStr_trimmed x), Hxy.
Qed.

Lemma kept_tags_clean (l ts : list jsstring) :
  Forall (fun s => trim s = s) l ->
  tagsOrAbsent (filter nonEmpty l) = Some ts ->
  ts <> [] /\ Forall cleanText ts.
Proof.
  intros T E. unfold tagsOrAbsent in E.
  destruct (filter nonEmpty l) as [|t kept] eqn:F; [discriminate|].
  injection E as <-. split; [discriminate|].
  rewrite <- F. apply Forall_forall. intros s Hs.
  apply filter_In in Hs. destruct Hs as [Hin Hne].
  rewrite Forall_forall in T. split; [apply nonEmpty_true_iff, Hne | auto].
Qed.

Lemma isEmpty_false_inv (s : jsstring) : isEmpty s = false -> s <> [].
Proof. destruct s; [discriminate | discriminate]. Qed.

Lemma built_pair_well_formed (q a : jsstring) (tags : result (option (list jsstring)))
    (p : QA) :
  trim q = q -> trim a = a ->
  (forall o ts, tags = Ok o -> o = Some ts -> ts <> [] /\ Forall cleanText ts) ->
  (if isEmpty q || isEmpty a then Ok None
   else t <- tags ;; Ok (Some (mkQA q a t))) = Ok (Some p) ->
  wellFormedQA p.
Proof.
  intros Tq Ta Ht E.
  destruct (isEmpty q) eqn:Eq; [discriminate E|].
  destruct (isEmpty a) eqn:Ea; [discriminate E|].
  cbn [orb] in E. apply bind_ok in E. destruct E as [o [Eo E]].
  injection E as <-. unfold wellFormedQA, cleanText. cbn [qa_q qa_a qa_tags].
  split; [split; [apply isEmpty_false_inv, Eq | exact Tq]|].
  split; [split; [apply isEmpty_false_inv, Ea | exact Ta]|].
  intros ts ->. apply (Ht (Some ts) ts Eo eq_refl).
Qed.

Lemma extractQAFromObject_well_formed (obj : value) (p : QA) :
  extractQAFromObject obj = Ok (Some p) -> wellFormedQA p.
Proof.
  unfold extractQAFromObject.
  destruct (negb (truthy obj) || negb (typeofObject obj)); [discriminate|].
  destruct (find (fun k => hasProp k obj) qKeys) as [qKey|]; [|discriminate].
  destruct (find (fun k => hasProp k obj) aKeys) as [aKey|]; [|discriminate].
  intros E. apply bind_ok in E. destruct E as [q [Eq E]].
  apply bind_ok in E. destruct E as [a [Ea E]].
  apply (built_pair_well_formed q a _ p
           (coerceStr_trimmed _ _ Eq) (coerceStr_trimmed _ _ Ea)) in E;
    [exact E|].
  intros o ts Eo ->.
  destruct (getProp obj (lit "tags")); try discriminate Eo.
  apply bind_ok in Eo. destruct Eo as [t [Et Eo]]. injection Eo as Eo.
  apply (kept_tags_clean t ts (mapM_coerceStr_trimmed _ _ Et) Eo).
Qed.

Lemma extractQAFromArray_well_formed (arr : value) (p : QA) :
  extractQAFromArray arr = Ok (Some p) -> wellFormedQA p.
Proof.
  unfold extractQAFromArray.
  destruct arr as [ | | | | |[|x0 [|x1 rest]]| ]; try discriminate.
  intros E. apply bind_ok in E. destruct E as [q [Eq E]].
  apply bind_ok in E. destruct E as [a [Ea E]].
  apply (built_pair_well_formed q a _ p
           (coerceStr_trimmed _ _ Eq) (coerceStr_trimmed _ _ Ea)) in E;
    [exact E|].
  intros o ts Eo ->.
  destruct rest as [|x2 more]; [discriminate Eo|].
  assert (Split : forall s,
            tagsOrAbsent (filter nonEmpty (map trim (splitOn comma [] s)))
            = Some ts -> ts <> [] /\ Forall cleanText ts).
  { intros s Es. apply (kept_tags_clean (map trim (splitOn comma [] s)) ts);
      [|exact Es].
    apply Forall_forall. intros t Ht. apply in_map_iff in Ht.
    destruct Ht as [y [<- _]]. apply trim_idempotent. }
  destruct x2 as [ | | b | x | s0 | ts0 | props];
    try (apply bind_ok in Eo; destruct Eo as [sx [_ Eo]];
         injection Eo as Eo; apply (Split sx Eo)).
  apply bind_ok in Eo. destruct Eo as [t [Et Eo]]. injection Eo as Eo.
  apply (kept_tags_clean t ts (mapM_coerceStr_trimmed _ _ Et) Eo).
Qed.

Lemma extractItem_well_formed (item : value) (p : QA) :
  extractItem item = Ok (Some p) -> wellFormedQA p.
Proof.
  unfold extractItem. destruct (isArray item).
  - apply extractQAFromArray_well_formed.
  - apply extractQAFromObject_well_formed.
Qed.

Lemma extractAll_well_formed (items : list value) (found : list QA) :
  extractAll items = Ok found ->
  Forall wellFormedQA found /\ length found <= length items.
Proof.
  unfold extractAll. intros E. apply bind_ok in E.
  destruct E as [l [El E]]. injection E as <-. apply mapM_ok in El.
  induction El as [|x y items l Hxy _ [IHw IHl]]; [split; [constructor|auto]|].
  destruct y as [p|]; cbn [catOptions length].
  - split; [constructor; [apply (extractItem_well_formed x), Hxy | exact IHw]
           | lia].
  - split; [exact IHw | lia].
Qed.

Lemma metaPatchOf_trimmed (bot : value) (patch : BotMeta) :
  metaPatchOf bot = Ok patch -> trimmedPatch patch.
Proof.
  unfold metaPatchOf. intros E.
  apply bind_ok in E. destruct E as [c1 [E1 E]].
  apply bind_ok in E. destruct E as [c2 [E2 E]].
  apply bind_ok in E. destruct E as [c3 [E3 E]].
  apply bind_ok in E. destruct E as [c4 [E4 E]].
  apply bind_ok in E. destruct E as [c5 [E5 E]].
  apply bind_ok in E. destruct E as [c6 [E6 E]].
  injection E as <-. unfold trimmedPatch. simpl.
  repeat split; eauto using coerceStr_trimmed.
Qed.

Lemma tryShapes_returns (data : value) (r : Imported) :
  tryShapes data = Ok (Some r) ->
  pairs r <> [] /\ Forall wellFormedQA (pairs r)
  /\ forall patch, metaPatch r = Some patch ->
       trimmedPatch patch /\ isExportShape data = true.
Proof.
  unfold tryShapes. destruct (isExportShape data).
  - intros E. apply bind_ok in E. destruct E as [patch [Ep E]].
    apply bind_ok in E. destruct E as [found [Ef E]].
    destruct found as [|p found']; [discriminate E|]. injection E as <-.
    simpl. split; [discriminate|].
    split; [apply (extractAll_well_formed _ _ Ef)|].
    intros patch' H. injection H as <-.
    split; [apply (metaPatchOf_trimmed _ _ Ep) | reflexivity].
  - assert (G : forall items,
              (found <- extractAll items ;;
               match found with
               | [] => Throw (Error msgNoRowsInArray)
               | _ :: _ => Ok (Some (mkImported None found))
               end) = Ok (Some r) ->
              pairs r <> [] /\ Forall wellFormedQA (pairs r)
              /\ forall patch, metaPatch r = Some patch ->
                   trimmedPatch patch /\ false = true).
    { intros items E. apply bind_ok in E. destruct E as [found [Ef E]].
      destruct found as [|p found']; [discriminate E|]. injection E as <-.
      simpl. split; [discriminate|].
      split; [apply (extractAll_well_formed _ _ Ef) | discriminate]. }
    destruct (isArray data); [apply G|].
    destruct (truthy data && typeofObject data); [|discriminate].
    destruct (find (fun k => isArray (getProp data k)) wrapKeys) as [k|];
      [|discriminate].
    intros E. apply bind_ok in E. destruct E as [found [Ef E]].
    destruct found as [|p found']; [discriminate E|]. injection E as <-.
    simpl. split; [discriminate|].
    split; [apply (extractAll_well_formed _ _ Ef) | discriminate].
Qed.

Lemma linePairs_well_formed (lines : list jsstring) :
  Forall wellFormedQA (catOptions (map linePair lines)).
Proof.
  induction lines as [|line lines IH]; [constructor|].
  cbn [map catOptions]. unfold linePair at 1.
  destruct (JSON_parse line) as [obj|e]; [|exact IH].
  destruct (extractItem obj) as [[qa|]|e] eqn:E; try exact IH.
  constructor; [apply (extractItem_well_formed obj), E | exact IH].
Qed.

(** Whatever the text, a call of [parseAnyQAPairs] that returns gives at least
    one pair, and pairs whose question and answer are trimmed and not empty
    and whose tags, when there are some, are trimmed and not empty; it gives
    a metadata patch only for a text in the full-export shape, and then one
    whose texts are trimmed and whose description is set. *)
Theorem import_result_well_formed (text : jsstring) (r : Imported) :
  parseAnyQAPairs text = Ok r ->
  pairs r <> [] /\ Forall wellFormedQA (pairs r)
  /\ forall patch, metaPatch r = Some patch ->
       trimmedPatch patch
       /\ exists data, JSON_parse text = Ok data /\ isExportShape data = true.
Proof.
  unfold parseAnyQAPairs.
  assert (L : (if 1 <? length (jsonlLines text)
               then match fold_left jsonlStep (jsonlLines text) [] with
                    | [] => Throw (Error msgUnsupported)
                    | _ :: _ =>
                        Ok (mkImported None
                              (fold_left jsonlStep (jsonlLines text) []))
                    end
               else Throw (Error msgUnsupported)) = Ok r ->
              pairs r <> [] /\ Forall wellFormedQA (pairs r)
              /\ forall patch, metaPatch r = Some patch ->
                   trimmedPatch patch
                   /\ exists data, JSON_parse text = Ok data
                                   /\ isExportShape data = true).
  { destruct (1 <? length (jsonlLines text)); [|discriminate].
    rewrite jsonl_loop. cbn [app].
    pose proof (linePairs_well_formed (jsonlLines text)) as W.
    destruct (catOptions (map linePair (jsonlLines text))) as [|p l];
      [discriminate|].
    intros E. injection E as <-. simpl.
    split; [discriminate|]. split; [exact W | discriminate]. }
  destruct (tryWholeText text) as [[r0|]|e] eqn:T; [|exact L|exact L].
  intros E. injection E as <-. unfold tryWholeText in T.
  apply bind_ok in T. destruct T as [data [P T]].
  destruct (tryShapes_returns data r0 T) as [Hne [Hw Hp]].
  split; [exact Hne|]. split; [exact Hw|].
  intros patch Hpatch. destruct (Hp patch Hpatch) as [Ht Hs].
  split; [exact Ht|]. exists data. auto.
Qed.

Lemma import_result_well_formed_witness :
  parseAnyQAPairs rawArrayText
  = Ok (mkImported None
          [mkQA (lit "Q1") (lit "A1") None;
           mkQA (lit "Q3") (lit "A3") (Some [lit "t"])])
  /\ Forall wellFormedQA
       [mkQA (lit "Q1") (lit "A1") None;
        mkQA (lit "Q3") (lit "A3") (Some [lit "t"])].
Proof.
  assert (E : parseAnyQAPairs rawArrayText
              = Ok (mkImported None
                      [mkQA (lit "Q1") (lit "A1") None;
                       mkQA (lit "Q3") (lit "A3") (Some [lit "t"])]))
    by (vm_compute; reflexivity).
  split; [exact E|].
  apply (import_result_well_formed rawArrayText _ E).
Defined.

(** ** The raw-array and the wrapped-object shapes *)

Lemma parseAnyQAPairs_returns (text : jsstring) (r : Imported) :
  tryWholeText text = Ok (Some r) -> parseAnyQAPairs text = Ok r.
Proof. intros T. unfold parseAnyQAPairs. rewrite T. reflexivity. Qed.

(** A text that parses to an array is imported from the elements of the
    array, each given to the tuple or to the object extractor, the rejected
    ones dropped and the order kept, without metadata patch; when no element
    gives a pair, or the coercion of one throws, the text is handed to the
    line-delimited strategy. *)
Theorem raw_array_shape (text : jsstring) (items : list value) :
  JSON_parse text = Ok (VArr items) ->
  (forall found,
     extractAll items = Ok found -> found <> [] ->
     parseAnyQAPairs text = Ok (mkImported None found)
     /\ length found <= length items)
  /\ (extractAll items = Ok [] \/ (exists e, extractAll items = Throw e) ->
      parseAnyQAPairs text = jsonlStrategy text).
Proof.
  intros P.
  assert (T : tryWholeText text
              = (found <- extractAll items ;;
                 match found with
                 | [] => Throw (Error msgNoRowsInArray)
                 | _ :: _ => Ok (Some (mkImported None found))
                 end)).
  { unfold tryWholeText. rewrite P. reflexivity. }
  split.
  - intros found X Hne. split.
    + apply parseAnyQAPairs_returns. rewrite T, X. cbn [bind].
      destruct found; [contradiction Hne|]; reflexivity.
    + apply (extractAll_well_formed items found X).
  - intros H. apply parseAnyQAPairs_falls_through. intros r. rewrite T.
    destruct H as [X | [e X]]; rewrite X; discriminate.
Qed.

Lemma raw_array_shape_witness :
  JSON_parse (litq "[['q','a'],['x']]")
  = Ok (VArr [VArr [VStr (lit "q"); VStr (lit "a")]; VArr [VStr (lit "x")]])
  /\ parseAnyQAPairs (litq "[['q','a'],['x']]")
     = Ok (mkImported None [mkQA (lit "q") (lit "a") None]).
Proof.
  assert (P : JSON_parse (litq "[['q','a'],['x']]")
              = Ok (VArr [VArr [VStr (lit "q"); VStr (lit "a")];
                          VArr [VStr (lit "x")]]))
    by (vm_compute; reflexivity).
  split; [exact P|].
  destruct (raw_array_shape _ _ P) as [H _].
  apply (H [mkQA (lit "q") (lit "a") None]); [reflexivity | discriminate].
Defined.

(** A text that parses to an object which is not a full export is imported
    from the first key of [pairs, data, faqs, items, records] whose value is
    an array, whatever the other keys hold and wherever the key stands in
    the object, without metadata patch; when that array gives no pair, or a
    coercion throws, the text is handed to the line-delimited strategy, the
    later keys not being tried. *)
Theorem wrapped_object_shape (text : jsstring)
    (props : list (jsstring * value)) (k : jsstring) :
  JSON_parse text = Ok (VObj props) ->
  isExportShape (VObj props) = false ->
  firstArrayKey wrapKeys (VObj props) k ->
  (forall found,
     extractAll (arrayItems (getProp (VObj props) k)) = Ok found ->
     found <> [] ->
     parseAnyQAPairs text = Ok (mkImported None found))
  /\ (extractAll (arrayItems (getProp (VObj props) k)) = Ok []
      \/ (exists e,
            extractAll (arrayItems (getProp (VObj props) k)) = Throw e) ->
      parseAnyQAPairs text = jsonlStrategy text).
Proof.
  intros P S K.
  assert (F : find (fun k' => isArray (getProp (VObj props) k')) wrapKeys
              = Some k).
  { apply find_first. exact K. }
  assert (T : tryWholeText text
              = (found <- extractAll (arrayItems (getProp (VObj props) k)) ;;
                 match found with
                 | [] => Throw (Error (msgNoPairsUnder k))
                 | _ :: _ => Ok (Some (mkImported None found))
                 end)).
  { unfold tryWholeText. rewrite P. cbn [bind]. unfold tryShapes.
    rewrite S. cbn [isArray truthy typeofObject andb]. rewrite F.
    reflexivity. }
  split.
  - intros found X Hne. apply parseAnyQAPairs_returns. rewrite T, X.
    cbn [bind]. destruct found; [contradiction Hne|]; reflexivity.
  - intros H. apply parseAnyQAPairs_falls_through. intros r. rewrite T.
    destruct H as [X | [e X]]; rewrite X; discriminate.
Qed.

Lemma wrapped_object_shape_witness :
  parseAnyQAPairs wrappedTwice
  = Ok (mkImported None [mkQA (lit "a") (lit "b") None]).
Proof.
  assert (P : JSON_parse wrappedTwice
              = Ok (VObj [(lit "items",
                           VArr [VArr [VStr (lit "c"); VStr (lit "d")]]);
                          (lit "data",
                           VArr [VArr [VStr (lit "a"); VStr (lit "b")]])]))
    by (vm_compute; reflexivity).
  assert (K : firstArrayKey wrapKeys
                (VObj [(lit "items",
                        VArr [VArr [VStr (lit "c"); VStr (lit "d")]]);
                       (lit "data",
                        VArr [VArr [VStr (lit "a"); VStr (lit "b")]])])
                (lit "data")).
  { exists [lit "pairs"], [lit "faqs"; lit "items"; lit "records"].
    split; [reflexivity|]. split; [reflexivity|].
    intros k' [<-|[]]. reflexivity. }
  destruct (wrapped_object_shape _ _ _ P eq_refl K) as [H _].
  apply (H [mkQA (lit "a") (lit "b") None]); [reflexivity | discriminate].
Defined.

(** ** The import handler *)

Lemma importedPair_content (id : jsstring) (p : QA) :
  wellFormedQA p ->
  pairContent (importedPair id p) = p
  /\ exportPair (importedPair id p) = p
  /\ cleanPair (importedPair id p).
Proof.
  destruct p as [q a tags]. intros [[Nq Tq] [[Na Ta] Ht]].
  cbn [qa_q qa_a qa_tags] in *.
  assert (K : keepTags (Some match tags with Some ts => ts | None => [] end)
              = tags).
  { destruct tags as [ts|]; [|reflexivity].
    destruct (Ht ts eq_refl) as [Hne _].
    destruct ts; [contradiction Hne|]; reflexivity. }
  unfold pairContent, exportPair, importedPair, cleanPair.
  cbn [pair_q pair_a pair_tags qa_q qa_a qa_tags]. rewrite K, !strOr_nil, Tq, Ta.
  repeat split; auto.
  intros ts E. injection E as <-.
  destruct tags as [ts|]; [apply (Ht ts eq_refl) | constructor].
Qed.

Lemma withIds_spec (uids : nat -> jsstring) (l : list QA) :
  Forall wellFormedQA l ->
  forall k,
    map pairContent (withIds uids k l) = l
    /\ map exportPair (withIds uids k l) = l
    /\ Forall cleanPair (withIds uids k l)
    /\ map pair_id (withIds uids k l) = map uids (seq k (length l)).
Proof.
  induction 1 as [|p l Hp _ IH]; intros k.
  - repeat split; constructor.
  - destruct (IH (S k)) as [I1 [I2 [I3 I4]]].
    destruct (importedPair_content (uids k) p Hp) as [C1 [C2 C3]].
    cbn [withIds map length seq]. rewrite I1, I2, I4, C1, C2.
    repeat split; auto.
Qed.

Lemma clean_pairs_complete (l : list QAPair) :
  l <> [] -> Forall cleanPair l -> existsb pairComplete l = true.
Proof.
  intros Hne H. destruct H as [|p l [Nq [Tq [Na [Ta _]]]] _];
    [contradiction Hne; reflexivity|].
  cbn [existsb].
  assert (C : pairComplete p = true).
  { apply pairComplete_iff. unfold completePair. rewrite Tq, Ta. auto. }
  rewrite C. reflexivity.
Qed.

(** When the import fails, the handler leaves the metadata, the pairs, the
    dialog and the import text as they were, and shows the error banner
    with the one message that [parseAnyQAPairs] can throw, whatever the texts
    of the host's own errors. *)
Theorem import_failure_keeps_state (hostMessage : exn -> jsstring)
    (uids : nat -> jsstring) (st : AppState) (e : exn) :
  parseAnyQAPairs (stripTrailingCommas (st_importText st)) = Throw e ->
  handleImportJSON hostMessage uids st
  = mkAppState (st_meta st) (st_pairs st) (st_importOpen st)
      (st_importText st) Failed
      (lit "Could not import JSON: Unsupported JSON format: could not find Q/A pairs").
Proof.
  intros E. unfold handleImportJSON.
  pose proof (parseAnyQAPairs_throws_unsupported_only _ _ E) as ->.
  rewrite E. reflexivity.
Qed.

Lemma import_failure_keeps_state_witness :
  handleImportJSON noHostMessage sampleUids
    (mkAppState metaGood somePairs true (lit "{}") Idle [])
  = mkAppState metaGood somePairs true (lit "{}") Failed
      (lit "Could not import JSON: Unsupported JSON format: could not find Q/A pairs").
Proof.
  apply (import_failure_keeps_state noHostMessage sampleUids
           (mkAppState metaGood somePairs true (lit "{}") Idle [])
           (Error msgUnsupported)).
  vm_compute. reflexivity.
Defined.

(** When the import succeeds, the handler replaces the working set by the
    imported pairs, in their order, each with a fresh identifier and its
    tags as a list: the new working set is not empty, all its pairs are
    clean, and their contents are the imported pairs.  A metadata patch
    replaces the metadata as a whole (no field of the previous metadata is
    kept); without patch the metadata stays.  The dialog is closed, the
    banner untouched, and the submission gate then depends on the metadata
    only. *)
Theorem import_success_effect (hostMessage : exn -> jsstring)
    (uids : nat -> jsstring) (st : AppState) (r : Imported) :
  parseAnyQAPairs (stripTrailingCommas (st_importText st)) = Ok r ->
  let st' := handleImportJSON hostMessage uids st in
  map pairContent (st_pairs st') = pairs r
  /\ map pair_id (st_pairs st') = map uids (seq 0 (length (pairs r)))
  /\ st_pairs st' <> []
  /\ Forall cleanPair (st_pairs st')
  /\ (metaPatch r = None -> st_meta st' = st_meta st)
  /\ (forall patch, metaPatch r = Some patch -> st_meta st' = patch)
  /\ st_importOpen st' = false
  /\ st_importText st' = st_importText st
  /\ st_submitState st' = st_submitState st
  /\ st_submitMessage st' = st_submitMessage st
  /\ isValid (st_meta st') (st_pairs st') = validateMeta (st_meta st').
Proof.
  intros E st'. unfold st', handleImportJSON. rewrite E.
  cbn [st_meta st_pairs st_importOpen st_importText st_submitState
       st_submitMessage].
  destruct (import_result_well_formed _ _ E) as [Hne [Hw Hp]].
  destruct (withIds_spec uids (pairs r) Hw 0) as [W1 [W2 [W3 W4]]].
  assert (N : withIds uids 0 (pairs r) <> []).
  { destruct (pairs r); [contradiction Hne; reflexivity | discriminate]. }
  split; [exact W1|]. split; [exact W4|]. split; [exact N|].
  split; [exact W3|]. split; [intros ->; reflexivity|].
  split.
  { intros patch Hpatch. rewrite Hpatch.
    destruct (Hp patch Hpatch) as [[_ [_ [_ [[d [Hd _]] _]]]] _].
    unfold mergePatch. rewrite Hd. destruct patch; simpl in *.
    rewrite Hd. reflexivity. }
  repeat (split; [reflexivity|]).
  unfold isValid. rewrite (clean_pairs_complete _ N W3).
  apply andb_true_r.
Qed.

Lemma import_success_effect_witness :
  map pairContent
    (st_pairs (handleImportJSON noHostMessage sampleUids sampleState))
  = [mkQA (lit "What is RAG?") (lit "Retrieval-Augmented Generation.") None;
     mkQA (lit "Who?") (lit "Me") (Some [lit "policy"; lit "edu"])].
Proof.
  assert (E : parseAnyQAPairs (stripTrailingCommas (st_importText sampleState))
              = Ok (mkImported (Some (recoveredMeta metaNoModel))
                      (catOptions (map recoveredPair workingSet))))
    by (vm_compute; reflexivity).
  destruct (import_success_effect noHostMessage sampleUids sampleState _ E)
    as [H _].
  exact H.
Defined.

(** Exporting right after a successful import gives back, as the pairs of
    the payload, exactly the pairs that were imported. *)
Theorem export_after_import (toLowerCase : jsstring -> jsstring)
    (now : jsstring) (hostMessage : exn -> jsstring) (uids : nat -> jsstring)
    (st : AppState) (r : Imported) :
  parseAnyQAPairs (stripTrailingCommas (st_importText st)) = Ok r ->
  let st' := handleImportJSON hostMessage uids st in
  payload_pairs (exportPayload toLowerCase now (st_meta st') (st_pairs st'))
  = pairs r.
Proof.
  intros E st'. unfold st', handleImportJSON. rewrite E.
  cbn [st_meta st_pairs exportPayload payload_pairs].
  destruct (import_result_well_formed _ _ E) as [_ [Hw _]].
  apply (withIds_spec uids (pairs r) Hw 0).
Qed.

Lemma export_after_import_witness :
  payload_pairs
    (exportPayload asciiLower sampleNow
       (st_meta (handleImportJSON noHostMessage sampleUids sampleState))
       (st_pairs (handleImportJSON noHostMessage sampleUids sampleState)))
  = catOptions (map recoveredPair workingSet).
Proof.
  assert (E : parseAnyQAPairs (stripTrailingCommas (st_importText sampleState))
              = Ok (mkImported (Some (recoveredMeta metaNoModel))
                      (catOptions (map recoveredPair workingSet))))
    by (vm_compute; reflexivity).
  apply (export_after_import asciiLower sampleNow noHostMessage sampleUids
           sampleState _ E).
Defined.

(** ** Moving a pair *)

Lemma findIndex_app_first (id : jsstring) (l1 l2 : list QAPair) (p : QAPair) :
  absentId id l1 -> pair_id p = id ->
  findIndex id (l1 ++ p :: l2) = Some (length l1).
Proof.
  intros Ha Hp. induction Ha as [|x l1 Hx _ IH]; simpl.
  - rewrite Hp, str_eqb_refl. reflexivity.
  - rewrite (proj2 (str_eqb_neq _ _) Hx), IH. reflexivity.
Qed.

Lemma findIndex_absent (id : jsstring) (l : list QAPair) :
  absentId id l -> findIndex id l = None.
Proof.
  induction 1 as [|x l Hx _ IH]; simpl; [reflexivity|].
  rewrite (proj2 (str_eqb_neq _ _) Hx), IH. reflexivity.
Qed.

Lemma removeAt_app (A : Type) (l1 l2 : list A) (x : A) :
  removeAt (length l1) (l1 ++ x :: l2) = l1 ++ l2.
Proof.
  unfold removeAt.
  rewrite firstn_app, Nat.sub_diag, firstn_all, app_nil_r.
  rewrite skipn_app, skipn_all2 by lia.
  replace (S (length l1) - length l1) with 1 by lia. reflexivity.
Qed.

Lemma insertAt_app (A : Type) (l1 l2 : list A) (x : A) :
  insertAt (length l1) x (l1 ++ l2) = l1 ++ x :: l2.
Proof.
  unfold insertAt.
  rewrite firstn_app, Nat.sub_diag, firstn_all, app_nil_r.
  rewrite skipn_app, skipn_all, Nat.sub_diag. reflexivity.
Qed.

Lemma nth_error_middle (A : Type) (l1 l2 : list A) (x : A) :
  nth_error (l1 ++ x :: l2) (length l1) = Some x.
Proof.
  rewrite nth_error_app2 by lia. rewrite Nat.sub_diag. reflexivity.
Qed.

Lemma movePair_down (id : jsstring) (l1 l2 : list QAPair) (p q : QAPair) :
  absentId id l1 -> pair_id p = id ->
  movePair id 1 (l1 ++ p :: q :: l2) = l1 ++ q :: p :: l2.
Proof.
  intros Ha Hp. unfold movePair.
  rewrite (findIndex_app_first id l1 (q :: l2) p Ha Hp).
  rewrite nth_error_middle, removeAt_app.
  rewrite length_app. cbn [length].
  destruct (Z.ltb_spec (Z.of_nat (length l1) + 1) 0); [lia|].
  destruct (Z.leb_spec (Z.of_nat (length l1 + S (S (length l2))))
              (Z.of_nat (length l1) + 1)); [lia|].
  cbn [orb].
  replace (Z.to_nat (Z.of_nat (length l1) + 1)) with (length (l1 ++ [q]))
    by (rewrite length_app; simpl; lia).
  change (l1 ++ q :: l2) with (l1 ++ [q] ++ l2).
  rewrite app_assoc, insertAt_app, <- app_assoc. reflexivity.
Qed.

Lemma movePair_up (id : jsstring) (l1 l2 : list QAPair) (p q : QAPair) :
  absentId id l1 -> pair_id p <> id -> pair_id q = id ->
  movePair id (-1) (l1 ++ p :: q :: l2) = l1 ++ q :: p :: l2.
Proof.
  intros Ha Hp Hq. unfold movePair.
  assert (Ha' : absentId id (l1 ++ [p])).
  { apply Forall_app. split; [exact Ha | constructor; [exact Hp | constructor]]. }
  change (l1 ++ p :: q :: l2) with (l1 ++ [p] ++ q :: l2).
  rewrite app_assoc.
  rewrite (findIndex_app_first id (l1 ++ [p]) l2 q Ha' Hq).
  rewrite nth_error_middle, removeAt_app.
  rewrite !length_app. cbn [length].
  destruct (Z.ltb_spec (Z.of_nat (length l1 + 1) + -1) 0); [lia|].
  destruct (Z.leb_spec (Z.of_nat (length l1 + 1 + S (length l2)))
              (Z.of_nat (length l1 + 1) + -1)); [lia|].
  cbn [orb].
  replace (Z.to_nat (Z.of_nat (length l1 + 1) + -1)) with (length l1) by lia.
  rewrite <- app_assoc. apply insertAt_app.
Qed.

(** [movePair] swaps the first pair that has the identifier with its
    neighbour: with the one after it for direction [1], with the one before
    it for direction [-1].  The first pair is not moved up, the last not
    moved down, and an identifier that no pair has moves nothing.  Moving a
    pair down and then up puts the list back when the neighbour has another
    identifier. *)
Theorem movePair_swaps_neighbours (id : jsstring) (l1 l2 : list QAPair)
    (p q : QAPair) :
  absentId id l1 ->
  (pair_id p = id ->
     movePair id 1 (l1 ++ p :: q :: l2) = l1 ++ q :: p :: l2)
  /\ (pair_id p <> id -> pair_id q = id ->
        movePair id (-1) (l1 ++ p :: q :: l2) = l1 ++ q :: p :: l2)
  /\ (pair_id p = id -> movePair id (-1) (p :: l2) = p :: l2)
  /\ (pair_id p = id -> movePair id 1 (l1 ++ [p]) = l1 ++ [p])
  /\ (forall dir, movePair id dir l1 = l1)
  /\ (pair_id p = id -> pair_id q <> id ->
        movePair id (-1) (movePair id 1 (l1 ++ p :: q :: l2))
        = l1 ++ p :: q :: l2).
Proof.
  intros Ha.
  split; [intros Hp; apply movePair_down; assumption|].
  split; [intros Hp Hq; apply movePair_up; assumption|].
  split.
  { intros Hp. unfold movePair. simpl. rewrite Hp, str_eqb_refl.
    reflexivity. }
  split.
  { intros Hp. unfold movePair.
    rewrite (findIndex_app_first id l1 [] p Ha Hp).
    rewrite length_app. cbn [length].
    destruct (Z.leb_spec (Z.of_nat (length l1 + 1))
                (Z.of_nat (length l1) + 1)); [|lia].
    rewrite orb_true_r. reflexivity. }
  split.
  { intros dir. unfold movePair. rewrite (findIndex_absent id l1 Ha).
    reflexivity. }
  intros Hp Hq. rewrite (movePair_down id l1 l2 p q Ha Hp).
  apply movePair_up; assumption.
Qed.

Lemma movePair_swaps_neighbours_witness :
  movePair (lit "1") 1 somePairs = [pairBlank; pairRag].
Proof.
  assert (A : absentId (lit "1") []) by constructor.
  destruct (movePair_swaps_neighbours (lit "1") [] [] pairRag pairBlank A)
    as [H _].
  apply H. reflexivity.
Defined.

(** ** The submission gate under the edits *)

Lemma existsb_perm (A : Type) (f : A -> bool) (l l' : list A) :
  Permutation l l' -> existsb f l = existsb f l'.
Proof.
  induction 1 as [|x l l' _ IH|x y l|l l' l'' _ IH1 _ IH2]; simpl.
  - reflexivity.
  - rewrite IH. reflexivity.
  - destruct (f x), (f y); reflexivity.
  - rewrite IH1. exact IH2.
Qed.

Lemma existsb_filter_true (A : Type) (f g : A -> bool) (l : list A) :
  existsb f (filter g l) = true -> existsb f l = true.
Proof.
  rewrite !existsb_exists. intros [x [Hin Hf]].
  apply filter_In in Hin. exists x. tauto.
Qed.

Lemma existsb_filter_keep (A : Type) (f g : A -> bool) (l : list A) :
  (forall x, In x l -> g x = false -> f x = false) ->
  existsb f (filter g l) = existsb f l.
Proof.
  induction l as [|x l IH]; intros H; simpl; [reflexivity|].
  assert (IH' : existsb f (filter g l) = existsb f l).
  { apply IH. intros y Hy. apply H. right. exact Hy. }
  destruct (g x) eqn:G; simpl.
  - rewrite IH'. reflexivity.
  - rewrite (H x (or_introl eq_refl) G), IH'. reflexivity.
Qed.

(** Whether the working set may be submitted is not changed by adding the
    blank pair, by moving a pair, or by an update that sets neither question
    nor answer.  Removing a pair never makes an invalid working set valid,
    and changes nothing when the pairs with that identifier are not
    complete. *)
Theorem edits_and_validity (meta : BotMeta) (id newId : jsstring) (dir : Z)
    (prev : list QAPair) :
  isValid meta (addPair newId prev) = isValid meta prev
  /\ isValid meta (movePair id dir prev) = isValid meta prev
  /\ (forall patch, patch_q patch = None -> patch_a patch = None ->
        isValid meta (updatePair id patch prev) = isValid meta prev)
  /\ (isValid meta (removePair id prev) = true -> isValid meta prev = true)
  /\ ((forall p, In p prev -> pair_id p = id -> pairComplete p = false) ->
        isValid meta (removePair id prev) = isValid meta prev).
Proof.
  unfold isValid. split; [|split; [|split; [|split]]].
  - unfold addPair. rewrite existsb_app. simpl. rewrite !orb_false_r.
    reflexivity.
  - rewrite (existsb_perm _ pairComplete _ _ (movePair_perm id dir prev)).
    reflexivity.
  - intros patch Hq Ha. f_equal. unfold updatePair.
    induction prev as [|p l IH]; [reflexivity|]. cbn [map existsb].
    rewrite IH. f_equal.
    destruct (str_eqb (pair_id p) id); [|reflexivity].
    unfold pairComplete, applyPatch. cbn [pair_q pair_a].
    rewrite Hq, Ha. reflexivity.
  - unfold removePair. destruct (length prev <=? 1); [tauto|].
    rewrite !andb_true_iff. intros [Hm He]. split; [exact Hm|].
    apply (existsb_filter_true _ _ _ _ He).
  - intros H. unfold removePair. destruct (length prev <=? 1); [reflexivity|].
    f_equal. apply existsb_filter_keep. intros p Hin Hg.
    apply H; [exact Hin|]. apply negb_false_iff in Hg.
    apply str_eqb_eq. exact Hg.
Qed.

(** ** The payload *)

Lemma strOr_clean (s d : jsstring) :
  d <> [] -> trim d = d ->
  strOr (trim s) d <> [] /\ trim (strOr (trim s) d) = strOr (trim s) d.
Proof.
  intros Hd Td. unfold strOr. destruct (nonEmpty (trim s)) eqn:E.
  - split; [apply nonEmpty_true_iff, E | apply trim_idempotent].
  - split; assumption.
Qed.

Lemma strOr_nonempty (s d : jsstring) : d <> [] -> strOr s d <> [].
Proof.
  intros Hd. unfold strOr. destruct (nonEmpty s) eqn:E; [|exact Hd].
  apply nonEmpty_true_iff, E.
Qed.

Lemma exportPair_shape (p : QAPair) : payloadPairShape (exportPair p).
Proof.
  unfold payloadPairShape, exportPair. cbn [qa_q qa_a qa_tags].
  rewrite !strOr_nil, !trim_idempotent. repeat split.
  destruct (pair_tags p) as [[|t ts]|]; discriminate.
Qed.

(** Whatever the metadata and the pairs, the payload has a name and both
    model names that are not empty; its name, lab, owner address and
    description are trimmed, and a description is never the empty text; its
    slug holds only lower-case letters, digits and hyphens, at least one
    hyphen among them; and it has one pair for each pair of the working set,
    each with question and answer trimmed and never an empty list of
    tags. *)
Theorem exportPayload_fields (toLowerCase : jsstring -> jsstring)
    (now : jsstring) (meta : BotMeta) (pairs : list QAPair) :
  let payload := exportPayload toLowerCase now meta pairs in
  let bot := payload_bot payload in
  cleanText (bot_name bot)
  /\ trim (bot_lab bot) = bot_lab bot
  /\ trim (bot_owner_email bot) = bot_owner_email bot
  /\ (forall d, bot_description bot = Some d -> cleanText d)
  /\ bot_model bot <> [] /\ bot_embed_model bot <> []
  /\ Forall (fun c => slugChar c = true) (bot_slug bot)
  /\ In hyphen (bot_slug bot)
  /\ length (payload_pairs payload) = length pairs
  /\ Forall payloadPairShape (payload_pairs payload).
Proof.
  intros payload bot. unfold bot, payload, exportPayload.
  cbn [payload_bot payload_pairs bot_name bot_lab bot_owner_email
       bot_description bot_model bot_embed_model bot_slug].
  split.
  { apply strOr_clean; [discriminate | vm_compute; reflexivity]. }
  split; [rewrite strOr_nil; apply trim_idempotent|].
  split; [rewrite strOr_nil; apply trim_idempotent|].
  split.
  { intros d. destruct (description meta) as [d0|]; [|discriminate].
    destruct (nonEmpty (trim d0)) eqn:E; [|discriminate].
    intros H; injection H as <-.
    split; [apply nonEmpty_true_iff, E | apply trim_idempotent]. }
  split; [apply strOr_nonempty; discriminate|].
  split; [apply strOr_nonempty; discriminate|].
  split.
  { unfold slug. apply Forall_app. split; [apply slugify_charset|].
    apply Forall_app. split; [|apply slugify_charset].
    repeat constructor. }
  split.
  { unfold slug. apply in_or_app. right. apply in_or_app. left.
    left. reflexivity. }
  split; [apply length_map|].
  apply Forall_forall. intros x Hx. apply in_map_iff in Hx.
  destruct Hx as [p [<- _]]. apply exportPair_shape.
Qed.

(** When the submission gate is open, the payload carries the trimmed name
    and lab of the metadata, neither of them empty, and at least one pair
    whose question and answer are not empty. *)
Theorem valid_payload_is_filled (toLowerCase : jsstring -> jsstring)
    (now : jsstring) (meta : BotMeta) (pairs : list QAPair) :
  isValid meta pairs = true ->
  let payload := exportPayload toLowerCase now meta pairs in
  bot_name (payload_bot payload) = trim (botName meta)
  /\ bot_lab (payload_bot payload) = trim (lab meta)
  /\ bot_lab (payload_bot payload) <> []
  /\ exists p, In p (payload_pairs payload) /\ qa_q p <> [] /\ qa_a p <> [].
Proof.
  unfold isValid. cbv zeta. rewrite andb_true_iff. intros [Hm Hp].
  apply validateMeta_true_iff in Hm. destruct Hm as [Hl [Hn _]].
  unfold exportPayload.
  cbn [payload_bot payload_pairs bot_name bot_lab].
  rewrite strOr_nil.
  split.
  { unfold strOr. apply nonEmpty_true_iff in Hn. rewrite Hn. reflexivity. }
  split; [reflexivity|]. split; [exact Hl|].
  apply existsb_exists in Hp. destruct Hp as [p [Hin Hc]].
  apply pairComplete_iff in Hc. destruct Hc as [Hq Ha].
  exists (exportPair p). split; [apply in_map, Hin|].
  unfold exportPair. cbn [qa_q qa_a]. rewrite !strOr_nil. auto.
Qed.

Lemma valid_payload_is_filled_witness :
  bot_name (payload_bot (exportPayload asciiLower sampleNow metaGood somePairs))
  = trim (botName metaGood).
Proof.
  assert (V : isValid metaGood somePairs = true) by (vm_compute; reflexivity).
  destruct (valid_payload_is_filled asciiLower sampleNow metaGood somePairs V)
    as [H _].
  exact H.
Defined.

(** ** The console self-tests *)

(** Every assertion of [runSelfTests] holds, so that nothing is written to
    the console, for every lowering function that lowers the two sample
    texts as [String.prototype.toLowerCase] does. *)
Theorem runSelfTests_writes_nothing (toLowerCase : jsstring -> jsstring) :
  toLowerCase (lit "Hello World!") = lit "hello world!" ->
  toLowerCase labWithDash
  = lit "ials " ++ [8212%N] ++ lit " houmansadr lab" ->
  runSelfTests toLowerCase = [].
Proof.
  intros H1 H2. unfold runSelfTests, slugify. rewrite H1, H2.
  vm_compute. reflexivity.
Qed.

Lemma runSelfTests_writes_nothing_witness : runSelfTests asciiLower = [].
Proof.
  apply (runSelfTests_writes_nothing asciiLower); vm_compute; reflexivity.
Defined.

(** ** Typing in the tags field *)

Lemma dropWhile_snoc (p : N -> bool) (c : N) (x : jsstring) :
  p c = true ->
  dropWhile p (x ++ [c])
  = match dropWhile p x with [] => [] | r => r ++ [c] end.
Proof.
  intros Hc. induction x as [|d x IH]; simpl.
  - rewrite Hc. reflexivity.
  - destruct (p d); [exact IH | reflexivity].
Qed.

Lemma trim_snoc_space (c : N) (x : jsstring) :
  isSpace c = true -> trim (x ++ [c]) = trim x.
Proof.
  intros Hc. unfold trim, trimStart, trimEnd.
  rewrite (dropWhile_snoc isSpace c x Hc).
  destruct (dropWhile isSpace x) as [|d r]; [reflexivity|].
  rewrite rev_unit. cbn [dropWhile]. rewrite Hc. reflexivity.
Qed.

Lemma splitOn_app_sep (sep : N) (a b : jsstring) :
  forall acc,
    splitOn sep acc (a ++ sep :: b) = splitOn sep acc a ++ splitOn sep [] b.
Proof.
  induction a as [|c a IH]; intros acc; simpl.
  - rewrite N.eqb_refl. reflexivity.
  - destruct (N.eqb c sep); [rewrite IH; reflexivity | apply IH].
Qed.

Lemma parseTagsField_app (a b : jsstring) :
  parseTagsField (a ++ comma :: b) = parseTagsField a ++ parseTagsField b.
Proof.
  unfold parseTagsField. rewrite splitOn_app_sep, map_app, filter_app.
  reflexivity.
Qed.

Lemma space_not_comma (c : N) : isSpace c = true -> N.eqb c comma = false.
Proof.
  intros H. destruct (N.eqb_spec c comma) as [->|]; [|reflexivity].
  discriminate H.
Qed.

Lemma splitOn_snoc_space (sep c : N) (s : jsstring) :
  isSpace c = true -> N.eqb c sep = false ->
  forall acc,
    filter nonEmpty (map trim (splitOn sep acc (s ++ [c])))
    = filter nonEmpty (map trim (splitOn sep acc s)).
Proof.
  intros Hc Hs.
  induction s as [|d s IH]; intros acc; cbn [app splitOn].
  - rewrite Hs. cbn [rev map].
    rewrite (trim_snoc_space c (rev acc) Hc). reflexivity.
  - destruct (N.eqb d sep); [|apply IH].
    cbn [map filter]. rewrite IH. reflexivity.
Qed.

Lemma parseTagsField_snoc_space (c : N) (s : jsstring) :
  isSpace c = true -> parseTagsField (s ++ [c]) = parseTagsField s.
Proof.
  intros Hc.
  apply (splitOn_snoc_space comma c s Hc (space_not_comma c Hc)).
Qed.

(** Editing the tags field changes the tags of the pairs that have the
    identifier, and nothing else: they become the tags read from the text.
    Reading is additive over a comma, so that a comma or a white space typed
    at the end of the text gives the same working set as the text without
    it. *)
Theorem editTags_effect (id text more : jsstring) (prev : list QAPair) :
  Forall2
    (fun p p' =>
       pair_id p' = pair_id p /\ pair_q p' = pair_q p /\ pair_a p' = pair_a p
       /\ pair_tags p'
          = if str_eqb (pair_id p) id then Some (parseTagsField text)
            else pair_tags p)
    prev (editTags id text prev)
  /\ parseTagsField (text ++ comma :: more)
     = parseTagsField text ++ parseTagsField more
  /\ editTags id (text ++ [comma]) prev = editTags id text prev
  /\ (forall c, isSpace c = true ->
        editTags id (text ++ [c]) prev = editTags id text prev).
Proof.
  split.
  { unfold editTags, updatePair.
    induction prev as [|p l IH]; [constructor|]. cbn [map].
    constructor; [|exact IH].
    destruct (str_eqb (pair_id p) id); repeat split; reflexivity. }
  split; [apply parseTagsField_app|].
  split.
  { unfold editTags. rewrite parseTagsField_app.
    change (parseTagsField []) with (@nil jsstring).
    rewrite app_nil_r. reflexivity. }
  intros c Hc. unfold editTags.
  rewrite (parseTagsField_snoc_space c text Hc). reflexivity.
Qed.

(** ** The lines of a line-delimited text *)

Lemma lines_by_line_feed (n : nat) :
  forall s, length s <= n ->
  forall acc,
    filter nonEmpty (map trim (splitLinesFrom acc s))
    = filter nonEmpty (map trim (splitOn 10 acc s)).
Proof.
  induction n as [|n IH]; intros s Hn acc.
  - destruct s; [reflexivity | simpl in Hn; lia].
  - destruct s as [|c s']; [reflexivity|]. cbn [length] in Hn.
    cbn [splitLinesFrom splitOn].
    destruct (N.eqb c 10) eqn:Ec.
    + cbn [map filter]. rewrite (IH s') by lia. reflexivity.
    + destruct s' as [|d s'']; [apply IH; simpl; lia|].
      destruct (N.eqb c 13 && N.eqb d 10) eqn:E; [|apply IH; simpl in *; lia].
      apply andb_true_iff in E. destruct E as [E13 E10].
      apply N.eqb_eq in E13. subst c.
      cbn [splitOn]. rewrite E10. cbn [map filter rev].
      rewrite (trim_snoc_space 13 (rev acc) eq_refl).
      cbn [length] in Hn. rewrite (IH s'') by lia. reflexivity.
Qed.

Lemma jsonlLines_by_line_feed (text : jsstring) :
  jsonlLines text = filter nonEmpty (map trim (splitOn 10 [] text)).
Proof.
  unfold jsonlLines, splitLines.
  apply (lines_by_line_feed (length text) text (Nat.le_refl _)).
Qed.

Lemma jsonlLines_app (a b : jsstring) :
  jsonlLines (a ++ 10%N :: b) = jsonlLines a ++ jsonlLines b.
Proof.
  rewrite !jsonlLines_by_line_feed, splitOn_app_sep, map_app, filter_app.
  reflexivity.
Qed.

Lemma jsonlLines_carriage_return (a b : jsstring) :
  jsonlLines (a ++ 13%N :: 10%N :: b) = jsonlLines (a ++ 10%N :: b).
Proof.
  change (a ++ 13%N :: 10%N :: b) with (a ++ [13%N] ++ 10%N :: b).
  rewrite app_assoc, !jsonlLines_app. f_equal.
  rewrite !jsonlLines_by_line_feed.
  apply (splitOn_snoc_space 10 13 a eq_refl eq_refl).
Qed.

(** The lines of the line-delimited strategy are the pieces of the text
    between line feeds, trimmed, the empty ones dropped: the optional
    carriage return of the separator changes nothing, since trimming removes
    it.  The lines, and the pairs found on them, of two texts joined by a
    line feed are those of the first followed by those of the second; and a
    carriage return before a line feed changes neither the lines nor the
    result of the strategy. *)
Theorem jsonl_lines_by_line_feed (a b : jsstring) :
  jsonlLines a = filter nonEmpty (map trim (splitOn 10 [] a))
  /\ jsonlLines (a ++ 10%N :: b) = jsonlLines a ++ jsonlLines b
  /\ fold_left jsonlStep (jsonlLines (a ++ 10%N :: b)) []
     = fold_left jsonlStep (jsonlLines a) []
       ++ fold_left jsonlStep (jsonlLines b) []
  /\ jsonlLines (a ++ 13%N :: 10%N :: b) = jsonlLines (a ++ 10%N :: b)
  /\ jsonlStrategy (a ++ 13%N :: 10%N :: b) = jsonlStrategy (a ++ 10%N :: b).
Proof.
  split; [apply jsonlLines_by_line_feed|].
  split; [apply jsonlLines_app|].
  split.
  { rewrite jsonlLines_app, fold_left_app.
    rewrite (jsonl_loop (jsonlLines b) (fold_left jsonlStep (jsonlLines a) [])).
    rewrite (jsonl_loop (jsonlLines b) []). reflexivity. }
  split; [apply jsonlLines_carriage_return|].
  unfold jsonlStrategy. rewrite jsonlLines_carriage_return. reflexivity.
Qed.

(** ** The submit handler *)

(** [handleSubmit] sends a request exactly when the submission gate is open,
    and the request then carries the serialised payload of the current
    metadata and pairs.  With the gate closed it shows the error banner that
    asks to complete the form.  It shows the success banner exactly when
    the gate is open and the response is [ok]; a response that is not [ok]
    shows the status and at most the first 200 code units of its text; the
    banner is never left idle; and metadata, pairs and import dialog are
    never touched. *)
Theorem handleSubmit_gate (toLowerCase : jsstring -> jsstring)
    (hostMessage : exn -> jsstring) (now : jsstring)
    (respond : option jsstring -> FetchOutcome) (st : AppState) :
  let out := handleSubmit toLowerCase hostMessage now respond st in
  let body := submitBody toLowerCase now st in
  (isValid (st_meta st) (st_pairs st) = false ->
     out = (None, setBanner st Failed msgIncomplete))
  /\ (isValid (st_meta st) (st_pairs st) = true -> fst out = Some body)
  /\ (exists text, body = Some text)
  /\ (st_submitState (snd out) = Succeeded <->
      isValid (st_meta st) (st_pairs st) = true
      /\ exists status text, respond body = FetchResponded true status text)
  /\ (forall status text,
        isValid (st_meta st) (st_pairs st) = true ->
        respond body = FetchResponded false status text ->
        snd out
        = setBanner st Failed
            (lit "Submission failed. HTTP " ++ numberToString status
             ++ (if nonEmpty text
                 then lit " " ++ [emDash] ++ lit " " ++ firstn 200 text
                 else [])))
  /\ st_submitState (snd out) <> Idle
  /\ st_meta (snd out) = st_meta st
  /\ st_pairs (snd out) = st_pairs st
  /\ st_importOpen (snd out) = st_importOpen st
  /\ st_importText (snd out) = st_importText st.
Proof.
  intros out body. unfold out, body, handleSubmit, submitRequest.
  change (submitBody toLowerCase now (setBanner st Idle []))
    with (submitBody toLowerCase now st).
  set (b := submitBody toLowerCase now st).
  destruct (isValid (st_meta st) (st_pairs st)) eqn:V; cbn [negb fst snd].
  - split; [discriminate|]. split; [reflexivity|].
    split; [eexists; reflexivity|].
    destruct (respond b) as [e|ok status text] eqn:R.
    + split; [split; [discriminate | intros [_ [s [t H]]]; discriminate H]|].
      split; [discriminate|].
      repeat split; discriminate.
    + destruct ok; cbn [negb].
      * split; [split; [intros _; split; [reflexivity|]; eauto | reflexivity]|].
        split; [discriminate|]. repeat split; discriminate.
      * split; [split; [discriminate | intros [_ [s [t H]]]; discriminate H]|].
        split.
        { intros s t _ H. injection H as <- <-. reflexivity. }
        repeat split; discriminate.
  - split; [reflexivity|]. split; [discriminate|].
    split; [eexists; reflexivity|].
    split; [split; [discriminate | intros [H _]; discriminate H]|].
    split; [discriminate|]. repeat split; discriminate.
Qed.

(** ** What the sanitiser removes *)

Lemma space_not_closing (x : N) : isSpace x = true -> isClosing x = false.
Proof.
  intros Sx. destruct (isClosing x) eqn:Cx; [|reflexivity].
  unfold isClosing in Cx. apply orb_true_iff in Cx.
  destruct Cx as [E|E]; apply N.eqb_eq in E; subst; discriminate Sx.
Qed.

Lemma closingAfterSpaces_spaces (sp b : jsstring) (c : N) :
  forallb isSpace sp = true -> isClosing c = true ->
  closingAfterSpaces (sp ++ c :: b) = Some (c, b).
Proof.
  intros F Cc. induction sp as [|x sp IH]; simpl.
  - rewrite Cc. reflexivity.
  - simpl in F. apply andb_true_iff in F. destruct F as [Sx F].
    rewrite (space_not_closing x Sx), Sx. apply IH, F.
Qed.

Lemma closingAfterSpaces_app_some (a t : jsstring) (d : N) (r : jsstring) :
  closingAfterSpaces a = Some (d, r) ->
  closingAfterSpaces (a ++ t) = Some (d, r ++ t).
Proof.
  induction a as [|x a IH]; simpl; [discriminate|].
  destruct (isClosing x).
  - intros E. injection E as <- <-. reflexivity.
  - destruct (isSpace x); [exact IH | discriminate].
Qed.

Lemma closingAfterSpaces_app_none (a t : jsstring) :
  closingAfterSpaces a = None ->
  closingAfterSpaces (a ++ comma :: t) = None.
Proof.
  induction a as [|x a IH]; simpl; [reflexivity|].
  destruct (isClosing x); [discriminate|].
  destruct (isSpace x); [exact IH | reflexivity].
Qed.

Lemma stripTrailingCommas_removes_strong (sp b : jsstring) (c : N) (n : nat) :
  forallb isSpace sp = true -> isClosing c = true ->
  forall a, length a <= n ->
    stripTrailingCommas (a ++ comma :: sp ++ c :: b)
    = stripTrailingCommas a ++ c :: stripTrailingCommas b.
Proof.
  intros F Cc. induction n as [|n IH]; intros a Hn.
  - destruct a; [|simpl in Hn; lia]. cbn [app].
    rewrite stripTrailingCommas_step, N.eqb_refl.
    rewrite (closingAfterSpaces_spaces sp b c F Cc). reflexivity.
  - destruct a as [|x a].
    { cbn [app]. rewrite stripTrailingCommas_step, N.eqb_refl.
      rewrite (closingAfterSpaces_spaces sp b c F Cc). reflexivity. }
    cbn [length] in Hn. cbn [app].
    rewrite (stripTrailingCommas_step x (a ++ _)).
    rewrite (stripTrailingCommas_step x a).
    destruct (N.eqb x comma).
    + destruct (closingAfterSpaces a) as [[d r]|] eqn:E.
      * rewrite (closingAfterSpaces_app_some a _ d r E).
        destruct (closingAfterSpaces_shape a d r E) as [sp' [Ea _]].
        assert (Lr : length r <= n).
        { rewrite Ea, length_app in Hn. simpl in Hn. lia. }
        rewrite (IH r Lr). reflexivity.
      * rewrite (closingAfterSpaces_app_none a _ E).
        rewrite (IH a) by lia. reflexivity.
    + rewrite (IH a) by lia. reflexivity.
Qed.

(** Wherever a comma is followed by white space and a closing bracket or
    brace, the sanitiser removes the comma and the white space and keeps the
    bracket, sanitising what stands before and what stands after on their
    own; nothing tells it whether the comma stands inside a JSON string. *)
Theorem stripTrailingCommas_removes (a sp b : jsstring) (c : N) :
  forallb isSpace sp = true -> isClosing c = true ->
  stripTrailingCommas (a ++ comma :: sp ++ c :: b)
  = stripTrailingCommas a ++ c :: stripTrailingCommas b.
Proof.
  intros F Cc.
  apply (stripTrailingCommas_removes_strong sp b c (length a) F Cc a).
  apply Nat.le_refl.
Qed.

Lemma stripTrailingCommas_removes_witness :
  stripTrailingCommas commaInString
  = litq "[{'q':'Pick one of [a,b]','a':'b'}]"
  /\ parseAnyQAPairs commaInString
     = Ok (mkImported None
             [mkQA (lit "Pick one of [a,b, ]") (lit "b") None])
  /\ parseAnyQAPairs (stripTrailingCommas commaInString)
     = Ok (mkImported None [mkQA (lit "Pick one of [a,b]") (lit "b") None]).
Proof.
  assert (S : stripTrailingCommas commaInString
              = litq "[{'q':'Pick one of [a,b]','a':'b'}]").
  { apply (stripTrailingCommas_removes (litq "[{'q':'Pick one of [a,b")
             (lit " ") (litq "','a':'b'}]") 93);
      reflexivity. }
  split; [exact S|]. split; [vm_compute; reflexivity|].
  rewrite S. vm_compute. reflexivity.
Defined.

(** ** The pair extractor, on every record *)

Lemma mapM_coerceStr_throws (ts : list value) :
  forallb stringifiable ts = false -> mapM coerceStr ts = Throw TypeError.
Proof.
  induction ts as [|x ts IH]; simpl; [discriminate|].
  intros H. destruct (stringifiable x) eqn:Sx.
  - destruct (coerceStr_stringifiable x Sx) as [s [Cs _]].
    rewrite Cs. cbn [bind]. rewrite (IH H). reflexivity.
  - rewrite (coerceStr_not_stringifiable x Sx). reflexivity.
Qed.

Lemma mapM_coerceStr_returns (ts : list value) :
  forallb stringifiable ts = true -> exists strs, coerceEach ts strs.
Proof.
  induction ts as [|x ts IH]; simpl.
  - intros _. exists []. constructor.
  - intros H. apply andb_true_iff in H. destruct H as [Sx St].
    destruct (coerceStr_stringifiable x Sx) as [s [Cs _]].
    destruct (IH St) as [strs Hs]. exists (s :: strs).
    constructor; assumption.
Qed.

(** C7.  On an object record, [extractQAFromObject] reads the question from
    the first key of [q, question, prompt, ask, query, Q] that the record has
    and the answer from the first key of [a, answer, response, text, A] that
    it has, and returns nothing when the record has no key of one of the two
    lists.  It coerces the question, then the answer, before it looks at
    either: when one of the two conversions throws, which is when it reaches
    an object with an own [toString] property, the call throws a
    [TypeError], whatever the other value.  When both coerce, it returns
    nothing if the question or the answer is the empty string after
    trimming.  Otherwise the elements of a [tags] array are coerced one by
    one: the call throws a [TypeError] when one of these conversions throws,
    and else returns the two trimmed strings with the tags that are not
    empty, and without tags when none is left or [tags] is not an array.
    The two sample records give [{q:"Q1", a:"A1"}] and [{q:"x", a:"y"}],
    without tags. *)
Theorem extractQAFromObject_spec (props : list (jsstring * value)) :
  (nonePresent qKeys props \/ nonePresent aKeys props ->
   extractQAFromObject (VObj props) = Ok None)
  /\ (forall qKey aKey,
        firstPresent qKeys props qKey ->
        firstPresent aKeys props aKey ->
        (stringifiable (getProp (VObj props) qKey) = false
         \/ stringifiable (getProp (VObj props) aKey) = false ->
         extractQAFromObject (VObj props) = Throw TypeError)
        /\ (stringifiable (getProp (VObj props) qKey) = true ->
            stringifiable (getProp (VObj props) aKey) = true ->
            exists q a,
              coerceStr (getProp (VObj props) qKey) = Ok q
              /\ coerceStr (getProp (VObj props) aKey) = Ok a)
        /\ (forall q a,
              coerceStr (getProp (VObj props) qKey) = Ok q ->
              coerceStr (getProp (VObj props) aKey) = Ok a ->
              (q = [] \/ a = [] -> extractQAFromObject (VObj props) = Ok None)
              /\ (q <> [] -> a <> [] ->
                  (forall ts strs,
                     getProp (VObj props) (lit "tags") = VArr ts ->
                     coerceEach ts strs ->
                     extractQAFromObject (VObj props)
                     = Ok (Some (mkQA q a
                                   match filter nonEmpty strs with
                                   | [] => None
                                   | kept => Some kept
                                   end)))
                  /\ (forall ts,
                        getProp (VObj props) (lit "tags") = VArr ts ->
                        (forallb stringifiable ts = true ->
                         exists strs, coerceEach ts strs)
                        /\ (forallb stringifiable ts = false ->
                            extractQAFromObject (VObj props)
                            = Throw TypeError))
                  /\ (isArray (getProp (VObj props) (lit "tags")) = false ->
                      extractQAFromObject (VObj props)
                      = Ok (Some (mkQA q a None))))))
  /\ extractQAFromObject recordQ1
     = Ok (Some (mkQA (lit "Q1") (lit "A1") None))
  /\ extractQAFromObject recordPadded
     = Ok (Some (mkQA (lit "x") (lit "y") None)).
Proof.
  split; [apply extractQAFromObject_absent|].
  split; [|split; reflexivity].
  intros qKey aKey Hq Ha.
  assert (Fq : find (fun k => hasProp k (VObj props)) qKeys = Some qKey)
    by (apply find_first; exact Hq).
  assert (Fa : find (fun k => hasProp k (VObj props)) aKeys = Some aKey)
    by (apply find_first; exact Ha).
  unfold extractQAFromObject. cbn [truthy typeofObject negb orb].
  rewrite Fq, Fa.
  split; [|split].
  - intros [Sq|Sa].
    + rewrite (coerceStr_not_stringifiable _ Sq). reflexivity.
    + destruct (stringifiable (getProp (VObj props) qKey)) eqn:Sq.
      * destruct (coerceStr_stringifiable _ Sq) as [q [Cq _]].
        rewrite Cq. cbn [bind].
        rewrite (coerceStr_not_stringifiable _ Sa). reflexivity.
      * rewrite (coerceStr_not_stringifiable _ Sq). reflexivity.
  - intros Sq Sa.
    destruct (coerceStr_stringifiable _ Sq) as [q [Cq _]].
    destruct (coerceStr_stringifiable _ Sa) as [a [Ca _]].
    exists q, a. split; assumption.
  - intros q a Cq Ca. rewrite Cq. cbn [bind]. rewrite Ca. cbn [bind].
    split.
    + intros [-> | ->]; [reflexivity|]. rewrite orb_true_r. reflexivity.
    + intros Nq Na.
      rewrite (isEmpty_false q Nq), (isEmpty_false a Na). cbn [orb].
      split; [|split].
      * intros ts strs -> Hs. rewrite (mapM_Forall2 _ _ _ _ _ Hs).
        cbn [bind]. unfold tagsOrAbsent.
        destruct (filter nonEmpty strs); reflexivity.
      * intros ts ->. split; [apply mapM_coerceStr_returns|].
        intros Hs. rewrite (mapM_coerceStr_throws ts Hs). reflexivity.
      * intros Ht. destruct (getProp (VObj props) (lit "tags"));
          try reflexivity. discriminate Ht.
Qed.

Lemma extractQAFromObject_spec_witness :
  extractQAFromObject
    (VObj [(lit "prompt", VStr (lit " Why? ")); (lit "Q", VStr (lit "no"));
           (lit "text", VBool true);
           (lit "tags", VArr [VStr (lit " a "); VStr (lit " "); VNull])])
  = Ok (Some (mkQA (lit "Why?") (lit "true") (Some [lit "a"]))).
Proof.
  set (props := [(lit "prompt", VStr (lit " Why? "));
                 (lit "Q", VStr (lit "no")); (lit "text", VBool true);
                 (lit "tags", VArr [VStr (lit " a "); VStr (lit " "); VNull])]).
  destruct (extractQAFromObject_spec props) as [_ [H _]].
  assert (Hq : firstPresent qKeys props (lit "prompt")).
  { exists [lit "q"; lit "question"], [lit "ask"; lit "query"; lit "Q"].
    split; [reflexivity|]. split; [reflexivity|].
    intros k' [<-|[<-|[]]]; reflexivity. }
  assert (Ha : firstPresent aKeys props (lit "text")).
  { exists [lit "a"; lit "answer"; lit "response"], [lit "A"].
    split; [reflexivity|]. split; [reflexivity|].
    intros k' [<-|[<-|[<-|[]]]]; reflexivity. }
  destruct (H (lit "prompt") (lit "text") Hq Ha) as [_ [_ H1]].
  destruct (H1 (lit "Why?") (lit "true") eq_refl eq_refl) as [_ H2].
  destruct (H2 ltac:(discriminate) ltac:(discriminate)) as [H3 _].
  apply (H3 [VStr (lit " a "); VStr (lit " "); VNull] [lit "a"; []; []]).
  - reflexivity.
  - repeat constructor.
Defined.

(** C7 as stated fails: the record [{q:"", a:{toString:null}}], which
    [JSON.parse] gives for its text, has both keys, and its question coerces
    to the empty string; the call does not return nothing, it throws. *)
Lemma extractQAFromObject_throws_counterexample :
  JSON_parse recordThrowingText = Ok recordThrowing
  /\ coerceStr (getProp recordThrowing (lit "q")) = Ok []
  /\ extractQAFromObject recordThrowing = Throw TypeError
  /\ extractQAFromObject recordThrowing <> Ok None.
Proof.
  split; [vm_compute; reflexivity|]. split; [reflexivity|].
  split; [reflexivity|]. discriminate.
Qed.

(** The tuple form: an array of fewer than two elements gives nothing.  The
    first two elements are coerced before either is looked at: when one of
    the two conversions throws, which is when it reaches an object with an
    own [toString] property, the call throws a [TypeError]; when both
    coerce, a blank one gives nothing.  Otherwise a third element gives the
    tags, element by element when it is an array and by splitting its text
    at the commas when it is not, and the call throws a [TypeError] when a
    conversion of the third element throws. *)
Theorem extractQAFromArray_spec (items : list value) :
  (length items < 2 -> extractQAFromArray (VArr items) = Ok None)
  /\ (forall x0 x1 rest,
        items = x0 :: x1 :: rest ->
        (stringifiable x0 = false \/ stringifiable x1 = false ->
         extractQAFromArray (VArr items) = Throw TypeError)
        /\ (stringifiable x0 = true -> stringifiable x1 = true ->
            exists q a, coerceStr x0 = Ok q /\ coerceStr x1 = Ok a)
        /\ (forall q a,
              coerceStr x0 = Ok q -> coerceStr x1 = Ok a ->
              (q = [] \/ a = [] -> extractQAFromArray (VArr items) = Ok None)
              /\ (q <> [] -> a <> [] ->
                  (rest = [] ->
                   extractQAFromArray (VArr items)
                   = Ok (Some (mkQA q a None)))
                  /\ (forall ts more,
                        rest = VArr ts :: more ->
                        (forall strs,
                           coerceEach ts strs ->
                           extractQAFromArray (VArr items)
                           = Ok (Some (mkQA q a
                                         (tagsOrAbsent
                                            (filter nonEmpty strs)))))
                        /\ (forallb stringifiable ts = true ->
                            exists strs, coerceEach ts strs)
                        /\ (forallb stringifiable ts = false ->
                            extractQAFromArray (VArr items) = Throw TypeError))
                  /\ (forall x2 more,
                        rest = x2 :: more -> isArray x2 = false ->
                        (forall s,
                           coerceStr x2 = Ok s ->
                           extractQAFromArray (VArr items)
                           = Ok (Some (mkQA q a
                                         (tagsOrAbsent
                                            (filter nonEmpty
                                               (map trim
                                                  (splitOn comma [] s)))))))
                        /\ (stringifiable x2 = true ->
                            exists s, coerceStr x2 = Ok s)
                        /\ (stringifiable x2 = false ->
                            extractQAFromArray (VArr items)
                            = Throw TypeError)))))
  /\ extractQAFromArray tupleQ2
     = Ok (Some (mkQA (lit "Q2") (lit "A2") (Some [lit "policy"; lit "edu"])))
  /\ extractQAFromArray tupleOfOne = Ok None
  /\ extractQAFromObject questionOnly = Ok None
  /\ extractQAFromArray tupleThrowing = Throw TypeError.
Proof.
  split; [|split; [|repeat split; vm_compute; reflexivity]].
  - destruct items as [|x0 [|x1 rest]]; simpl; intros H; try reflexivity. lia.
  - intros x0 x1 rest ->. cbn [extractQAFromArray]. split; [|split].
    + intros [Sq|Sa].
      * rewrite (coerceStr_not_stringifiable _ Sq). reflexivity.
      * destruct (stringifiable x0) eqn:Sq.
        -- destruct (coerceStr_stringifiable _ Sq) as [q [Cq _]].
           rewrite Cq. cbn [bind].
           rewrite (coerceStr_not_stringifiable _ Sa). reflexivity.
        -- rewrite (coerceStr_not_stringifiable _ Sq). reflexivity.
    + intros Sq Sa.
      destruct (coerceStr_stringifiable _ Sq) as [q [Cq _]].
      destruct (coerceStr_stringifiable _ Sa) as [a [Ca _]].
      exists q, a. split; assumption.
    + intros q a Cq Ca. rewrite Cq. cbn [bind]. rewrite Ca. cbn [bind].
      split.
      * intros [-> | ->]; [reflexivity|]. rewrite orb_true_r. reflexivity.
      * intros Nq Na.
        rewrite (isEmpty_false q Nq), (isEmpty_false a Na). cbn [orb].
        split; [|split].
        -- intros ->. reflexivity.
        -- intros ts more ->. split; [|split].
           ++ intros strs Hs. rewrite (mapM_Forall2 _ _ _ _ _ Hs).
              reflexivity.
           ++ apply mapM_coerceStr_returns.
           ++ intros Hs. rewrite (mapM_coerceStr_throws ts Hs). reflexivity.
        -- intros x2 more -> Hx. split; [|split].
           ++ intros s Cs.
              destruct x2; try discriminate Hx; rewrite Cs; reflexivity.
           ++ intros Sx. destruct (coerceStr_stringifiable _ Sx) as [s [Cs _]].
              exists s. exact Cs.
           ++ intros Sx. pose proof (coerceStr_not_stringifiable _ Sx) as Cs.
              destruct x2; try discriminate Hx; rewrite Cs; reflexivity.
Qed.

Lemma extractQAFromArray_spec_witness :
  extractQAFromArray tupleQ2
  = Ok (Some (mkQA (lit "Q2") (lit "A2")
                (tagsOrAbsent
                   (filter nonEmpty
                      (map trim (splitOn comma [] (lit "policy,edu"))))))).
Proof.
  destruct (extractQAFromArray_spec
              [VStr (lit "Q2"); VStr (lit "A2"); VStr (lit "policy,edu")])
    as [_ [H _]].
  destruct (H (VStr (lit "Q2")) (VStr (lit "A2")) [VStr (lit "policy,edu")]
              eq_refl) as [_ [_ H1]].
  destruct (H1 (lit "Q2") (lit "A2") eq_refl eq_refl) as [_ H2].
  destruct (H2 ltac:(discriminate) ltac:(discriminate)) as [_ [_ H3]].
  destruct (H3 (VStr (lit "policy,edu")) [] eq_refl eq_refl) as [H4 _].
  apply (H4 (lit "policy,edu")). reflexivity.
Defined.
